(** * memtools: pattern scanning, verification and patching

    A shallow embedding of [memtools.h] (the [PatternScan] revision) and of
    the earlier [DataScan] revision of the same header, followed by the
    properties of the pattern compiler, the matcher, the region walk, the
    instruction interpreter and the [Patch] primitive.

    Conventions.
    - Unsigned 64-bit values ([uint64_t], pointers) are [Z] with the
      wrap-around written out ([wrap64]); [uint8_t] wraps with [u8].
    - A [const char*] is the list of its characters before the terminating
      NUL; reading one past the end yields that NUL (value 0).
    - Process memory is a total map from addresses to bytes.
    - Behaviour the C++ standard leaves undefined ([back()] on an empty
      vector, an array read out of bounds, [memcpy] from a null pointer) is
      the outcome [Undefined]. *)

From Stdlib Require Import ZArith Ascii String Lia.
From stdpp Require Import base list.

Open Scope Z_scope.

(** ** Machine integers *)

Definition wrap64 (x : Z) : Z := x mod 2 ^ 64.
Definition u8 (x : Z) : Z := x mod 2 ^ 8.
Definition u32 (x : Z) : Z := x mod 2 ^ 32.

(** Two's complement reading of the low [bits] bits of [x]. *)
Definition to_signed (bits : Z) (x : Z) : Z :=
  let r := x mod 2 ^ bits in
  if r <? 2 ^ (bits - 1) then r else r - 2 ^ bits.

Definition nullptr : Z := 0.

(** ** Outcomes of code that can leave defined behaviour *)

Inductive outcome (A : Type) : Type :=
| Ret (a : A)
| Undefined
| OutOfFuel.
Arguments Ret {A} a.
Arguments Undefined {A}.
Arguments OutOfFuel {A}.

Definition obind {A B} (o : outcome A) (k : A -> outcome B) : outcome B :=
  match o with
  | Ret a => k a
  | Undefined => Undefined
  | OutOfFuel => OutOfFuel
  end.

Notation "'let*' x ':=' o 'in' k" := (obind o (fun x => k))
  (at level 10, x name, o at level 200, k at level 200).

(** A constructor either yields its object or throws a message. *)
Inductive result (A : Type) : Type :=
| Ok (a : A)
| Throw (msg : string).
Arguments Ok {A} a.
Arguments Throw {A} msg.

(** ** Constants of the header *)

Definition MAX_PATTERN_LENGTH : Z := 128.
Definition MAX_INSTRUCTION_LENGTH : Z := 16.
Definition CHAR_0 : Z := 0x30.
Definition CHAR_9 : Z := 0x39.
Definition CHAR_A : Z := 0x41.
Definition CHAR_F : Z := 0x46.
Definition HEXVAL_A : Z := 10.
Definition HEXPOW_1 : Z := 0x01.
Definition HEXPOW_2 : Z := 0x10.

Definition CHAR_SPACE : Z := 0x20.
Definition CHAR_LT : Z := 0x3C.
Definition CHAR_GT : Z := 0x3E.
Definition CHAR_QMARK : Z := 0x3F.

(** ** C strings *)

(** [char] is signed on the targeted toolchain. *)
Definition char_code (a : ascii) : Z :=
  let n := Z.of_N (N_of_ascii a) in
  if n <? 128 then n else n - 256.

(** The characters a [const char*] denotes: everything before the first NUL. *)
Fixpoint c_str (s : string) : list Z :=
  match s with
  | EmptyString => []
  | String a s' =>
      let c := char_code a in
      if c =? 0 then [] else c :: c_str s'
  end.

(** [aPattern[i + 1]] when [rest] is what follows [aPattern[i]]: the next
    character, or the terminating NUL at index [len]. *)
Definition peek (rest : list Z) : Z :=
  match rest with
  | [] => 0
  | c :: _ => c
  end.

(** [i + 1 < len]. *)
Definition has_next (rest : list Z) : bool :=
  match rest with
  | [] => false
  | _ :: _ => true
  end.

(** ** Byte and Pattern *)

Record Byte : Type := mkByte { IsWildcard : bool; Value : Z }.

Record Pattern : Type := mkPattern { Bytes : list Byte; Size : Z }.

(** [Pattern() : Bytes(), Size(0)]: a value-initialised array. *)
Definition Pattern_empty : Pattern :=
  {| Bytes := replicate (Z.to_nat MAX_PATTERN_LENGTH) (mkByte false 0);
     Size := 0 |}.

(** [this->Bytes[j] = b; this->Size++;] *)
Definition put_byte (this : Pattern) (j : Z) (b : Byte) : Pattern :=
  {| Bytes := <[Z.to_nat j := b]> (Bytes this);
     Size := wrap64 (Size this + 1) |}.

Definition is_digit (c : Z) : bool := (CHAR_0 <=? c) && (c <=? CHAR_9).
Definition is_upper_hex (c : Z) : bool := (CHAR_A <=? c) && (c <=? CHAR_F).

(** The value one hex character contributes at the given power. *)
Definition hex_part (c pow : Z) : Z :=
  if c <=? CHAR_9 then (c - CHAR_0) * pow
  else ((c - CHAR_A) + HEXVAL_A) * pow.

(** The body of the [for] loop of the [Pattern] constructor from text.
    [s] is the unread suffix [aPattern[i .. len)], [j] the write index. *)
Fixpoint Pattern_loop (s : list Z) (this : Pattern) (j : Z) : result Pattern :=
  match s with
  | [] => Ok this
  | c :: rest =>
      (* Pattern string not done, but already filled max byte length. *)
      if MAX_PATTERN_LENGTH <=? Size this then Ok this
      (* Skip spaces. *)
      else if c =? CHAR_SPACE then Pattern_loop rest this j
      (* Skip angle brackets. *)
      else if c =? CHAR_LT then Pattern_loop rest this j
      else if c =? CHAR_GT then Pattern_loop rest this j
      (* Match wildcard. *)
      else if c =? CHAR_QMARK then
        let this' := put_byte this j (mkByte true 0) in
        let j' := wrap64 (j + 1) in
        match rest with
        | c' :: rest' =>
            if c' =? CHAR_QMARK then Pattern_loop rest' this' j'
            else Pattern_loop rest this' j'
        | [] => Pattern_loop rest this' j'
        end
      (* Match hex. *)
      else if is_digit c || is_upper_hex c then
        let val := 0 in
        if (has_next rest && is_digit (peek rest)) || is_upper_hex (peek rest) then
          let val := u8 (val + hex_part c HEXPOW_2) in
          let val := u8 (val + hex_part (peek rest) HEXPOW_1) in
          let this' := put_byte this j (mkByte false val) in
          let j' := wrap64 (j + 1) in
          match rest with
          | _ :: rest' => Pattern_loop rest' this' j'
          | [] => Pattern_loop rest this' j'
          end
        else
          let val := u8 (val + hex_part c HEXPOW_1) in
          let this' := put_byte this j (mkByte false val) in
          let j' := wrap64 (j + 1) in
          Pattern_loop rest this' j'
      else Throw "Invalid hexadecimal."
  end.

(** [Pattern::Pattern], the constructor from [aPattern]. *)
Definition Pattern_of (aPattern : string) : result Pattern :=
  Pattern_loop (c_str aPattern) Pattern_empty 0.

(** The tokens a pattern holds: its first [Size] array cells. *)
Definition tokens (p : Pattern) : list Byte := take (Z.to_nat (Size p)) (Bytes p).

(** [lhs.Bytes[i]]; the cell is in the array for every index below
    [MAX_PATTERN_LENGTH]. *)
Definition byte_at (p : Pattern) (i : Z) : Byte :=
  default (mkByte false 0) (Bytes p !! Z.to_nat i).

(** ** Matcher: [operator==(const Pattern&, const PBYTE)] *)

(** [rhs k] is [rhs[k]]. *)
Fixpoint Pattern_eq_loop (n : nat) (lhs : Pattern) (rhs : Z -> Z) (i : Z) : bool :=
  match n with
  | O => true
  | S n' =>
      if negb (IsWildcard (byte_at lhs i)) && negb (Value (byte_at lhs i) =? rhs i)
      then false
      else Pattern_eq_loop n' lhs rhs (i + 1)
  end.

Definition Pattern_eq (lhs : Pattern) (rhs : Z -> Z) : bool :=
  Pattern_eq_loop (Z.to_nat (Size lhs)) lhs rhs 0.

(** A byte window seen through a pointer to its first byte. *)
Definition window (w : list Z) : Z -> Z :=
  fun k => default 0 (w !! Z.to_nat k).

(** ** Process memory *)

Definition Mem : Type := Z -> Z.

Definition ptr_add (p k : Z) : Z := wrap64 (p + k).

(** [p[k]] for a [PBYTE p] into memory [m]. *)
Definition deref (m : Mem) (p : Z) : Z -> Z := fun k => u8 (m (ptr_add p k)).

(** The unsigned little-endian integer held by the [n] bytes at [a]. *)
Fixpoint read_le (m : Mem) (a : Z) (n : nat) : Z :=
  match n with
  | O => 0
  | S n' => u8 (m a) + 256 * read_le m (ptr_add a 1) n'
  end.

(** [*(intN_t* )a]. *)
Definition read_int (bits : Z) (m : Mem) (a : Z) : Z :=
  to_signed bits (read_le m a (Z.to_nat (bits / 8))).

(** [FollowRelativeAddress]: [(PBYTE)aAddress + jmpOffset + 4]. *)
Definition FollowRelativeAddress (m : Mem) (aAddress : Z) : Z :=
  let jmpOffset := read_int 32 m aAddress in
  wrap64 (aAddress + jmpOffset + 4).

(** [strcmp(p, s) == 0] for a string [s] of non-NUL characters: the bytes at
    [p] spell [s] and are followed by a NUL. *)
Fixpoint strcmp_eq (m : Mem) (p : Z) (s : list Z) : bool :=
  match s with
  | [] => u8 (m p) =? 0
  | c :: s' => (u8 (m p) =? u8 c) && strcmp_eq m (ptr_add p 1) s'
  end.

(** [wcscmp(p, s) == 0], on 16-bit code units. *)
Fixpoint wcscmp_eq (m : Mem) (p : Z) (s : list Z) : bool :=
  match s with
  | [] => read_le m p 2 =? 0
  | c :: s' => (read_le m p 2 =? c mod 2 ^ 16) && wcscmp_eq m (ptr_add p 2) s'
  end.

(** ** Instructions *)

Inductive EOperation : Type :=
| NONE | offset | follow | strcmp | wcscmp
| cmpi8 | cmpi16 | cmpi32 | cmpi64
| pushaddr | popaddr | advwcard.

(** The fields [Value], [String] and [WString] of [struct Instruction]; an
    absent string is a null pointer. *)
Record Instruction : Type := mkInstruction {
  Operation : EOperation;
  IValue : Z;
  IString : option (list Z);
  IWString : option (list Z)
}.

Definition Instruction_default : Instruction := mkInstruction NONE 0 None None.
Definition Instruction_op (aOp : EOperation) : Instruction := mkInstruction aOp 0 None None.
Definition Instruction_val (aOp : EOperation) (aValue : Z) : Instruction :=
  mkInstruction aOp aValue None None.
Definition Instruction_str (aOp : EOperation) (aStr : list Z) : Instruction :=
  mkInstruction aOp 0 (Some aStr) None.
Definition Instruction_wstr (aOp : EOperation) (aWStr : list Z) : Instruction :=
  mkInstruction aOp 0 None (Some aWStr).

Definition Offset (aValue : Z) : Instruction := Instruction_val offset aValue.
Definition Follow : Instruction := Instruction_op follow.
Definition Strcmp (aStr : string) : Instruction := Instruction_str strcmp (c_str aStr).
Definition Wcscmp (aWStr : list Z) : Instruction := Instruction_wstr wcscmp aWStr.
Definition CmpI8 (aValue : Z) : Instruction := Instruction_val cmpi8 aValue.
Definition CmpI16 (aValue : Z) : Instruction := Instruction_val cmpi16 aValue.
Definition CmpI32 (aValue : Z) : Instruction := Instruction_val cmpi32 aValue.
Definition CmpI64 (aValue : Z) : Instruction := Instruction_val cmpi64 aValue.
Definition PushAddr : Instruction := Instruction_op pushaddr.
Definition PopAddr : Instruction := Instruction_op popaddr.
Definition AdvWcard (aSets : Z) : Instruction := Instruction_val advwcard (Z.max 1 aSets).

(** ** One verification attempt *)

(** The locals of the match branch: [resultAddr], [instructionsFailed],
    [addrStore] (last element is the back of the vector) and
    [offsetFromMatch]. *)
Record VState : Type := mkVState {
  resultAddr : Z;
  instructionsFailed : Z;
  addrStore : list Z;
  offsetFromMatch : Z
}.

Definition set_resultAddr (st : VState) (a : Z) : VState :=
  mkVState a (instructionsFailed st) (addrStore st) (offsetFromMatch st).

(** [instructionsFailed += ok ? 0 : 1]. *)
Definition add_failed (st : VState) (ok : bool) : VState :=
  mkVState (resultAddr st) (u32 (instructionsFailed st + (if ok then 0 else 1)))
           (addrStore st) (offsetFromMatch st).

(** [addrStore.push_back(resultAddr)]. *)
Definition push_addr (st : VState) : VState :=
  mkVState (resultAddr st) (instructionsFailed st)
           (addrStore st ++ [resultAddr st]) (offsetFromMatch st).

(** [resultAddr = addrStore.back(); addrStore.pop_back();] with nothing
    guarding the empty vector. *)
Definition pop_addr (st : VState) : outcome VState :=
  match last (addrStore st) with
  | None => Undefined
  | Some a =>
      Ret (mkVState a (instructionsFailed st) (removelast (addrStore st))
                    (offsetFromMatch st))
  end.

(** The verdict of the comparison instructions, shared by both revisions. *)
Definition compare_ok (m : Mem) (inst : Instruction) (st : VState) : outcome bool :=
  match Operation inst with
  | strcmp =>
      match IString inst with
      | None => Undefined
      | Some s => Ret (strcmp_eq m (FollowRelativeAddress m (resultAddr st)) s)
      end
  | wcscmp =>
      match IWString inst with
      | None => Undefined
      | Some s => Ret (wcscmp_eq m (FollowRelativeAddress m (resultAddr st)) s)
      end
  | cmpi8 => Ret (read_int 8 m (resultAddr st) =? to_signed 8 (IValue inst))
  | cmpi16 => Ret (read_int 16 m (resultAddr st) =? to_signed 16 (IValue inst))
  | cmpi32 => Ret (read_int 32 m (resultAddr st) =? to_signed 32 (IValue inst))
  | cmpi64 => Ret (read_int 64 m (resultAddr st) =? to_signed 64 (IValue inst))
  | _ => Ret true
  end.

(** [this->Assembly.Bytes[off]], undefined outside the array. *)
Definition Bytes_read (p : Pattern) (off : Z) : outcome Byte :=
  if (0 <=? off) && (off <? MAX_PATTERN_LENGTH) then
    match Bytes p !! Z.to_nat off with
    | Some b => Ret b
    | None => Undefined
    end
  else Undefined.

(** The [while] loop of [advwcard]; [fuel] bounds the distance to [Size]. *)
Fixpoint advwcard_while (fuel : nat) (p : Pattern) (off : Z) (wasAtWildcard : bool)
  : outcome Z :=
  match fuel with
  | O => Ret off
  | S fuel' =>
      if off <? to_signed 64 (Size p) then
        let* b := Bytes_read p off in
        if wasAtWildcard && IsWildcard b then advwcard_while fuel' p (off + 1) wasAtWildcard
        else if negb wasAtWildcard && IsWildcard b then Ret off
        else advwcard_while fuel' p (off + 1) false
      else Ret off
  end.

(** One round of the [for] loop of [advwcard]. *)
Definition advwcard_set (p : Pattern) (off : outcome Z) : outcome Z :=
  let* o := off in
  let* b := Bytes_read p o in
  advwcard_while (Z.to_nat (to_signed 64 (Size p) - o)) p o (IsWildcard b).

(** The [for] loop over [this->Instructions], one [exec] per instruction. *)
Section InstructionLoop.
Variable exec : Instruction -> VState -> outcome VState.

Fixpoint run_instructions (insts : list Instruction) (st : VState) : outcome VState :=
  match insts with
  | [] => Ret st
  | inst :: rest =>
      let* st' := exec inst st in
      if negb (instructionsFailed st' =? 0)
      then Ret (set_resultAddr st' nullptr)  (* interrupt if any failed *)
      else run_instructions rest st'
  end.
End InstructionLoop.

(** ** The candidate loop of one region *)

Section CandidateLoop.
Variable Assembly : Pattern.
Variable m : Mem.
(** The instruction loop started at candidate [base + i]. *)
Variable attempt : Z -> Z -> outcome VState.

(** [for (uint64_t i = 0; i < end; i++)], with [n] iterations left ([i]
    stays below [end], so [i++] does not wrap).  The second component lists,
    in order, the offsets [i] at which the pattern was compared with
    [&base[i]]. *)
Fixpoint candidate_loop (n : nat) (base i : Z) (result : Z) (tested : list Z)
  : outcome (Z * list Z) :=
  match n with
  | O => Ret (result, tested)
  | S n' =>
      let isMatch := Pattern_eq Assembly (deref m (ptr_add base i)) in
      let tested' := tested ++ [i] in
      if isMatch then
        let* st := attempt base i in
        if instructionsFailed st =? 0
        then Ret (resultAddr st, tested')  (* all executed: leave the byte loop *)
        else candidate_loop n' base (i + 1) (resultAddr st) tested'
      else candidate_loop n' base (i + 1) result tested'
  end.
End CandidateLoop.

(** ** Host interface *)

(** Constants of [<windows.h>], which the header includes. *)
Definition MEM_COMMIT : Z := 0x1000.
Definition PAGE_NOACCESS : Z := 0x01.
Definition PAGE_READONLY : Z := 0x02.
Definition PAGE_READWRITE : Z := 0x04.
Definition PAGE_WRITECOPY : Z := 0x08.
Definition PAGE_EXECUTE : Z := 0x10.
Definition PAGE_EXECUTE_READ : Z := 0x20.
Definition PAGE_EXECUTE_READWRITE : Z := 0x40.
Definition PAGE_EXECUTE_WRITECOPY : Z := 0x80.
Definition PAGE_GUARD : Z := 0x100.

Record MEMORY_BASIC_INFORMATION : Type := mkMBI {
  BaseAddress : Z;
  RegionSize : Z;
  State : Z;
  Protect : Z
}.

(** What a scan sees of its process: the answers of [VirtualQuery] ([None]
    when the call fails), the bytes of memory, and the module information
    of the executable. *)
Record Host : Type := mkHost {
  VirtualQuery : Z -> option MEMORY_BASIC_INFORMATION;
  memory : Mem;
  lpBaseOfDll : Z;
  SizeOfImage : Z
}.

(** A candidate the scan compared the pattern with: region base and offset. *)
Definition Candidate : Type := (Z * Z)%type.

(** ** [struct PatternScan] of [memtools.h] *)

Module PatternScan.

Record t : Type := mk {
  Assembly : Pattern;
  Instructions : list Instruction;  (* std::array, MAX_INSTRUCTION_LENGTH cells *)
  Count : Z
}.

(** The variadic constructor: the array is filled with the arguments and
    padded with default instructions; the [static_assert] rejects more
    than [MAX_INSTRUCTION_LENGTH] of them. *)
Definition ctor (aASM : Pattern) (instrs : list Instruction) : option t :=
  if Z.of_nat (length instrs) <=? MAX_INSTRUCTION_LENGTH then
    Some {| Assembly := aASM;
            Instructions :=
              instrs ++ replicate (Z.to_nat MAX_INSTRUCTION_LENGTH - length instrs)
                                  Instruction_default;
            Count := Z.of_nat (length instrs) |}
  else None.

(** The [switch] over [inst.Operation] for the candidate at [base + i]. *)
Definition exec (P : Pattern) (m : Mem) (base i : Z) (inst : Instruction) (st : VState)
  : outcome VState :=
  match Operation inst with
  | offset =>
      Ret (mkVState (ptr_add (resultAddr st) (IValue inst))
                    (instructionsFailed st) (addrStore st)
                    (to_signed 64 (offsetFromMatch st + IValue inst)))
  | follow => Ret (set_resultAddr st (FollowRelativeAddress m (resultAddr st)))
  | strcmp | wcscmp | cmpi8 | cmpi16 | cmpi32 | cmpi64 =>
      let* ok := compare_ok m inst st in
      Ret (add_failed st ok)
  | pushaddr => Ret (push_addr st)
  | popaddr => pop_addr st
  | advwcard =>
      let* off := Z.iter (IValue inst) (advwcard_set P) (Ret (offsetFromMatch st)) in
      Ret (mkVState (wrap64 (base + i + off)) (instructionsFailed st)
                    (addrStore st) off)
  | NONE => Ret st
  end.

(** The state an attempt starts in: [resultAddr = base + i], nothing failed,
    an empty [addrStore], [offsetFromMatch = 0]. *)
Definition attempt_init (base i : Z) : VState := mkVState (ptr_add base i) 0 [] 0.

(** One verification attempt at the raw match [base + i]. *)
Definition attempt (s : t) (m : Mem) (base i : Z) : outcome VState :=
  run_instructions (exec (Assembly s) m base i) (Instructions s) (attempt_init base i).

(** The three [continue] guards of the region walk. *)
Definition region_skipped (size : Z) (mbi : MEMORY_BASIC_INFORMATION) : bool :=
  (* Sanity check: Page is smaller than bytes to match against. *)
  if size >? RegionSize mbi then true
  (* Skip uncommitted pages. *)
  else if negb (State mbi =? MEM_COMMIT) then true
  (* Skip pages without read permission. *)
  else if negb ((Protect mbi =? PAGE_EXECUTE_READ)
                || (Protect mbi =? PAGE_EXECUTE_READWRITE)) then true
  else false.

(** [while (resultAddr == nullptr)], pattern caching disabled (the default
    build).  The trace lists every candidate compared with the pattern. *)
Fixpoint scan_while (fuel : nat) (s : t) (h : Host) (addr result : Z)
         (trace : list Candidate) : outcome (Z * list Candidate) :=
  match fuel with
  | O => OutOfFuel
  | S fuel' =>
      if result =? nullptr then
        match VirtualQuery h addr with
        | None => Ret (result, trace)  (* virtual query fails: stop scanning *)
        | Some mbi =>
            let addr' := ptr_add addr (RegionSize mbi) in
            if region_skipped (Size (Assembly s)) mbi
            then scan_while fuel' s h addr' result trace
            else
              let base := BaseAddress mbi in
              let end_ := wrap64 (RegionSize mbi - Size (Assembly s)) in
              let* r := candidate_loop (Assembly s) (memory h) (attempt s (memory h))
                                       (Z.to_nat end_) base 0 result [] in
              scan_while fuel' s h addr' (fst r) (trace ++ map (pair base) (snd r))
        end
      else Ret (result, trace)
  end.

(** [PatternScan::Scan]. *)
Definition Scan (fuel : nat) (s : t) (h : Host) : outcome (Z * list Candidate) :=
  if Size (Assembly s) =? 0 then Ret (nullptr, [])
  else scan_while fuel s h 0 nullptr [].

End PatternScan.

(** ** [struct DataScan] of the earlier revision *)

Module DataScan.

Record t : Type := mk {
  Assembly : Pattern;
  Instructions : list Instruction  (* std::vector *)
}.

Definition ctor (aASM : Pattern) (aInstructions : list Instruction) : t :=
  {| Assembly := aASM; Instructions := aInstructions |}.

(** The [switch] of this revision: [follow] adds its operand first, there
    is no [advwcard] and no offset tracking. *)
Definition exec (m : Mem) (inst : Instruction) (st : VState) : outcome VState :=
  match Operation inst with
  | offset => Ret (set_resultAddr st (ptr_add (resultAddr st) (IValue inst)))
  | follow =>
      Ret (set_resultAddr st
             (FollowRelativeAddress m (ptr_add (resultAddr st) (IValue inst))))
  | strcmp | wcscmp | cmpi8 | cmpi16 | cmpi32 | cmpi64 =>
      let* ok := compare_ok m inst st in
      Ret (add_failed st ok)
  | pushaddr => Ret (push_addr st)
  | popaddr => pop_addr st
  | NONE | advwcard => Ret st
  end.

Definition attempt_init (base i : Z) : VState := mkVState (ptr_add base i) 0 [] 0.

Definition attempt (s : t) (m : Mem) (base i : Z) : outcome VState :=
  run_instructions (exec m) (Instructions s) (attempt_init base i).

(** The three [continue] guards; the protection test masks each bit. *)
Definition region_skipped (size : Z) (mbi : MEMORY_BASIC_INFORMATION) : bool :=
  if size >? RegionSize mbi then true
  else if negb (State mbi =? MEM_COMMIT) then true
  else if negb ((Z.land (Protect mbi) PAGE_READONLY =? PAGE_READONLY)
                || (Z.land (Protect mbi) PAGE_READWRITE =? PAGE_READWRITE)
                || (Z.land (Protect mbi) PAGE_EXECUTE_READ =? PAGE_EXECUTE_READ)
                || (Z.land (Protect mbi) PAGE_EXECUTE_READWRITE
                    =? PAGE_EXECUTE_READWRITE)) then true
  else false.

(** [addr >= lpBaseOfDll && addr <= lpBaseOfDll + SizeOfImage]. *)
Definition in_module (h : Host) (addr : Z) : bool :=
  (lpBaseOfDll h <=? addr) && (addr <=? ptr_add (lpBaseOfDll h) (SizeOfImage h)).

Fixpoint scan_while (fuel : nat) (s : t) (h : Host) (addr result : Z)
         (trace : list Candidate) : outcome (Z * list Candidate) :=
  match fuel with
  | O => OutOfFuel
  | S fuel' =>
      if result =? nullptr then
        match VirtualQuery h addr with
        | None => Ret (result, trace)
        | Some mbi =>
            (* address outside of module range: stop scanning *)
            if negb (in_module h addr) then Ret (result, trace)
            else
              let addr' := ptr_add addr (RegionSize mbi) in
              if region_skipped (Size (Assembly s)) mbi
              then scan_while fuel' s h addr' result trace
              else
                let base := BaseAddress mbi in
                let end_ := wrap64 (RegionSize mbi - Size (Assembly s)) in
                let* r := candidate_loop (Assembly s) (memory h) (attempt s (memory h))
                                         (Z.to_nat end_) base 0 result [] in
                scan_while fuel' s h addr' (fst r) (trace ++ map (pair base) (snd r))
        end
      else Ret (result, trace)
  end.

(** [DataScan::Scan]. *)
Definition Scan (fuel : nat) (s : t) (h : Host) : outcome (Z * list Candidate) :=
  if Size (Assembly s) =? 0 then Ret (nullptr, [])
  else scan_while fuel s h (lpBaseOfDll h) nullptr [].

End DataScan.

(** ** [struct Patch] *)

Module Patch.

(** The process a patch acts on: the bytes of memory and, per page, the
    protection of a committed page ([None]: the page is not committed). *)
Record Process : Type := mkProcess {
  bytes : Mem;
  protection : Z -> option Z
}.

Definition PAGE_SIZE : Z := 4096.

(** The pages that hold the bytes [lpAddress .. lpAddress + dwSize - 1]. *)
Definition pages_of (lpAddress dwSize : Z) : list Z :=
  let first := lpAddress / PAGE_SIZE in
  let last := (lpAddress + dwSize - 1) / PAGE_SIZE in
  seqZ first (last - first + 1).

Definition in_pages (lpAddress dwSize page : Z) : bool :=
  (lpAddress / PAGE_SIZE <=? page) && (page <=? (lpAddress + dwSize - 1) / PAGE_SIZE).

(** The host's protection change: it fails, changing nothing, unless every
    page of the range is committed ([committed]); otherwise it sets the new
    protection on those pages and reports the old protection of the first
    one.  The bytes of memory are never touched. *)
Definition committed (p : Process) (lpAddress dwSize : Z) : bool :=
  forallb (fun page => bool_decide (is_Some (protection p page)))
          (pages_of lpAddress dwSize).

Definition VirtualProtect (p : Process) (lpAddress dwSize flNewProtect : Z)
  : option (Z * Process) :=
  if committed p lpAddress dwSize
  then
    Some (default 0 (protection p (lpAddress / PAGE_SIZE)),
          {| bytes := bytes p;
             protection := fun page =>
               if in_pages lpAddress dwSize page then Some flNewProtect
               else protection p page |})
  else None.

(** The [n] bytes at [a]. *)
Definition read_bytes (m : Mem) (a n : Z) : list Z :=
  map (fun k => m (a + k)) (seqZ 0 n).

(** [memcpy(dst, src, n)] into memory from a buffer holding [src]. *)
Definition memcpy_to (m : Mem) (dst : Z) (src : list Z) (n : Z) : Mem :=
  fun x =>
    if (dst <=? x) && (x <? dst + n) then default 0 (src !! Z.to_nat (x - dst))
    else m x.

(** [strlen]: the number of bytes before the first zero byte.  The list
    is the caller's array; the terminating NUL follows it. *)
Fixpoint strlen (s : list Z) : Z :=
  match s with
  | [] => 0
  | c :: s' => if c =? 0 then 0 else 1 + strlen s'
  end.

Record t : Type := mk {
  Target : Z;
  OriginalBytes : option (list Z);  (* None: nullptr *)
  Size : Z
}.

(** [Patch::Patch(void* aTarget, const char* aBytes)], with [aBytes = None]
    for a null pointer.  Returns the object and the process it leaves. *)
Definition ctor (p : Process) (aTarget : Z) (aBytes : option (list Z))
  : result (t * Process) :=
  if aTarget =? nullptr then Throw "Target is nullptr."
  else
    match aBytes with
    | None => Throw "Patch Bytes are nullptr."
    | Some data =>
        let size := strlen data in
        if size =? 0 then Throw "Patch Bytes are size 0."
        else
          match VirtualProtect p aTarget size PAGE_EXECUTE_READWRITE with
          | Some (oldProtect, p1) =>
              (* Copy the original bytes. *)
              let original := read_bytes (bytes p1) aTarget size in
              (* Write the new bytes. *)
              let p2 := {| bytes := memcpy_to (bytes p1) aTarget data size;
                           protection := protection p1 |} in
              (* Restore page protection. *)
              let p3 := match VirtualProtect p2 aTarget size oldProtect with
                        | Some (_, p') => p'
                        | None => p2
                        end in
              Ok ({| Target := aTarget; OriginalBytes := Some original; Size := size |}, p3)
          | None =>
              Ok ({| Target := aTarget; OriginalBytes := None; Size := size |}, p)
          end
    end.

(** [Patch::~Patch()], run in process state [p].  Freeing the buffer has no
    effect on the bytes of memory and is left out. *)
Definition dtor (this : t) (p : Process) : outcome Process :=
  match VirtualProtect p (Target this) (Size this) PAGE_EXECUTE_READWRITE with
  | Some (oldProtect, p1) =>
      match OriginalBytes this with
      | None => Undefined  (* memcpy from a null pointer *)
      | Some original =>
          (* Restore original bytes. *)
          let p2 := {| bytes := memcpy_to (bytes p1) (Target this) original (Size this);
                       protection := protection p1 |} in
          (* Restore page protection. *)
          Ret (match VirtualProtect p2 (Target this) (Size this) oldProtect with
               | Some (_, p') => p'
               | None => p2
               end)
      end
  | None => Ret p
  end.

End Patch.

(** ** Notions used in the statements *)

(** The value of a hex digit character. *)
Definition hexval (c : Z) : Z :=
  if is_digit c then c - CHAR_0 else c - CHAR_A + HEXVAL_A.

Definition is_hex (c : Z) : bool := is_digit c || is_upper_hex c.

(** The characters the compiler accepts at the head of an iteration. *)
Definition accepted_char (c : Z) : bool :=
  (c =? CHAR_SPACE) || (c =? CHAR_LT) || (c =? CHAR_GT) || (c =? CHAR_QMARK) || is_hex c.

(** The state of the compiler between two iterations: [Size] within the
    capacity, the write index equal to [Size], the array at full length. *)
Definition loop_inv (this : Pattern) (j : Z) : Prop :=
  0 <= Size this <= MAX_PATTERN_LENGTH
  /\ j = Size this
  /\ length (Bytes this) = Z.to_nat MAX_PATTERN_LENGTH.

(** One iteration of the compiler loop, as the loop takes it: it either
    stops with a result or goes on with a suffix and a new state. *)
Inductive iteration : Type :=
| Stop (r : result Pattern)
| Next (s : list Z) (this : Pattern) (j : Z).

Definition Pattern_step (c : Z) (rest : list Z) (this : Pattern) (j : Z) : iteration :=
  if MAX_PATTERN_LENGTH <=? Size this then Stop (Ok this)
  else if c =? CHAR_SPACE then Next rest this j
  else if c =? CHAR_LT then Next rest this j
  else if c =? CHAR_GT then Next rest this j
  else if c =? CHAR_QMARK then
    Next (if has_next rest && (peek rest =? CHAR_QMARK) then tail rest else rest)
         (put_byte this j (mkByte true 0)) (wrap64 (j + 1))
  else if is_hex c then
    if (has_next rest && is_digit (peek rest)) || is_upper_hex (peek rest) then
      Next (tail rest)
           (put_byte this j
              (mkByte false (u8 (u8 (0 + hex_part c HEXPOW_2) + hex_part (peek rest) HEXPOW_1))))
           (wrap64 (j + 1))
    else
      Next rest (put_byte this j (mkByte false (u8 (0 + hex_part c HEXPOW_1)))) (wrap64 (j + 1))
  else Stop (Throw "Invalid hexadecimal.").

Definition resume (it : iteration) : result Pattern :=
  match it with
  | Stop r => r
  | Next s this j => Pattern_loop s this j
  end.


(** [n] iterations of the compiler loop from a given state: the state
    reached, or the result of an iteration that stopped earlier. *)
Fixpoint iterate (n : nat) (s : list Z) (this : Pattern) (j : Z) : iteration :=
  match n with
  | O => Next s this j
  | S n' =>
      match s with
      | [] => Stop (Ok this)
      | c :: rest =>
          match Pattern_step c rest this j with
          | Stop r => Stop r
          | Next s' this' j' => iterate n' s' this' j'
          end
      end
  end.

(** A text of [n] question marks followed by [tl]. *)
Fixpoint qmarks (n : nat) (tl : string) : string :=
  match n with
  | O => tl
  | S n' => String "?" (qmarks n' tl)
  end.

(** ** Process images for the examples *)

Definition MEM_FREE : Z := 0x10000.

(** Memory holding [data] at [base] and zero elsewhere. *)
Definition image_memory (base : Z) (data : list Z) : Mem :=
  fun a =>
    if (base <=? a) && (a <? base + Z.of_nat (length data))
    then default 0 (data !! Z.to_nat (a - base))
    else 0.

(** A process whose address space is free below [base], holds one committed
    region of bytes [data] with protection [prot] at [base], and ends there;
    the executable's image is that region. *)
Definition one_region_host (base prot : Z) (data : list Z) : Host :=
  {| VirtualQuery := fun addr =>
       if addr <? base then Some (mkMBI 0 base MEM_FREE PAGE_NOACCESS)
       else if addr <? base + Z.of_nat (length data)
            then Some (mkMBI base (Z.of_nat (length data)) MEM_COMMIT prot)
            else None;
     memory := image_memory base data;
     lpBaseOfDll := base;
     SizeOfImage := Z.of_nat (length data) |}.

(** The pattern of a text known to compile. *)
Definition pattern_of (aPattern : string) : Pattern :=
  match Pattern_of aPattern with
  | Ok p => p
  | Throw _ => Pattern_empty
  end.

(** A process with one committed page, the one at [0x1000], holding [data]
    at its start. *)
Definition one_page_process (data : list Z) : Patch.Process :=
  {| Patch.bytes := image_memory 0x1000 data;
     Patch.protection := fun page => if page =? 1 then Some PAGE_EXECUTE_READ else None |}.


(** ** Further notions: compiled patterns *)

(** A cell the compiler writes: a wildcard (with [Value] left 0) or a
    concrete byte value. *)
Definition token_ok (b : Byte) : Prop :=
  0 <= Value b <= 255 /\ (IsWildcard b = true -> Value b = 0).

(** The shape of every pattern the compiler returns: [Size] tokens at the
    front of the array, value-initialised cells behind them. *)
Definition compiled (p : Pattern) : Prop :=
  0 <= Size p <= MAX_PATTERN_LENGTH
  /\ length (Bytes p) = Z.to_nat MAX_PATTERN_LENGTH
  /\ Forall token_ok (tokens p)
  /\ Bytes p = tokens p
               ++ replicate (Z.to_nat MAX_PATTERN_LENGTH - Z.to_nat (Size p))
                            (mkByte false 0).

(** The object representation [memcmp] compares: two bytes per array cell
    ([bool IsWildcard], [uint8_t Value]), then the eight bytes of [Size]. *)
Definition Byte_repr (b : Byte) : list Z :=
  [if IsWildcard b then 1 else 0; u8 (Value b)].

Definition le_bytes (n : Z) (x : Z) : list Z :=
  map (fun k => (x / 256 ^ k) mod 256) (seqZ 0 n).

Definition Pattern_repr (p : Pattern) : list Z :=
  concat (map Byte_repr (Bytes p)) ++ le_bytes 8 (wrap64 (Size p)).

(** [operator==(const Pattern&, const Pattern&)]:
    [memcmp(&lhs, &rhs, sizeof(Pattern)) == 0]. *)
Definition Pattern_eq_Pattern (lhs rhs : Pattern) : bool :=
  bool_decide (Pattern_repr lhs = Pattern_repr rhs).

(** [operator!=(const Pattern&, const Pattern&)]. *)
Definition Pattern_ne_Pattern (lhs rhs : Pattern) : bool :=
  negb (Pattern_eq_Pattern lhs rhs).

(** [k] wildcard tokens written from index [j] on. *)
Fixpoint put_wildcards (k : nat) (this : Pattern) (j : Z) : Pattern :=
  match k with
  | O => this
  | S k' => put_wildcards k' (put_byte this j (mkByte true 0)) (j + 1)
  end.

(** Whether the token at index [k] of a pattern is a wildcard. *)
Definition isW (p : Pattern) (k : Z) : bool := IsWildcard (byte_at p k).

(** Index [k] starts a run of wildcards: a wildcard right after a concrete
    token. *)
Definition run_start (p : Pattern) (k : Z) : Prop :=
  isW p k = true /\ isW p (k - 1) = false.

(** ** [Instruction::operator=] *)

(** [this = aOther]; [same] says that [aOther] is the object assigned to
    ([this == &aOther]).  The operation is copied together with the one
    payload it reads; the other fields are reset. *)
Definition Instruction_assign (this aOther : Instruction) (same : bool) : Instruction :=
  if same then this
  else
    match Operation aOther with
    | strcmp => mkInstruction strcmp 0 (IString aOther) None
    | wcscmp => mkInstruction wcscmp 0 None (IWString aOther)
    | op => mkInstruction op (IValue aOther) None None
    end.

(** The instructions the helper functions of the header build. *)
Inductive helper_built : Instruction -> Prop :=
| built_Offset v : helper_built (Offset v)
| built_Follow : helper_built Follow
| built_Strcmp s : helper_built (Strcmp s)
| built_Wcscmp s : helper_built (Wcscmp s)
| built_CmpI8 v : helper_built (CmpI8 v)
| built_CmpI16 v : helper_built (CmpI16 v)
| built_CmpI32 v : helper_built (CmpI32 v)
| built_CmpI64 v : helper_built (CmpI64 v)
| built_PushAddr : helper_built PushAddr
| built_PopAddr : helper_built PopAddr
| built_AdvWcard n : helper_built (AdvWcard n)
| built_default : helper_built Instruction_default.

(** ** Notions for the scan *)

(** The pattern matches at offset [j] of the region at [base] and the
    attempt there ends with no failure. *)
Definition verified_at (Assembly : Pattern) (m : Mem)
           (attempt : Z -> Z -> outcome VState) (base j : Z) : Prop :=
  Pattern_eq Assembly (deref m (ptr_add base j)) = true
  /\ exists st, attempt base j = Ret st /\ instructionsFailed st = 0.

(** The candidate at offset [j] is given up: the pattern does not match
    there, or the attempt there ends with a failure counted. *)
Definition rejected_at (Assembly : Pattern) (m : Mem)
           (attempt : Z -> Z -> outcome VState) (base j : Z) : Prop :=
  Pattern_eq Assembly (deref m (ptr_add base j)) = false
  \/ exists st, attempt base j = Ret st /\ instructionsFailed st <> 0.

(** ** [struct FallbackScan] *)

Module FallbackScan.

Record t : Type := mk { Scans : list PatternScan.t }.

(** The constructor copies the scans in order. *)
Definition ctor (aScans : list PatternScan.t) : t := {| Scans := aScans |}.

(** The [for] loop of [FallbackScan::Scan]: each scan in turn, the first
    result that is not null is returned. *)
Fixpoint scan_each (fuel : nat) (scans : list PatternScan.t) (h : Host) : outcome Z :=
  match scans with
  | [] => Ret nullptr
  | scan :: rest =>
      let* r := PatternScan.Scan fuel scan h in
      if negb (fst r =? nullptr) then Ret (fst r)
      else scan_each fuel rest h
  end.

(** [FallbackScan::Scan]. *)
Definition Scan (fuel : nat) (this : t) (h : Host) : outcome Z :=
  scan_each fuel (Scans this) h.

End FallbackScan.

(** ** [FollowJmpChain] (the [_WIN64] branch) *)

(** [while (true)] with [fuel] rounds left. *)
Fixpoint FollowJmpChain (fuel : nat) (m : Mem) (aPointer : Z) : outcome Z :=
  match fuel with
  | O => OutOfFuel
  | S fuel' =>
      if deref m aPointer 0 =? 0xEB then
        (* short jmp: relative to after the two-byte instruction *)
        FollowJmpChain fuel' m
          (ptr_add aPointer (2 + read_int 8 m (ptr_add aPointer 1)))
      else if deref m aPointer 0 =? 0xE9 then
        (* near jmp *)
        FollowJmpChain fuel' m
          (ptr_add aPointer (5 + read_int 32 m (ptr_add aPointer 1)))
      else if (deref m aPointer 0 =? 0xFF) && (deref m aPointer 1 =? 0x25) then
        (* far jmp: the slot after the instruction holds the target *)
        let slot := ptr_add aPointer (6 + read_int 32 m (ptr_add aPointer 2)) in
        FollowJmpChain fuel' m (read_le m slot 8)
      else Ret aPointer
  end.

(** The bytes at [p] encode one of the three jumps the chain follows. *)
Definition is_jmp (m : Mem) (p : Z) : bool :=
  (deref m p 0 =? 0xEB) || (deref m p 0 =? 0xE9)
  || ((deref m p 0 =? 0xFF) && (deref m p 1 =? 0x25)).
(** * Properties *)

Lemma wrap64_small x : 0 <= x < 2 ^ 64 -> wrap64 x = x.
Proof. intros H. unfold wrap64. apply Z.mod_small. exact H. Qed.

Lemma u8_small x : 0 <= x < 256 -> u8 x = x.
Proof. intros H. unfold u8. apply Z.mod_small. simpl. lia. Qed.

(** ** Pattern compiler *)

Lemma Pattern_loop_step c rest this j :
  Pattern_loop (c :: rest) this j = resume (Pattern_step c rest this j).
Proof.
  unfold Pattern_step, is_hex. cbn [Pattern_loop].
  repeat (match goal with |- context [if ?b then _ else _] => destruct b eqn:? end;
          cbn [resume]; try reflexivity).
  all: destruct rest as [|c' rest']; cbn [has_next peek tail andb] in *;
    try reflexivity; try discriminate.
  all: try (match goal with H : (?a =? ?b) = _ |- context [?a =? ?b] => rewrite H end; reflexivity).
Qed.

Lemma Size_put_byte this j b :
  0 <= Size this < MAX_PATTERN_LENGTH -> Size (put_byte this j b) = Size this + 1.
Proof.
  intros H. unfold put_byte; cbn [Size]. apply wrap64_small.
  unfold MAX_PATTERN_LENGTH in H. lia.
Qed.

Lemma put_byte_inv this j b :
  loop_inv this j -> Size this < MAX_PATTERN_LENGTH ->
  loop_inv (put_byte this j b) (wrap64 (j + 1)).
Proof.
  intros (Hs & Hj & Hl) Hlt. unfold loop_inv.
  rewrite Size_put_byte by lia. subst j.
  rewrite wrap64_small by (unfold MAX_PATTERN_LENGTH in *; lia).
  repeat split; try lia.
  unfold put_byte; cbn [Bytes]. rewrite length_insert. exact Hl.
Qed.

Lemma tokens_put_byte this j b :
  loop_inv this j -> Size this < MAX_PATTERN_LENGTH ->
  tokens (put_byte this j b) = tokens this ++ [b].
Proof.
  intros (Hs & Hj & Hl) Hlt. unfold tokens.
  rewrite Size_put_byte by lia. subst j.
  unfold put_byte; cbn [Bytes].
  replace (Z.to_nat (Size this + 1)) with (S (Z.to_nat (Size this))) by lia.
  assert (Hin : (Z.to_nat (Size this) < length (Bytes this))%nat) by lia.
  destruct (lookup_lt_is_Some_2 (Bytes this) _ Hin) as [x Hx].
  erewrite take_S_r.
  2:{ apply list_lookup_insert_eq. exact Hin. }
  rewrite take_insert_ge by lia. reflexivity.
Qed.

(** What an iteration that goes on has done. *)
Lemma Pattern_step_Next c rest this j s' this' j' :
  Pattern_step c rest this j = Next s' this' j' ->
  Size this < MAX_PATTERN_LENGTH
  /\ accepted_char c = true
  /\ (s' = rest \/ exists c', rest = c' :: s' /\ accepted_char c' = true)
  /\ ((this' = this /\ j' = j)
      \/ exists b, this' = put_byte this j b /\ j' = wrap64 (j + 1)).
Proof.
  unfold Pattern_step, accepted_char, is_hex.
  destruct (Z.leb_spec MAX_PATTERN_LENGTH (Size this)); [discriminate|].
  destruct (c =? CHAR_SPACE) eqn:E1.
  { intros [= <- <- <-]. auto 10. }
  destruct (c =? CHAR_LT) eqn:E2.
  { intros [= <- <- <-]. auto 10. }
  destruct (c =? CHAR_GT) eqn:E3.
  { intros [= <- <- <-]. auto 10. }
  destruct (c =? CHAR_QMARK) eqn:E4.
  { intros [= <- <- <-]. repeat split; [lia| |eauto].
    destruct rest as [|c' r]; cbn; [auto|].
    destruct (c' =? CHAR_QMARK) eqn:E5; [|auto].
    right. exists c'. rewrite E5. split; [reflexivity|]. cbn.
    rewrite !orb_true_r. reflexivity. }
  destruct (is_digit c || is_upper_hex c) eqn:E5; [|discriminate].
  destruct ((has_next rest && is_digit (peek rest)) || is_upper_hex (peek rest)) eqn:E6.
  - intros [= <- <- <-]. repeat split; [lia| |eauto].
    destruct rest as [|c' r]; cbn in *; [auto|].
    right. exists c'. split; [reflexivity|]. rewrite E6. apply orb_true_r.
  - intros [= <- <- <-]. repeat split; [lia|auto|eauto].
Qed.

Lemma Pattern_step_inv c rest this j s' this' j' :
  loop_inv this j ->
  Pattern_step c rest this j = Next s' this' j' ->
  loop_inv this' j' /\ (length s' <= length rest)%nat.
Proof.
  intros Hinv Hstep.
  destruct (Pattern_step_Next _ _ _ _ _ _ _ Hstep) as (Hlt & _ & Hs & Ht).
  split.
  - destruct Ht as [[-> ->]|(b & -> & ->)]; [exact Hinv|].
    apply put_byte_inv; assumption.
  - destruct Hs as [->|(c' & -> & _)]; cbn; lia.
Qed.

(** Induction on the unread suffix, by its length. *)
Lemma suffix_ind (P : list Z -> Prop) :
  (forall s, (forall s', (length s' < length s)%nat -> P s') -> P s) ->
  forall s, P s.
Proof.
  intros IH s. remember (length s) as n eqn:Hn.
  revert s Hn. induction n as [n IHn] using lt_wf_ind.
  intros s ->. apply IH. intros s' Hlt. exact (IHn _ Hlt s' eq_refl).
Qed.

Lemma Pattern_loop_inv s : forall this j p,
  loop_inv this j -> Pattern_loop s this j = Ok p -> loop_inv p (Size p).
Proof.
  induction s as [s IH] using suffix_ind. intros this j p Hinv.
  destruct s as [|c rest].
  - cbn. intros [= <-]. destruct Hinv as (? & ? & ?). repeat split; assumption || lia.
  - rewrite Pattern_loop_step.
    destruct (Pattern_step c rest this j) as [r|s' this' j'] eqn:Hstep; cbn [resume].
    + unfold Pattern_step in Hstep.
      repeat match type of Hstep with
             | (if ?b then _ else _) = _ => destruct b
             end; try discriminate; injection Hstep as <-.
      * intros [= <-]. destruct Hinv as (? & ? & ?). repeat split; assumption || lia.
      * discriminate.
    + destruct (Pattern_step_inv _ _ _ _ _ _ _ Hinv Hstep) as [Hinv' Hlen].
      apply IH; [cbn; lia | exact Hinv'].
Qed.

Lemma Pattern_empty_inv : loop_inv Pattern_empty 0.
Proof.
  unfold loop_inv, Pattern_empty; cbn [Size Bytes].
  rewrite length_replicate. unfold MAX_PATTERN_LENGTH. lia.
Qed.

(** Past the capacity the loop returns at once, whatever is left to read. *)
Lemma Pattern_loop_full s this j :
  MAX_PATTERN_LENGTH <= Size this -> Pattern_loop s this j = Ok this.
Proof.
  intros H. destruct s as [|c rest]; [reflexivity|].
  cbn [Pattern_loop]. destruct (Z.leb_spec MAX_PATTERN_LENGTH (Size this)); [reflexivity|lia].
Qed.

(** A compilation that ends below the capacity has read accepted characters only. *)
Lemma Pattern_loop_accepted s : forall this j p,
  Pattern_loop s this j = Ok p -> Size p < MAX_PATTERN_LENGTH ->
  Forall (fun c => accepted_char c = true) s.
Proof.
  induction s as [s IH] using suffix_ind. intros this j p.
  destruct s as [|c rest]; [constructor|].
  rewrite Pattern_loop_step.
  destruct (Pattern_step c rest this j) as [r|s' this' j'] eqn:Hstep; cbn [resume].
  - unfold Pattern_step in Hstep.
    repeat match type of Hstep with
           | (if ?b then _ else _) = _ => destruct b eqn:?
           end; try discriminate; injection Hstep as <-.
    + intros [= <-] Hlt. lia.
    + discriminate.
  - intros Hp Hlt.
    destruct (Pattern_step_Next _ _ _ _ _ _ _ Hstep) as (_ & Hc & Hs & _).
    destruct Hs as [->|(c' & -> & Hc')].
    + constructor; [exact Hc|]. eapply IH; [cbn; lia|exact Hp|exact Hlt].
    + constructor; [exact Hc|]. constructor; [exact Hc'|].
      eapply IH; [cbn; lia|exact Hp|exact Hlt].
Qed.

Lemma Pattern_loop_Throw s : forall this j msg,
  Pattern_loop s this j = Throw msg -> msg = "Invalid hexadecimal."%string.
Proof.
  induction s as [s IH] using suffix_ind. intros this j msg.
  destruct s as [|c rest]; [discriminate|].
  rewrite Pattern_loop_step.
  destruct (Pattern_step c rest this j) as [r|s' this' j'] eqn:Hstep; cbn [resume].
  - unfold Pattern_step in Hstep.
    repeat match type of Hstep with
           | (if ?b then _ else _) = _ => destruct b eqn:?
           end; try discriminate; injection Hstep as <-.
    + discriminate.
    + intros [= <-]. reflexivity.
  - destruct (Pattern_step_Next _ _ _ _ _ _ _ Hstep) as (_ & _ & Hs & _).
    destruct Hs as [->|(c' & -> & _)]; apply IH; cbn; lia.
Qed.

Lemma iterate_resume n : forall s this j,
  resume (iterate n s this j) = Pattern_loop s this j.
Proof.
  induction n as [|n IH]; intros s this j; [reflexivity|].
  destruct s as [|c rest]; [reflexivity|].
  rewrite Pattern_loop_step. cbn [iterate].
  destruct (Pattern_step c rest this j) as [r|s' this' j']; cbn [resume]; [reflexivity|].
  apply IH.
Qed.

Lemma is_hex_range c : is_hex c = true -> 0 <= hexval c <= 15.
Proof.
  unfold is_hex, hexval, is_digit, is_upper_hex, CHAR_0, CHAR_9, CHAR_A, CHAR_F, HEXVAL_A.
  intros H.
  destruct (Z.leb_spec 48 c), (Z.leb_spec c 57), (Z.leb_spec 65 c), (Z.leb_spec c 70);
    cbn in *; try discriminate; lia.
Qed.

Lemma hex_part_hexval c pow : is_hex c = true -> hex_part c pow = hexval c * pow.
Proof.
  unfold is_hex, hex_part, hexval, is_digit, is_upper_hex, CHAR_0, CHAR_9, CHAR_A, CHAR_F,
    HEXVAL_A.
  intros H.
  destruct (Z.leb_spec 48 c), (Z.leb_spec c 57), (Z.leb_spec 65 c), (Z.leb_spec c 70);
    cbn in *; try discriminate; try reflexivity; lia.
Qed.

Lemma next_is_hex rest :
  (has_next rest && is_digit (peek rest)) || is_upper_hex (peek rest) = is_hex (peek rest).
Proof.
  destruct rest as [|c r]; cbn; [|reflexivity].
  unfold is_hex. reflexivity.
Qed.

Lemma is_hex_not_special h :
  is_hex h = true ->
  (h =? CHAR_SPACE) = false /\ (h =? CHAR_LT) = false
  /\ (h =? CHAR_GT) = false /\ (h =? CHAR_QMARK) = false.
Proof.
  unfold is_hex, is_digit, is_upper_hex, CHAR_0, CHAR_9, CHAR_A, CHAR_F,
    CHAR_SPACE, CHAR_LT, CHAR_GT, CHAR_QMARK. intros Hh.
  destruct (Z.leb_spec 48 h), (Z.leb_spec h 57), (Z.leb_spec 65 h), (Z.leb_spec h 70);
    cbn in Hh; try discriminate; repeat split; apply Z.eqb_neq; lia.
Qed.

Lemma Pattern_step_pair h l rest this j :
  loop_inv this j -> Size this < MAX_PATTERN_LENGTH ->
  is_hex h = true -> is_hex l = true ->
  Pattern_step h (l :: rest) this j
  = Next rest (put_byte this j (mkByte false (hexval h * 16 + hexval l))) (j + 1).
Proof.
  intros (Hs & Hj & Hl) Hlt Hh Hlo. unfold Pattern_step.
  destruct (Z.leb_spec MAX_PATTERN_LENGTH (Size this)); [lia|].
  destruct (is_hex_not_special _ Hh) as (-> & -> & -> & ->). rewrite Hh.
  rewrite next_is_hex. cbn [peek tail]. rewrite Hlo.
  rewrite !hex_part_hexval by assumption.
  pose proof (is_hex_range _ Hh). pose proof (is_hex_range _ Hlo).
  unfold HEXPOW_1, HEXPOW_2.
  rewrite (u8_small (0 + _)) by lia. rewrite u8_small by lia.
  rewrite wrap64_small by (unfold MAX_PATTERN_LENGTH in *; lia).
  do 3 f_equal. lia.
Qed.

Lemma Pattern_step_lone h rest this j :
  loop_inv this j -> Size this < MAX_PATTERN_LENGTH ->
  is_hex h = true -> is_hex (peek rest) = false ->
  Pattern_step h rest this j
  = Next rest (put_byte this j (mkByte false (hexval h))) (j + 1).
Proof.
  intros (Hs & Hj & Hl) Hlt Hh Hlo. unfold Pattern_step.
  destruct (Z.leb_spec MAX_PATTERN_LENGTH (Size this)); [lia|].
  destruct (is_hex_not_special _ Hh) as (-> & -> & -> & ->). rewrite Hh.
  rewrite next_is_hex, Hlo.
  rewrite hex_part_hexval by assumption.
  pose proof (is_hex_range _ Hh).
  unfold HEXPOW_1.
  rewrite u8_small by lia.
  rewrite wrap64_small by (unfold MAX_PATTERN_LENGTH in *; lia).
  do 3 f_equal. lia.
Qed.

(** C6: while the capacity is not reached, two adjacent uppercase hex digits
    [h l] compile to one concrete byte of value [high * 16 + low], appended to
    the tokens; a hex digit not followed by another hex digit (another
    character, or the end of the text) compiles to one concrete byte whose
    value is the digit itself; in neither case does the digit raise an
    error: compilation goes on with the rest of the text, and a lone digit
    that ends the text yields a pattern. *)
Theorem hex_pair_and_lone_digit (this : Pattern) (j h : Z) (rest : list Z) :
  loop_inv this j -> Size this < MAX_PATTERN_LENGTH -> is_hex h = true ->
  (forall l, is_hex l = true ->
     let this' := put_byte this j (mkByte false (hexval h * 16 + hexval l)) in
     Pattern_loop (h :: l :: rest) this j = Pattern_loop rest this' (j + 1)
     /\ tokens this' = tokens this ++ [mkByte false (hexval h * 16 + hexval l)])
  /\ (is_hex (peek rest) = false ->
      let this' := put_byte this j (mkByte false (hexval h)) in
      Pattern_loop (h :: rest) this j = Pattern_loop rest this' (j + 1)
      /\ tokens this' = tokens this ++ [mkByte false (hexval h)])
  /\ Pattern_loop [h] this j = Ok (put_byte this j (mkByte false (hexval h)))
  /\ 0 <= hexval h <= 15.
Proof.
  intros Hinv Hlt Hh. repeat split.
  - rewrite Pattern_loop_step, Pattern_step_pair by assumption. reflexivity.
  - apply tokens_put_byte; assumption.
  - rewrite Pattern_loop_step, Pattern_step_lone by assumption. reflexivity.
  - apply tokens_put_byte; assumption.
  - rewrite Pattern_loop_step, Pattern_step_lone by (assumption || reflexivity).
    reflexivity.
  - apply is_hex_range; assumption.
  - apply is_hex_range; assumption.
Qed.

Lemma hex_pair_and_lone_digit_witness :
  loop_inv Pattern_empty 0 /\ Size Pattern_empty < MAX_PATTERN_LENGTH
  /\ is_hex 0x34 = true
  /\ Pattern_loop [0x34; 0x42] Pattern_empty 0
     = Pattern_loop [] (put_byte Pattern_empty 0 (mkByte false 0x4B)) 1
  /\ Pattern_loop [0x34] Pattern_empty 0
     = Ok (put_byte Pattern_empty 0 (mkByte false 4)).
Proof.
  split; [exact Pattern_empty_inv|].
  split; [reflexivity|]. split; [reflexivity|].
  pose proof (hex_pair_and_lone_digit Pattern_empty 0 0x34 []
                Pattern_empty_inv eq_refl eq_refl) as (Hpair & _ & Hlone & _).
  split; [exact (proj1 (Hpair 0x42 eq_refl)) | exact Hlone].
Defined.

(** The README's example of a trailing single digit. *)
Example lone_digit_README :
  option_map tokens (match Pattern_of "1A2B3C4" with Ok p => Some p | Throw _ => None end)
  = Some [mkByte false 0x1A; mkByte false 0x2B; mkByte false 0x3C; mkByte false 0x04].
Proof. vm_compute. reflexivity. Qed.

(** C8: every pattern text that compiles yields [Size <= MAX_PATTERN_LENGTH];
    and as soon as an iteration of the compiler starts with [Size] at the
    capacity, compilation returns the pattern built so far: the characters
    still unread, whatever they are, raise no error and add no token. *)
Theorem Pattern_size_capped (aPattern : string) :
  (forall p, Pattern_of aPattern = Ok p -> 0 <= Size p <= MAX_PATTERN_LENGTH)
  /\ (forall n unread this j,
        iterate n (c_str aPattern) Pattern_empty 0 = Next unread this j ->
        MAX_PATTERN_LENGTH <= Size this ->
        Pattern_of aPattern = Ok this /\ Size this = MAX_PATTERN_LENGTH).
Proof.
  split.
  - intros p Hp. exact (proj1 (Pattern_loop_inv _ _ _ _ Pattern_empty_inv Hp)).
  - intros n unread this j Hit Hfull.
    assert (Hok : Pattern_of aPattern = Ok this).
    { unfold Pattern_of. rewrite <- (iterate_resume n), Hit. cbn [resume].
      apply Pattern_loop_full; assumption. }
    split; [exact Hok|].
    pose proof (proj1 (Pattern_loop_inv _ _ _ _ Pattern_empty_inv Hok)). lia.
Qed.

Lemma Pattern_size_capped_witness :
  (exists p, Pattern_of "1A 2B ?? 4D" = Ok p /\ 0 <= Size p <= MAX_PATTERN_LENGTH)
  /\ (exists this,
        iterate 128 (c_str (qmarks 256 "zz 1A")) Pattern_empty 0
        = Next (c_str "zz 1A") this 128
        /\ MAX_PATTERN_LENGTH <= Size this
        /\ Pattern_of (qmarks 256 "zz 1A") = Ok this).
Proof.
  split.
  - eexists. split; [vm_compute; reflexivity|].
    eapply (proj1 (Pattern_size_capped "1A 2B ?? 4D")). vm_compute. reflexivity.
  - eexists. split; [vm_compute; reflexivity|].
    split; [vm_compute; discriminate|].
    refine (proj1 (proj2 (Pattern_size_capped _) 128%nat (c_str "zz 1A") _ 128 _ _));
      [vm_compute; reflexivity | vm_compute; discriminate].
Defined.

(** C7, as the code has it: while the capacity is not reached, the space
    character and ['<'] and ['>'] are skipped; ['?'] and ['??'] each compile
    to one wildcard token; one or two uppercase hex digits compile to one
    concrete byte token; every other character, lowercase hex digits and
    whitespace other than the space included, throws and no pattern is
    built.  Hence a text that holds such a character either throws or
    compiles to a pattern filled to the capacity (the character was never
    read). *)
Theorem Pattern_grammar (this : Pattern) (j : Z) :
  loop_inv this j -> Size this < MAX_PATTERN_LENGTH ->
  (forall c rest, c = CHAR_SPACE \/ c = CHAR_LT \/ c = CHAR_GT ->
     Pattern_loop (c :: rest) this j = Pattern_loop rest this j)
  /\ (forall rest, peek rest <> CHAR_QMARK ->
        Pattern_loop (CHAR_QMARK :: rest) this j
        = Pattern_loop rest (put_byte this j (mkByte true 0)) (j + 1))
  /\ (forall rest,
        Pattern_loop (CHAR_QMARK :: CHAR_QMARK :: rest) this j
        = Pattern_loop rest (put_byte this j (mkByte true 0)) (j + 1))
  /\ (forall h l rest, is_hex h = true -> is_hex l = true ->
        Pattern_loop (h :: l :: rest) this j
        = Pattern_loop rest (put_byte this j (mkByte false (hexval h * 16 + hexval l))) (j + 1))
  /\ (forall h rest, is_hex h = true -> is_hex (peek rest) = false ->
        Pattern_loop (h :: rest) this j
        = Pattern_loop rest (put_byte this j (mkByte false (hexval h))) (j + 1))
  /\ (forall c rest, accepted_char c = false ->
        Pattern_loop (c :: rest) this j = Throw "Invalid hexadecimal.")
  /\ (forall c, 0x61 <= c <= 0x66 \/ 0x09 <= c <= 0x0D -> accepted_char c = false)
  /\ (forall aPattern,
        Exists (fun c => accepted_char c = false) (c_str aPattern) ->
        Pattern_of aPattern = Throw "Invalid hexadecimal."
        \/ exists p, Pattern_of aPattern = Ok p /\ Size p = MAX_PATTERN_LENGTH).
Proof.
  intros Hinv Hlt.
  assert (Hcap : (MAX_PATTERN_LENGTH <=? Size this) = false) by (apply Z.leb_gt; exact Hlt).
  assert (Hj : wrap64 (j + 1) = j + 1).
  { destruct Hinv as (? & -> & _). apply wrap64_small.
    unfold MAX_PATTERN_LENGTH in *. lia. }
  split; [|split; [|split; [|split; [|split; [|split; [|split]]]]]].
  - intros c rest Hc. cbn [Pattern_loop]. rewrite Hcap.
    destruct Hc as [-> | [-> | ->]]; reflexivity.
  - intros rest Hn. rewrite Pattern_loop_step. unfold Pattern_step.
    rewrite Hcap, Hj. cbn.
    apply Z.eqb_neq in Hn. rewrite Hn, andb_false_r. reflexivity.
  - intros rest. rewrite Pattern_loop_step. unfold Pattern_step.
    rewrite Hcap, Hj. reflexivity.
  - intros h l rest Hh Hl.
    rewrite Pattern_loop_step, Pattern_step_pair by assumption. reflexivity.
  - intros h rest Hh Hn.
    rewrite Pattern_loop_step, Pattern_step_lone by assumption. reflexivity.
  - intros c rest Hc. unfold accepted_char, is_hex in Hc.
    repeat (apply orb_false_elim in Hc; destruct Hc as [Hc ?]).
    cbn [Pattern_loop]. rewrite Hcap.
    repeat match goal with H : _ = false |- _ => rewrite H; clear H end.
    reflexivity.
  - intros c Hc.
    unfold accepted_char, is_hex, is_digit, is_upper_hex, CHAR_0, CHAR_9, CHAR_A, CHAR_F,
      CHAR_SPACE, CHAR_LT, CHAR_GT, CHAR_QMARK.
    repeat (apply orb_false_intro); try (apply Z.eqb_neq; lia);
      apply andb_false_iff; rewrite !Z.leb_gt; lia.
  - intros aPattern Hex.
    destruct (Pattern_of aPattern) as [p|msg] eqn:Hp.
    + right. exists p. split; [reflexivity|].
      pose proof (proj1 (Pattern_loop_inv _ _ _ _ Pattern_empty_inv Hp)) as Hsz.
      destruct (Z.lt_ge_cases (Size p) MAX_PATTERN_LENGTH) as [Hsmall|]; [|lia].
      exfalso. apply Exists_exists in Hex. destruct Hex as (c & Hin & Hc).
      pose proof (Pattern_loop_accepted _ _ _ _ Hp Hsmall) as Hall.
      rewrite Forall_forall in Hall. rewrite (Hall c Hin) in Hc. discriminate.
    + left. f_equal. eapply Pattern_loop_Throw. exact Hp.
Qed.

Lemma Pattern_grammar_witness :
  loop_inv Pattern_empty 0 /\ Size Pattern_empty < MAX_PATTERN_LENGTH
  /\ Pattern_loop (c_str "?? 4D") Pattern_empty 0
     = Pattern_loop (c_str " 4D") (put_byte Pattern_empty 0 (mkByte true 0)) 1
  /\ Pattern_loop (c_str "4d") Pattern_empty 0
     = Pattern_loop (c_str "d") (put_byte Pattern_empty 0 (mkByte false 4)) 1
  /\ Pattern_loop (c_str "d") Pattern_empty 0 = Throw "Invalid hexadecimal.".
Proof.
  split; [exact Pattern_empty_inv|]. split; [reflexivity|].
  pose proof (Pattern_grammar Pattern_empty 0 Pattern_empty_inv eq_refl)
    as (_ & _ & Hqq & _ & Hlone & Hbad & _).
  split; [exact (Hqq (c_str " 4D"))|].
  split; [exact (Hlone 0x34 (c_str "d") eq_refl eq_refl)|].
  exact (Hbad 0x64 [] eq_refl).
Defined.

(** The claim as stated fails in two places: past the capacity an invalid
    character is never read (a text of 128 wildcards followed by a lowercase
    letter compiles), and of the whitespace characters only the space is
    skipped (a tab throws). *)
Lemma invalid_char_past_capacity_and_tab :
  (Exists (fun c => accepted_char c = false) (c_str (qmarks 256 "g"))
   /\ exists p, Pattern_of (qmarks 256 "g") = Ok p /\ Size p = 128)
  /\ Pattern_of (String.append "1A" (String (ascii_of_nat 9) "2B"))
     = Throw "Invalid hexadecimal.".
Proof.
  split; [split|].
  - apply Exists_exists. exists 0x67. split; [|reflexivity].
    apply list_elem_of_In. vm_compute. tauto.
  - eexists. split; [vm_compute; reflexivity|]. vm_compute; reflexivity.
  - vm_compute. reflexivity.
Qed.

(** Lowercase hex is rejected while the capacity is not reached. *)
Example lowercase_rejected : Pattern_of "1a 2b 3c 4d" = Throw "Invalid hexadecimal.".
Proof. vm_compute. reflexivity. Qed.

(** ** Matcher *)

Lemma Pattern_eq_loop_false n : forall lhs rhs i,
  Pattern_eq_loop n lhs rhs i = false <->
  exists k, i <= k < i + Z.of_nat n
            /\ IsWildcard (byte_at lhs k) = false
            /\ Value (byte_at lhs k) <> rhs k.
Proof.
  induction n as [|n IH]; intros lhs rhs i.
  - cbn. split; [discriminate|]. intros (k & Hk & _). lia.
  - cbn [Pattern_eq_loop].
    destruct (IsWildcard (byte_at lhs i)) eqn:Hw; cbn [negb andb].
    + rewrite IH. split; intros (k & Hk & Hkw & Hkv).
      * exists k. split; [lia|]. split; assumption.
      * exists k. split; [|split; assumption].
        destruct (Z.eq_dec k i) as [->|]; [congruence|lia].
    + destruct (Z.eqb_spec (Value (byte_at lhs i)) (rhs i)) as [He|Hne]; cbn [negb].
      * rewrite IH. split; intros (k & Hk & Hkw & Hkv).
        -- exists k. split; [lia|]. split; assumption.
        -- exists k. split; [|split; assumption].
           destruct (Z.eq_dec k i) as [->|]; [congruence|lia].
      * split; [|reflexivity]. intros _. exists i. split; [lia|]. split; assumption.
Qed.

Lemma byte_at_tokens p (i : nat) :
  (i < Z.to_nat (Size p))%nat -> (Z.to_nat (Size p) <= length (Bytes p))%nat ->
  tokens p !! i = Some (byte_at p (Z.of_nat i)).
Proof.
  intros Hi Hl. unfold tokens, byte_at. rewrite lookup_take_lt by exact Hi.
  rewrite Nat2Z.id.
  destruct (lookup_lt_is_Some_2 (Bytes p) i ltac:(lia)) as [b ->]. reflexivity.
Qed.

(** C4: for a pattern whose [Size] cells lie in its array and a window of at
    least [Size] bytes, the matcher returns false exactly when some position
    below [Size] holds a concrete token whose value differs from the window
    byte at that position (so wildcards never cause a mismatch); and
    ["1A 2B ?? 4D"] matches [1A 2B 00 4D] and [1A 2B FF 4D] but not
    [1A 2B 00 4E]. *)
Theorem Pattern_eq_mismatch_iff (p : Pattern) (w : list Z) :
  0 <= Size p -> (Z.to_nat (Size p) <= length (Bytes p))%nat ->
  (Z.to_nat (Size p) <= length w)%nat ->
  (Pattern_eq p (window w) = false <->
   exists (i : nat) b x,
     tokens p !! i = Some b /\ w !! i = Some x /\ IsWildcard b = false /\ Value b <> x)
  /\ (exists p0, Pattern_of "1A 2B ?? 4D" = Ok p0
        /\ Pattern_eq p0 (window [0x1A; 0x2B; 0x00; 0x4D]) = true
        /\ Pattern_eq p0 (window [0x1A; 0x2B; 0xFF; 0x4D]) = true
        /\ Pattern_eq p0 (window [0x1A; 0x2B; 0x00; 0x4E]) = false).
Proof.
  intros Hs Hb Hw. split.
  - unfold Pattern_eq. rewrite Pattern_eq_loop_false. split.
    + intros (k & Hk & Hkw & Hkv).
      assert (Hlt : (Z.to_nat k < Z.to_nat (Size p))%nat) by lia.
      destruct (lookup_lt_is_Some_2 w (Z.to_nat k) ltac:(lia)) as [x Hx].
      exists (Z.to_nat k), (byte_at p k), x.
      rewrite byte_at_tokens by assumption. rewrite Z2Nat.id by lia.
      repeat split; try assumption.
      intros He. apply Hkv. unfold window. rewrite Hx. exact He.
    + intros (i & b & x & Hi & Hx & Hbw & Hbv).
      assert (Hlt : (i < Z.to_nat (Size p))%nat).
      { apply lookup_lt_Some in Hi. unfold tokens in Hi.
        rewrite length_take in Hi. lia. }
      rewrite byte_at_tokens in Hi by assumption. injection Hi as <-.
      exists (Z.of_nat i). split; [lia|]. split; [assumption|].
      unfold window. rewrite Nat2Z.id, Hx. exact Hbv.
  - eexists. split; [vm_compute; reflexivity|]. repeat split; vm_compute; reflexivity.
Qed.

Lemma Pattern_eq_mismatch_iff_witness :
  Pattern_eq (put_byte (put_byte Pattern_empty 0 (mkByte true 0)) 1 (mkByte false 0x4D))
             (window [0x00; 0x4E]) = false
  <-> exists (i : nat) b x,
        tokens (put_byte (put_byte Pattern_empty 0 (mkByte true 0)) 1 (mkByte false 0x4D)) !! i
        = Some b
        /\ [0x00; 0x4E] !! i = Some x /\ IsWildcard b = false /\ Value b <> x.
Proof.
  apply (Pattern_eq_mismatch_iff
           (put_byte (put_byte Pattern_empty 0 (mkByte true 0)) 1 (mkByte false 0x4D))
           [0x00; 0x4E]).
  - vm_compute. discriminate.
  - vm_compute. lia.
  - vm_compute. lia.
Defined.

(** ** Instruction interpreter *)

Lemma run_instructions_NONE exec n : forall st,
  (forall st, exec Instruction_default st = Ret st) ->
  instructionsFailed st = 0 ->
  run_instructions exec (replicate n Instruction_default) st = Ret st.
Proof.
  intros st Hexec Hf. induction n as [|n IH]; [reflexivity|].
  cbn [replicate run_instructions]. rewrite Hexec. cbn [obind].
  rewrite Hf. cbn. exact IH.
Qed.


(** An attempt with no instruction inside a scan of a one-region process. *)
Example empty_sequence_scan :
  exists s, PatternScan.ctor (pattern_of "1A 2B ?? 4D") [] = Some s
    /\ PatternScan.Scan 3 s (one_region_host 0x1000 PAGE_EXECUTE_READ
                               [0x00; 0x1A; 0x2B; 0x3C; 0x4D; 0x00; 0x00])
       = Ret (0x1001, [(0x1000, 0); (0x1000, 1)]).
Proof. eexists. split; [vm_compute; reflexivity|]. vm_compute; reflexivity. Qed.

Lemma pop_push st : pop_addr (push_addr st) = Ret st.
Proof.
  destruct st as [a f stack off]. unfold pop_addr, push_addr; cbn.
  rewrite last_snoc, removelast_last. reflexivity.
Qed.

Section PushPop.
Variable exec : Instruction -> VState -> outcome VState.
Hypothesis exec_push : forall st, exec PushAddr st = Ret (push_addr st).
Hypothesis exec_pop : forall st, exec PopAddr st = pop_addr st.

(** [N] pushes followed by [N] pops leave the whole state as it was. *)
Lemma push_pop_balanced N : forall rest st,
  instructionsFailed st = 0 ->
  run_instructions exec (replicate N PushAddr ++ replicate N PopAddr ++ rest) st
  = run_instructions exec rest st.
Proof.
  induction N as [|N IH]; intros rest st Hf; [reflexivity|].
  replace (replicate (S N) PopAddr ++ rest) with (replicate N PopAddr ++ PopAddr :: rest).
  2:{ change (PopAddr :: rest) with ([PopAddr] ++ rest). rewrite app_assoc.
      f_equal. change [PopAddr] with (replicate 1 PopAddr).
      rewrite <- replicate_add. f_equal. lia. }
  cbn [replicate app run_instructions]. rewrite exec_push. cbn [obind].
  change (instructionsFailed (push_addr st)) with (instructionsFailed st).
  rewrite Hf. cbn [Z.eqb negb].
  rewrite IH by exact Hf.
  cbn [run_instructions]. rewrite exec_pop, pop_push. cbn [obind].
  rewrite Hf. reflexivity.
Qed.

(** Pops unwind the stack from its back: after as many pops as addresses were
    pushed since [c], the cursor is [c] and the stack is what it was before
    [c] was pushed, whatever ran between the pushes. *)
Lemma pops_unwind rest s c l : forall st,
  instructionsFailed st = 0 ->
  addrStore st = s ++ c :: l ->
  run_instructions exec (replicate (S (length l)) PopAddr ++ rest) st
  = run_instructions exec rest (mkVState c 0 s (offsetFromMatch st)).
Proof.
  induction l as [|x l IH] using rev_ind; intros st Hf Hs.
  - cbn [length replicate app run_instructions]. rewrite exec_pop. unfold pop_addr.
    rewrite Hs, last_snoc, removelast_last. cbn [obind instructionsFailed].
    rewrite Hf. reflexivity.
  - rewrite length_app. cbn [length]. rewrite Nat.add_1_r.
    change (replicate (S (S (length l))) PopAddr ++ rest)
      with (PopAddr :: (replicate (S (length l)) PopAddr ++ rest)).
    cbn [run_instructions]. rewrite exec_pop. unfold pop_addr.
    replace (s ++ c :: l ++ [x]) with ((s ++ c :: l) ++ [x]) in Hs
      by (rewrite <- app_assoc; reflexivity).
    rewrite Hs, last_snoc, removelast_last. cbn [obind instructionsFailed].
    rewrite Hf. cbn [Z.eqb negb].
    rewrite IH by reflexivity. reflexivity.
Qed.

(** A pop with nothing pushed leaves defined behaviour. *)
Lemma pop_empty rest st :
  addrStore st = [] -> run_instructions exec (PopAddr :: rest) st = Undefined.
Proof.
  intros He. cbn [run_instructions]. rewrite exec_pop. unfold pop_addr.
  rewrite He. reflexivity.
Qed.
End PushPop.

Lemma pop_addr_failed st st' :
  pop_addr st = Ret st' -> instructionsFailed st' = instructionsFailed st.
Proof.
  unfold pop_addr. destruct (last (addrStore st)); [|discriminate].
  intros [= <-]. reflexivity.
Qed.

(** C2, as the code has it: in both revisions, [N] [PushAddr] followed by [N]
    [PopAddr] restore the cursor (and the whole attempt state) to what it was
    before the first push, so the instructions after them run as if these
    were absent; more generally pops return the pushed addresses last in
    first out: after as many pops as addresses lie on the stack from [c]
    upwards, the cursor is [c] and the stack is what lay below it.  A
    [PopAddr] on an empty address stack is not checked: the
    pop never changes the failure counter, and on an empty stack it is the
    undefined [back()] of an empty vector rather than a failed attempt, so
    an attempt of [N] pushes and [N + 1] pops has no defined outcome. *)
Theorem push_pop_LIFO (N : nat) (rest : list Instruction) (st : VState) :
  instructionsFailed st = 0 ->
  (forall P m base i,
     run_instructions (PatternScan.exec P m base i)
       (replicate N PushAddr ++ replicate N PopAddr ++ rest) st
     = run_instructions (PatternScan.exec P m base i) rest st
     /\ run_instructions (PatternScan.exec P m base i)
          (replicate N PushAddr ++ replicate N PopAddr) st = Ret st
     /\ (forall s c l, addrStore st = s ++ c :: l ->
         run_instructions (PatternScan.exec P m base i)
           (replicate (S (length l)) PopAddr ++ rest) st
         = run_instructions (PatternScan.exec P m base i) rest
             (mkVState c 0 s (offsetFromMatch st)))
     /\ (addrStore st = [] ->
         run_instructions (PatternScan.exec P m base i)
           (replicate N PushAddr ++ replicate N PopAddr ++ PopAddr :: rest) st = Undefined)
     /\ (forall st', PatternScan.exec P m base i PopAddr st = Ret st' ->
                     instructionsFailed st' = instructionsFailed st))
  /\ (forall m,
        run_instructions (DataScan.exec m)
          (replicate N PushAddr ++ replicate N PopAddr ++ rest) st
        = run_instructions (DataScan.exec m) rest st
        /\ run_instructions (DataScan.exec m)
             (replicate N PushAddr ++ replicate N PopAddr) st = Ret st
        /\ (forall s c l, addrStore st = s ++ c :: l ->
            run_instructions (DataScan.exec m) (replicate (S (length l)) PopAddr ++ rest) st
            = run_instructions (DataScan.exec m) rest (mkVState c 0 s (offsetFromMatch st)))
        /\ (addrStore st = [] ->
            run_instructions (DataScan.exec m)
              (replicate N PushAddr ++ replicate N PopAddr ++ PopAddr :: rest) st = Undefined)
        /\ (forall st', DataScan.exec m PopAddr st = Ret st' ->
                        instructionsFailed st' = instructionsFailed st)).
Proof.
  intros Hf. split.
  - intros P m base i.
    assert (Hpush : forall s, PatternScan.exec P m base i PushAddr s = Ret (push_addr s))
      by reflexivity.
    assert (Hpop : forall s, PatternScan.exec P m base i PopAddr s = pop_addr s)
      by reflexivity.
    repeat split.
    + apply push_pop_balanced; assumption.
    + rewrite <- (app_nil_r (replicate N PopAddr)).
      rewrite push_pop_balanced by assumption. reflexivity.
    + intros s c l Hs. apply pops_unwind; assumption.
    + intros He. rewrite push_pop_balanced by assumption.
      apply pop_empty; assumption.
    + intros st' H. rewrite Hpop in H. apply pop_addr_failed; assumption.
  - intros m.
    assert (Hpush : forall s, DataScan.exec m PushAddr s = Ret (push_addr s)) by reflexivity.
    assert (Hpop : forall s, DataScan.exec m PopAddr s = pop_addr s) by reflexivity.
    repeat split.
    + apply push_pop_balanced; assumption.
    + rewrite <- (app_nil_r (replicate N PopAddr)).
      rewrite push_pop_balanced by assumption. reflexivity.
    + intros s c l Hs. apply pops_unwind; assumption.
    + intros He. rewrite push_pop_balanced by assumption.
      apply pop_empty; assumption.
    + intros st' H. rewrite Hpop in H. apply pop_addr_failed; assumption.
Qed.

Lemma push_pop_LIFO_witness :
  instructionsFailed (PatternScan.attempt_init 0x1000 3) = 0
  /\ run_instructions (PatternScan.exec (pattern_of "4D") (image_memory 0x1000 [0x4D]) 0x1000 3)
       (replicate 2 PushAddr ++ replicate 2 PopAddr ++ [Offset 1])
       (PatternScan.attempt_init 0x1000 3)
     = run_instructions (PatternScan.exec (pattern_of "4D") (image_memory 0x1000 [0x4D]) 0x1000 3)
         [Offset 1] (PatternScan.attempt_init 0x1000 3)
  /\ run_instructions (DataScan.exec (image_memory 0x1000 [0x4D]))
       (replicate 2 PushAddr ++ replicate 2 PopAddr ++ PopAddr :: [Offset 1])
       (PatternScan.attempt_init 0x1000 3)
     = Undefined.
Proof.
  split; [reflexivity|].
  pose proof (push_pop_LIFO 2 [Offset 1] (PatternScan.attempt_init 0x1000 3) eq_refl)
    as [HP HD].
  split.
  - exact (proj1 (HP (pattern_of "4D") (image_memory 0x1000 [0x4D]) 0x1000 3)).
  - exact (proj1 (proj2 (proj2 (proj2 (HD (image_memory 0x1000 [0x4D]))))) eq_refl).
Defined.

(** The claim as stated fails on a pop with nothing pushed: the attempt is
    not a failed one (no state with a raised failure counter comes out of
    it), and the scan does not go on to the next candidate. *)
Lemma pop_on_empty_stack_undefined :
  exists s, PatternScan.ctor (pattern_of "4D") [PopAddr] = Some s
    /\ PatternScan.attempt s (image_memory 0x1000 [0x4D; 0x4D]) 0x1000 0 = Undefined
    /\ PatternScan.Scan 3 s (one_region_host 0x1000 PAGE_EXECUTE_READ [0x4D; 0x4D; 0x00])
       = Undefined
    /\ DataScan.Scan 3 (DataScan.ctor (pattern_of "4D") [PopAddr])
         (one_region_host 0x1000 PAGE_EXECUTE_READ [0x4D; 0x4D; 0x00])
       = Undefined.
Proof. eexists. split; [vm_compute; reflexivity|]. repeat split; vm_compute; reflexivity. Qed.

(** ** Region walk *)

Lemma land_pow2_testbit a n :
  0 <= n -> (Z.land a (2 ^ n) =? 2 ^ n) = Z.testbit a n.
Proof.
  intros Hn. destruct (Z.testbit a n) eqn:Hb.
  - apply Z.eqb_eq. apply Z.bits_inj'. intros k Hk.
    rewrite Z.land_spec, Z.pow2_bits_eqb by lia.
    destruct (Z.eqb_spec n k) as [->|]; [rewrite Hb; reflexivity|apply andb_false_r].
  - apply Z.eqb_neq. intros He.
    assert (Hc : Z.testbit (Z.land a (2 ^ n)) n = Z.testbit (2 ^ n) n) by (rewrite He; reflexivity).
    rewrite Z.land_spec, Hb, Z.pow2_bits_true in Hc by lia. discriminate.
Qed.

Lemma seqZ_S i n : seqZ i (Z.of_nat (S n)) = i :: seqZ (i + 1) (Z.of_nat n).
Proof. rewrite seqZ_cons by lia. f_equal. f_equal; lia. Qed.

(** What the candidate loop has tested when it returns: the offsets
    [i, i + 1, ...] up to the iteration that left the loop. *)
Lemma candidate_loop_tested Assembly m attempt n : forall base i result tested r t,
  candidate_loop Assembly m attempt n base i result tested = Ret (r, t) ->
  exists k, 0 <= k <= Z.of_nat n /\ t = tested ++ seqZ i k
    /\ (k = Z.of_nat n
        \/ exists st, attempt base (i + k - 1) = Ret st /\ instructionsFailed st = 0
                      /\ r = resultAddr st
                      /\ Pattern_eq Assembly (deref m (ptr_add base (i + k - 1))) = true).
Proof.
  induction n as [|n IH]; intros base i result tested r t.
  - cbn. intros [= <- <-]. exists 0. split; [lia|]. split; [|left; reflexivity].
    cbn. rewrite app_nil_r. reflexivity.
  - cbn [candidate_loop].
    assert (Hnext : forall res, candidate_loop Assembly m attempt n base (i + 1) res
                                  (tested ++ [i]) = Ret (r, t) ->
      exists k, 0 <= k <= Z.of_nat (S n) /\ t = tested ++ seqZ i k
        /\ (k = Z.of_nat (S n)
            \/ exists st, attempt base (i + k - 1) = Ret st /\ instructionsFailed st = 0
                          /\ r = resultAddr st
                          /\ Pattern_eq Assembly (deref m (ptr_add base (i + k - 1))) = true)).
    { intros res H. destruct (IH _ _ _ _ _ _ H) as (k & Hk & -> & Hend).
      exists (k + 1). split; [lia|]. split.
      - rewrite <- app_assoc. f_equal. rewrite (seqZ_cons i (k + 1)) by lia.
        cbn. do 2 f_equal; lia.
      - destruct Hend as [->|(st & Hst & Hf & Hr & Hm)]; [left; lia|].
        right. exists st. replace (i + (k + 1) - 1) with (i + 1 + k - 1) by lia. auto. }
    destruct (Pattern_eq Assembly (deref m (ptr_add base i))) eqn:Hm; [|apply Hnext].
    destruct (attempt base i) as [st| |] eqn:Hst; cbn [obind]; try discriminate.
    destruct (Z.eqb_spec (instructionsFailed st) 0) as [Hf|Hf]; [|apply Hnext].
    intros [= <- <-]. exists 1. split; [lia|]. split; [reflexivity|].
    right. exists st. replace (i + 1 - 1) with i by lia. auto.
Qed.

(** With no match at the offsets it ranges over, the loop tests them all and
    finds nothing. *)
Lemma candidate_loop_no_match Assembly m attempt n : forall base i result tested,
  (forall k, i <= k < i + Z.of_nat n ->
             Pattern_eq Assembly (deref m (ptr_add base k)) = false) ->
  candidate_loop Assembly m attempt n base i result tested
  = Ret (result, tested ++ seqZ i (Z.of_nat n)).
Proof.
  induction n as [|n IH]; intros base i result tested Hno.
  - cbn. rewrite app_nil_r. reflexivity.
  - cbn [candidate_loop]. rewrite (Hno i) by lia.
    rewrite IH by (intros k Hk; apply Hno; lia).
    rewrite <- app_assoc, seqZ_S. reflexivity.
Qed.

(** C1, as the code has it: [PatternScan::Scan] accepts a region exactly when
    it is committed, at least as large as the pattern, and its protection is
    exactly execute-read or execute-read-write (read-only and read-write
    regions are skipped); [DataScan::Scan] accepts a region exactly when it is
    committed, at least as large as the pattern, and its protection value
    has the read-only, read-write, execute-read or execute-read-write bit
    set.  In both, a region that is not accepted is passed over with no
    candidate compared: the walk goes on at the next address with the same
    trace. *)
Theorem region_acceptance (size : Z) (mbi : MEMORY_BASIC_INFORMATION) :
  (PatternScan.region_skipped size mbi = false <->
     State mbi = MEM_COMMIT /\ size <= RegionSize mbi
     /\ (Protect mbi = PAGE_EXECUTE_READ \/ Protect mbi = PAGE_EXECUTE_READWRITE))
  /\ (DataScan.region_skipped size mbi = false <->
        State mbi = MEM_COMMIT /\ size <= RegionSize mbi
        /\ (Z.testbit (Protect mbi) 1 = true \/ Z.testbit (Protect mbi) 2 = true
            \/ Z.testbit (Protect mbi) 5 = true \/ Z.testbit (Protect mbi) 6 = true))
  /\ (forall fuel s h addr trace,
        VirtualQuery h addr = Some mbi ->
        PatternScan.region_skipped (Size (PatternScan.Assembly s)) mbi = true ->
        PatternScan.scan_while (S fuel) s h addr nullptr trace
        = PatternScan.scan_while fuel s h (ptr_add addr (RegionSize mbi)) nullptr trace)
  /\ (forall fuel s h addr trace,
        VirtualQuery h addr = Some mbi -> DataScan.in_module h addr = true ->
        DataScan.region_skipped (Size (DataScan.Assembly s)) mbi = true ->
        DataScan.scan_while (S fuel) s h addr nullptr trace
        = DataScan.scan_while fuel s h (ptr_add addr (RegionSize mbi)) nullptr trace).
Proof.
  split; [|split; [|split]].
  - unfold PatternScan.region_skipped.
    destruct (Z.gtb_spec size (RegionSize mbi)).
    { split; [discriminate|]. intros (_ & ? & _). lia. }
    destruct (Z.eqb_spec (State mbi) MEM_COMMIT) as [Hc|Hc]; cbn [negb].
    2:{ split; [discriminate|]. intros (? & _). contradiction. }
    destruct (Z.eqb_spec (Protect mbi) PAGE_EXECUTE_READ) as [Hx|Hx];
      destruct (Z.eqb_spec (Protect mbi) PAGE_EXECUTE_READWRITE) as [Hw|Hw]; cbn.
    all: split; [intros Hacc; try discriminate; repeat split; auto; lia|].
    all: intros (_ & _ & [?|?]); try reflexivity; contradiction.
  - unfold DataScan.region_skipped.
    change PAGE_READONLY with (2 ^ 1). change PAGE_READWRITE with (2 ^ 2).
    change PAGE_EXECUTE_READ with (2 ^ 5). change PAGE_EXECUTE_READWRITE with (2 ^ 6).
    rewrite !land_pow2_testbit by lia.
    destruct (Z.gtb_spec size (RegionSize mbi)).
    { split; [discriminate|]. intros (_ & ? & _). lia. }
    destruct (Z.eqb_spec (State mbi) MEM_COMMIT) as [Hc|Hc]; cbn [negb].
    2:{ split; [discriminate|]. intros (? & _). contradiction. }
    destruct (Z.testbit (Protect mbi) 1), (Z.testbit (Protect mbi) 2),
      (Z.testbit (Protect mbi) 5), (Z.testbit (Protect mbi) 6); cbn.
    all: split; [intros Hacc; try discriminate; repeat split; auto; lia|].
    all: intros (_ & _ & [?|[?|[?|?]]]); try reflexivity; discriminate.
  - intros fuel s h addr trace Hq Hskip. cbn [PatternScan.scan_while].
    change (nullptr =? nullptr) with true. cbn iota. rewrite Hq, Hskip. reflexivity.
  - intros fuel s h addr trace Hq Hin Hskip. cbn [DataScan.scan_while].
    change (nullptr =? nullptr) with true. cbn iota. rewrite Hq, Hin, Hskip. reflexivity.
Qed.

Lemma region_acceptance_witness :
  let h := one_region_host 0x1000 PAGE_READWRITE [0x1A; 0x2B; 0x00] in
  let mbi := mkMBI 0x1000 3 MEM_COMMIT PAGE_READWRITE in
  VirtualQuery h 0x1000 = Some mbi
  /\ PatternScan.region_skipped 2 mbi = true
  /\ DataScan.region_skipped 2 mbi = false
  /\ PatternScan.scan_while 1 (PatternScan.mk (pattern_of "1A 2B") [] 0) h 0x1000 nullptr []
     = PatternScan.scan_while 0 (PatternScan.mk (pattern_of "1A 2B") [] 0) h 0x1003 nullptr [].
Proof.
  intros h mbi. split; [reflexivity|]. split; [reflexivity|]. split; [reflexivity|].
  exact (proj1 (proj2 (proj2 (region_acceptance 2 mbi))) 0%nat
           (PatternScan.mk (pattern_of "1A 2B") [] 0) h 0x1000 [] eq_refl eq_refl).
Defined.

(** The claim as stated fails in [PatternScan::Scan]: a committed read-only
    region larger than the pattern is skipped, so a pattern it holds is not
    found, with no candidate compared; [DataScan::Scan] accepts the region
    and finds the pattern. *)
Lemma readonly_region_skipped :
  PatternScan.region_skipped 2 (mkMBI 0x1000 4096 MEM_COMMIT PAGE_READONLY) = true
  /\ PatternScan.region_skipped 2 (mkMBI 0x1000 4096 MEM_COMMIT PAGE_READWRITE) = true
  /\ (exists s, PatternScan.ctor (pattern_of "1A 2B") [] = Some s
        /\ PatternScan.Scan 3 s (one_region_host 0x1000 PAGE_READONLY [0x1A; 0x2B; 0x00])
           = Ret (nullptr, []))
  /\ DataScan.Scan 2 (DataScan.ctor (pattern_of "1A 2B") [])
       (one_region_host 0x1000 PAGE_READONLY [0x1A; 0x2B; 0x00])
     = Ret (0x1000, [(0x1000, 0)]).
Proof.
  split; [reflexivity|]. split; [reflexivity|]. split.
  - eexists. split; [vm_compute; reflexivity|]. vm_compute; reflexivity.
  - vm_compute. reflexivity.
Qed.

(** ** Patch *)

Lemma read_bytes_lookup m a n (i : nat) :
  (Z.of_nat i < n) -> Patch.read_bytes m a n !! i = Some (m (a + Z.of_nat i)).
Proof.
  intros Hi. unfold Patch.read_bytes.
  change (map ?f ?l) with (f <$> l).
  rewrite list_lookup_fmap, lookup_seqZ_lt by lia. reflexivity.
Qed.

Lemma memcpy_to_in m dst src n a :
  dst <= a < dst + n ->
  Patch.memcpy_to m dst src n a = default 0 (src !! Z.to_nat (a - dst)).
Proof.
  intros H. unfold Patch.memcpy_to.
  destruct (Z.leb_spec dst a); [|lia]. destruct (Z.ltb_spec a (dst + n)); [|lia].
  reflexivity.
Qed.

Lemma memcpy_to_out m dst src n a :
  ~ (dst <= a < dst + n) -> Patch.memcpy_to m dst src n a = m a.
Proof.
  intros H. unfold Patch.memcpy_to.
  destruct (Z.leb_spec dst a); [|reflexivity].
  destruct (Z.ltb_spec a (dst + n)); [lia|reflexivity].
Qed.

(** Writing back what was read from [m0] over a copy into the same range
    gives [m0] again, whatever was copied in. *)
Lemma memcpy_snapshot m0 m dst n a :
  (forall x, ~ (dst <= x < dst + n) -> m x = m0 x) ->
  Patch.memcpy_to m dst (Patch.read_bytes m0 dst n) n a = m0 a.
Proof.
  intros Hout.
  destruct (Z.le_gt_cases dst a) as [Hl|Hl]; [destruct (Z.lt_ge_cases a (dst + n)) as [Hr|Hr]|].
  - rewrite memcpy_to_in by lia. rewrite read_bytes_lookup by lia.
    cbn. f_equal. lia.
  - rewrite memcpy_to_out by lia. apply Hout. lia.
  - rewrite memcpy_to_out by lia. apply Hout. lia.
Qed.

(** A protection change keeps the bytes and keeps the range committed. *)
Lemma committed_after p a n prot bs :
  Patch.committed p a n = true ->
  Patch.committed (Patch.mkProcess bs
               (fun page => if Patch.in_pages a n page then Some prot
                            else Patch.protection p page)) a n = true.
Proof.
  unfold Patch.committed. rewrite !forallb_forall. intros H page Hin.
  specialize (H page Hin). cbn [Patch.protection].
  destruct (Patch.in_pages a n page); [|exact H].
  apply bool_decide_eq_true. eauto.
Qed.

Lemma read_bytes_ext m1 m2 a n :
  (forall x, a <= x < a + n -> m1 x = m2 x) ->
  Patch.read_bytes m1 a n = Patch.read_bytes m2 a n.
Proof.
  intros H. unfold Patch.read_bytes. apply map_ext_in. intros k Hk.
  apply list_elem_of_In, elem_of_seqZ in Hk. apply H. lia.
Qed.

(** The constructor when the protection change goes through. *)
Lemma ctor_applied p aTarget data :
  aTarget <> nullptr -> Patch.strlen data <> 0 ->
  Patch.committed p aTarget (Patch.strlen data) = true ->
  exists prot,
    Patch.ctor p aTarget (Some data)
    = Ok (Patch.mk aTarget
            (Some (Patch.read_bytes (Patch.bytes p) aTarget (Patch.strlen data)))
            (Patch.strlen data),
          Patch.mkProcess
            (Patch.memcpy_to (Patch.bytes p) aTarget data (Patch.strlen data)) prot)
    /\ Patch.committed
         (Patch.mkProcess
            (Patch.memcpy_to (Patch.bytes p) aTarget data (Patch.strlen data)) prot)
         aTarget (Patch.strlen data) = true.
Proof.
  intros Ht Hn Hc. unfold Patch.ctor.
  destruct (Z.eqb_spec aTarget nullptr); [contradiction|].
  destruct (Z.eqb_spec (Patch.strlen data) 0); [contradiction|].
  unfold Patch.VirtualProtect at 1. rewrite Hc. cbn [Patch.bytes Patch.protection].
  unfold Patch.VirtualProtect. rewrite committed_after by exact Hc.
  cbn [Patch.bytes Patch.protection].
  eexists. split; [reflexivity|].
  exact (committed_after
           (Patch.mkProcess (Patch.bytes p)
              (fun page => if Patch.in_pages aTarget (Patch.strlen data) page
                           then Some PAGE_EXECUTE_READWRITE else Patch.protection p page))
           aTarget _ _ _
           (committed_after p aTarget _ PAGE_EXECUTE_READWRITE (Patch.bytes p) Hc)).
Qed.

(** The constructor when the protection change fails: nothing is done. *)
Lemma ctor_not_applied p aTarget data :
  aTarget <> nullptr -> Patch.strlen data <> 0 ->
  Patch.committed p aTarget (Patch.strlen data) = false ->
  Patch.ctor p aTarget (Some data) = Ok (Patch.mk aTarget None (Patch.strlen data), p).
Proof.
  intros Ht Hn Hc. unfold Patch.ctor.
  destruct (Z.eqb_spec aTarget nullptr); [contradiction|].
  destruct (Z.eqb_spec (Patch.strlen data) 0); [contradiction|].
  unfold Patch.VirtualProtect. rewrite Hc. reflexivity.
Qed.

(** What a constructor that returned was given. *)
Lemma ctor_Ok p aTarget aBytes this p1 :
  Patch.ctor p aTarget aBytes = Ok (this, p1) ->
  aTarget <> nullptr /\ exists data, aBytes = Some data /\ Patch.strlen data <> 0.
Proof.
  unfold Patch.ctor. destruct (Z.eqb_spec aTarget nullptr); [discriminate|].
  destruct aBytes as [data|]; [|discriminate].
  destruct (Z.eqb_spec (Patch.strlen data) 0); [discriminate|].
  intros _. eauto.
Qed.

(** The destructor in a state where the range is committed. *)
Lemma dtor_committed this original q :
  Patch.OriginalBytes this = Some original ->
  Patch.committed q (Patch.Target this) (Patch.Size this) = true ->
  exists prot,
    Patch.dtor this q
    = Ret (Patch.mkProcess
             (Patch.memcpy_to (Patch.bytes q) (Patch.Target this) original (Patch.Size this))
             prot).
Proof.
  intros Ho Hc. unfold Patch.dtor. unfold Patch.VirtualProtect at 1. rewrite Hc, Ho.
  cbn [Patch.bytes Patch.protection].
  unfold Patch.VirtualProtect. rewrite committed_after by exact Hc.
  eexists. reflexivity.
Qed.

(** C3: when the constructor returns, running the destructor next leaves
    every byte of memory, the target range included, as it was before the
    constructor; and when the patch was applied (a snapshot exists) the
    snapshot is the target range as read before the write, and a destructor
    run in any later state where the range can be made writable, whatever
    bytes the range then holds, writes exactly that snapshot over the range
    and nothing else. *)
Theorem patch_release_restores
  (p : Patch.Process) (aTarget : Z) (aBytes : option (list Z))
  (this : Patch.t) (p1 : Patch.Process) :
  Patch.ctor p aTarget aBytes = Ok (this, p1) ->
  (exists p2, Patch.dtor this p1 = Ret p2
              /\ (forall a, Patch.bytes p2 a = Patch.bytes p a)
              /\ Patch.read_bytes (Patch.bytes p2) aTarget (Patch.Size this)
                 = Patch.read_bytes (Patch.bytes p) aTarget (Patch.Size this))
  /\ (forall original, Patch.OriginalBytes this = Some original ->
        original = Patch.read_bytes (Patch.bytes p) aTarget (Patch.Size this)
        /\ forall q, Patch.committed q aTarget (Patch.Size this) = true ->
             exists q', Patch.dtor this q = Ret q'
               /\ Patch.read_bytes (Patch.bytes q') aTarget (Patch.Size this) = original
               /\ forall a, ~ (aTarget <= a < aTarget + Patch.Size this) ->
                            Patch.bytes q' a = Patch.bytes q a).
Proof.
  intros Hctor.
  destruct (ctor_Ok _ _ _ _ _ Hctor) as (Ht & data & -> & Hn).
  destruct (Patch.committed p aTarget (Patch.strlen data)) eqn:Hc.
  - destruct (ctor_applied _ _ _ Ht Hn Hc) as (prot & Heq & Hc1).
    rewrite Heq in Hctor. injection Hctor as <- <-.
    cbn [Patch.Size Patch.OriginalBytes Patch.Target]. split.
    + destruct (dtor_committed
                  (Patch.mk aTarget
                     (Some (Patch.read_bytes (Patch.bytes p) aTarget (Patch.strlen data)))
                     (Patch.strlen data)) _ _ eq_refl Hc1) as (prot' & ->).
      eexists. split; [reflexivity|]. cbn [Patch.bytes Patch.Target Patch.Size].
      assert (Hall : forall a,
                 Patch.memcpy_to
                   (Patch.memcpy_to (Patch.bytes p) aTarget data (Patch.strlen data))
                   aTarget (Patch.read_bytes (Patch.bytes p) aTarget (Patch.strlen data))
                   (Patch.strlen data) a = Patch.bytes p a).
      { intros a. apply memcpy_snapshot. intros x Hx. apply memcpy_to_out. exact Hx. }
      split; [exact Hall|]. apply read_bytes_ext. intros x _. apply Hall.
    + intros original [= <-]. split; [reflexivity|].
      intros q Hq.
      destruct (dtor_committed
                  (Patch.mk aTarget
                     (Some (Patch.read_bytes (Patch.bytes p) aTarget (Patch.strlen data)))
                     (Patch.strlen data)) _ q eq_refl Hq) as (prot' & ->).
      eexists. split; [reflexivity|]. cbn [Patch.bytes Patch.Target Patch.Size]. split.
      * apply read_bytes_ext. intros x Hx.
        rewrite memcpy_to_in by lia. rewrite read_bytes_lookup by lia.
        cbn. f_equal. lia.
      * intros a Ha. apply memcpy_to_out. exact Ha.
  - rewrite (ctor_not_applied _ _ _ Ht Hn Hc) in Hctor. injection Hctor as <- <-.
    cbn [Patch.Size Patch.OriginalBytes Patch.Target]. split.
    + exists p. unfold Patch.dtor, Patch.VirtualProtect. cbn [Patch.Size Patch.Target].
      rewrite Hc. auto.
    + intros original [=].
Qed.

Lemma patch_release_restores_witness :
  match Patch.ctor (one_page_process [0x55; 0x48; 0x89]) 0x1001 (Some [0x90; 0xC3]) with
  | Ok (this, p1) =>
      Patch.bytes p1 0x1001 = 0x90
      /\ exists p2, Patch.dtor this p1 = Ret p2
           /\ forall a, Patch.bytes p2 a = Patch.bytes (one_page_process [0x55; 0x48; 0x89]) a
  | Throw _ => False
  end.
Proof.
  destruct (Patch.ctor (one_page_process [0x55; 0x48; 0x89]) 0x1001 (Some [0x90; 0xC3]))
    as [[this p1]|msg] eqn:H.
  - split.
    + vm_compute in H. injection H as _ <-. reflexivity.
    + destruct (proj1 (patch_release_restores _ _ _ _ _ H)) as (p2 & Hd & Hall & _).
      exists p2. split; assumption.
  - vm_compute in H. discriminate.
Defined.

Lemma strlen_app pre post :
  Forall (fun c => c <> 0) pre -> post = [] \/ head post = Some 0 ->
  Patch.strlen (pre ++ post) = Z.of_nat (length pre).
Proof.
  intros Hpre Hpost. induction Hpre as [|c pre Hc _ IH].
  - cbn. destruct Hpost as [->|Hh]; [reflexivity|].
    destruct post as [|z post]; [discriminate|]. injection Hh as ->. reflexivity.
  - cbn [app Patch.strlen length]. destruct (Z.eqb_spec c 0); [contradiction|].
    rewrite IH. lia.
Qed.

(** C9: with a non-null target and non-null bytes, the byte count of a patch
    is the number of bytes of the data before its first zero byte (or all of
    them when the first zero is the terminator): data [pre ++ 0 :: _] with
    [pre] free of zeros is cut to [pre]; when [pre] is empty (the data starts
    with a zero byte or is all zeros) the constructor throws "Patch Bytes are
    size 0."; otherwise it returns a patch of [Size = length pre], and every
    byte of memory it changed lies in the target range and now holds the
    byte of [pre] at that position, which is not zero. *)
Theorem patch_size_is_strlen
  (p : Patch.Process) (aTarget : Z) (pre post : list Z) :
  aTarget <> nullptr ->
  Forall (fun c => c <> 0) pre -> post = [] \/ head post = Some 0 ->
  Patch.strlen (pre ++ post) = Z.of_nat (length pre)
  /\ (pre = [] -> Patch.ctor p aTarget (Some (pre ++ post)) = Throw "Patch Bytes are size 0.")
  /\ (pre <> [] ->
      exists this p1,
        Patch.ctor p aTarget (Some (pre ++ post)) = Ok (this, p1)
        /\ Patch.Size this = Z.of_nat (length pre)
        /\ forall a, Patch.bytes p1 a = Patch.bytes p a
                     \/ (aTarget <= a < aTarget + Z.of_nat (length pre)
                         /\ pre !! Z.to_nat (a - aTarget) = Some (Patch.bytes p1 a)
                         /\ Patch.bytes p1 a <> 0)).
Proof.
  intros Ht Hpre Hpost.
  pose proof (strlen_app pre post Hpre Hpost) as Hlen.
  split; [exact Hlen|]. split.
  - intros ->. unfold Patch.ctor.
    destruct (Z.eqb_spec aTarget nullptr); [contradiction|].
    rewrite Hlen. reflexivity.
  - intros Hne.
    assert (Hn : Patch.strlen (pre ++ post) <> 0).
    { rewrite Hlen. destruct pre; [contradiction|]. cbn [length]. lia. }
    destruct (Patch.committed p aTarget (Patch.strlen (pre ++ post))) eqn:Hc.
    + destruct (ctor_applied _ _ _ Ht Hn Hc) as (prot & Heq & _).
      rewrite Heq. eexists _, _. split; [reflexivity|].
      cbn [Patch.Size Patch.bytes]. split; [exact Hlen|].
      intros a. rewrite Hlen.
      destruct (Z.le_gt_cases aTarget a) as [Hl|Hl];
        [destruct (Z.lt_ge_cases a (aTarget + Z.of_nat (length pre))) as [Hr|Hr]|].
      2,3: left; apply memcpy_to_out; lia.
      right. rewrite memcpy_to_in by lia.
      destruct (lookup_lt_is_Some_2 pre (Z.to_nat (a - aTarget)) ltac:(lia)) as [x Hx].
      rewrite lookup_app_l by lia. rewrite Hx. cbn.
      split; [lia|]. split; [reflexivity|].
      rewrite Forall_forall in Hpre. apply Hpre.
      apply list_elem_of_lookup. eauto.
    + rewrite (ctor_not_applied _ _ _ Ht Hn Hc). eexists _, _. split; [reflexivity|].
      cbn [Patch.Size]. split; [exact Hlen|]. intros a. left. reflexivity.
Qed.

Lemma patch_size_is_strlen_witness :
  0x1000 <> nullptr
  /\ Forall (fun c => c <> 0) [0x90]
  /\ Patch.strlen ([0x90] ++ [0x00; 0xC3]) = 1
  /\ Patch.ctor (one_page_process [0x55; 0x48; 0x89]) 0x1000 (Some ([] ++ [0x00; 0x00]))
     = Throw "Patch Bytes are size 0.".
Proof.
  split; [discriminate|].
  split; [repeat constructor; discriminate|].
  split.
  - exact (proj1 (patch_size_is_strlen (one_page_process []) 0x1000 [0x90] [0x00; 0xC3]
                    ltac:(discriminate) ltac:(repeat constructor; discriminate)
                    (or_intror eq_refl))).
  - exact (proj1 (proj2 (patch_size_is_strlen (one_page_process [0x55; 0x48; 0x89]) 0x1000
                           [] [0x00; 0x00] ltac:(discriminate) ltac:(constructor)
                           (or_intror eq_refl))) eq_refl).
Defined.

(** Patch data with an embedded zero byte: only the bytes before it are written. *)
Example patch_truncated :
  match Patch.ctor (one_page_process [0x55; 0x48; 0x89; 0xE5]) 0x1000
                   (Some [0x90; 0x00; 0xC3]) with
  | Ok (this, p1) =>
      Patch.Size this = 1
      /\ Patch.read_bytes (Patch.bytes p1) 0x1000 4 = [0x90; 0x48; 0x89; 0xE5]
  | Throw _ => False
  end.
Proof. vm_compute. split; reflexivity. Qed.

(** * Further properties *)

(** ** Compiled patterns *)

Lemma u8_range x : 0 <= u8 x <= 255.
Proof. unfold u8. pose proof (Z.mod_pos_bound x (2 ^ 8) ltac:(lia)). lia. Qed.

(** The cell an iteration writes is a well-formed token. *)
Lemma Pattern_step_token c rest this j s' this' j' :
  Pattern_step c rest this j = Next s' this' j' ->
  (this' = this /\ j' = j)
  \/ exists b, token_ok b /\ this' = put_byte this j b /\ j' = wrap64 (j + 1).
Proof.
  unfold Pattern_step.
  repeat match goal with
         | |- (if ?b then _ else _) = _ -> _ => destruct b
         end; try discriminate; intros [= <- <- <-]; auto.
  all: right; refine (ex_intro _ _ (conj _ (conj eq_refl eq_refl))).
  all: split; cbn [Value IsWildcard]; try lia; try discriminate; try apply u8_range.
Qed.

Lemma compiled_loop_inv p : compiled p -> loop_inv p (Size p).
Proof. intros (Hs & Hl & _). repeat split; lia || assumption. Qed.

Lemma tokens_length p :
  (Z.to_nat (Size p) <= length (Bytes p))%nat -> length (tokens p) = Z.to_nat (Size p).
Proof. intros H. unfold tokens. rewrite length_take. lia. Qed.

Lemma compiled_put_byte this b :
  compiled this -> Size this < MAX_PATTERN_LENGTH -> token_ok b ->
  compiled (put_byte this (Size this) b).
Proof.
  intros Hc Hlt Hb. pose proof (compiled_loop_inv _ Hc) as Hinv.
  destruct Hc as (Hs & Hl & Htok & Hshape).
  pose proof (tokens_put_byte this (Size this) b Hinv Hlt) as Ht.
  pose proof (Size_put_byte this (Size this) b ltac:(lia)) as Hsz.
  assert (Hlen : length (tokens this) = Z.to_nat (Size this))
    by (apply tokens_length; lia).
  unfold compiled. rewrite Hsz, Ht. repeat split; try lia.
  - unfold put_byte; cbn [Bytes]. rewrite length_insert. exact Hl.
  - apply Forall_app. split; [exact Htok|]. constructor; [exact Hb|constructor].
  - unfold put_byte; cbn [Bytes]. rewrite Hshape at 1.
    rewrite insert_app_r_alt by lia. rewrite Hlen, Nat.sub_diag.
    replace (Z.to_nat MAX_PATTERN_LENGTH - Z.to_nat (Size this))%nat
      with (S (Z.to_nat MAX_PATTERN_LENGTH - Z.to_nat (Size this + 1)))%nat by lia.
    cbn [replicate]. rewrite <- app_assoc. reflexivity.
Qed.

Lemma Pattern_loop_compiled s : forall this p,
  compiled this -> Pattern_loop s this (Size this) = Ok p -> compiled p.
Proof.
  induction s as [s IH] using suffix_ind. intros this p Hc.
  destruct s as [|c rest]; [cbn; intros [= <-]; exact Hc|].
  rewrite Pattern_loop_step.
  destruct (Pattern_step c rest this (Size this)) as [r|s' this' j'] eqn:Hstep; cbn [resume].
  - unfold Pattern_step in Hstep.
    repeat match type of Hstep with
           | (if ?b then _ else _) = _ => destruct b
           end; try discriminate; injection Hstep as <-.
    + intros [= <-]. exact Hc.
    + discriminate.
  - destruct (Pattern_step_Next _ _ _ _ _ _ _ Hstep) as (Hlt & _ & Hs & _).
    assert (Hlen : (length s' < length (c :: rest))%nat).
    { destruct Hs as [->|(c' & -> & _)]; cbn; lia. }
    destruct (Pattern_step_token _ _ _ _ _ _ _ Hstep) as [[-> ->]|(b & Hb & -> & ->)].
    + apply IH; assumption.
    + rewrite wrap64_small by (destruct Hc as (? & _); unfold MAX_PATTERN_LENGTH in *; lia).
      rewrite <- (Size_put_byte this (Size this) b) by (destruct Hc as (? & _); lia).
      apply IH; [exact Hlen|]. apply compiled_put_byte; assumption.
Qed.

Lemma compiled_empty : compiled Pattern_empty.
Proof.
  unfold compiled, tokens, Pattern_empty; cbn [Size Bytes].
  rewrite length_replicate. repeat split; try (unfold MAX_PATTERN_LENGTH; lia).
  cbn [Z.to_nat take]. constructor.
Qed.

(** X1: every pattern the compiler returns keeps the array at its full length,
    holds [Size <= MAX_PATTERN_LENGTH] tokens at its front, each either a
    wildcard whose [Value] is 0 or a concrete value in 0..255, and leaves
    every cell from index [Size] on value-initialised. *)
Theorem Pattern_of_shape (aPattern : string) (p : Pattern) :
  Pattern_of aPattern = Ok p ->
  length (Bytes p) = Z.to_nat MAX_PATTERN_LENGTH
  /\ 0 <= Size p <= MAX_PATTERN_LENGTH
  /\ length (tokens p) = Z.to_nat (Size p)
  /\ forall (i : nat) b, Bytes p !! i = Some b ->
       (Z.of_nat i < Size p -> 0 <= Value b <= 255 /\ (IsWildcard b = true -> Value b = 0))
       /\ (Size p <= Z.of_nat i -> b = mkByte false 0).
Proof.
  intros Hp. pose proof (Pattern_loop_compiled _ _ _ compiled_empty Hp) as Hc.
  destruct Hc as (Hs & Hl & Htok & Hshape).
  assert (Hlen : length (tokens p) = Z.to_nat (Size p)) by (apply tokens_length; lia).
  split; [exact Hl|]. split; [exact Hs|]. split; [exact Hlen|].
  intros i b Hi. rewrite Hshape in Hi. split.
  - intros Hlt. rewrite lookup_app_l in Hi by lia.
    rewrite Forall_forall in Htok. apply (Htok b). apply list_elem_of_lookup. eauto.
  - intros Hge. rewrite lookup_app_r in Hi by lia.
    apply lookup_replicate in Hi. apply Hi.
Qed.

Lemma Pattern_of_shape_witness :
  exists p, Pattern_of "1A 2B ?? 4D" = Ok p
    /\ length (Bytes p) = Z.to_nat MAX_PATTERN_LENGTH
    /\ 0 <= Size p <= MAX_PATTERN_LENGTH.
Proof.
  eexists. split; [vm_compute; reflexivity|].
  refine (let H := Pattern_of_shape "1A 2B ?? 4D" _ _ in conj (proj1 H) (proj1 (proj2 H))).
  vm_compute. reflexivity.
Defined.

Lemma Byte_repr_inj b1 b2 :
  0 <= Value b1 <= 255 -> 0 <= Value b2 <= 255 ->
  Byte_repr b1 = Byte_repr b2 -> b1 = b2.
Proof.
  destruct b1 as [w1 v1], b2 as [w2 v2]; unfold Byte_repr; cbn [IsWildcard Value].
  intros H1 H2 [= Hw Hv]. rewrite !u8_small in Hv by lia. subst v2.
  destruct w1, w2; try discriminate; reflexivity.
Qed.

Lemma cells_repr_inj l1 : forall l2,
  Forall (fun b => 0 <= Value b <= 255) l1 ->
  Forall (fun b => 0 <= Value b <= 255) l2 ->
  length l1 = length l2 ->
  concat (map Byte_repr l1) = concat (map Byte_repr l2) -> l1 = l2.
Proof.
  induction l1 as [|b1 l1 IH]; intros [|b2 l2] H1 H2 Hlen Heq; try discriminate;
    [reflexivity|].
  apply Forall_cons in H1 as [Hb1 H1]. apply Forall_cons in H2 as [Hb2 H2].
  cbn in Heq. injection Heq as Hw Hv Hrest.
  f_equal.
  - apply Byte_repr_inj; [assumption..|]. unfold Byte_repr. congruence.
  - apply IH; try assumption. cbn in Hlen. lia.
Qed.

Lemma compiled_cells p :
  compiled p -> Forall (fun b => 0 <= Value b <= 255) (Bytes p).
Proof.
  intros (_ & _ & Htok & Hshape). rewrite Hshape. apply Forall_app. split.
  - eapply Forall_impl; [exact Htok|]. intros b [Hb _]. exact Hb.
  - apply Forall_replicate. cbn. lia.
Qed.

Lemma cells_repr_length l : length (concat (map Byte_repr l)) = (2 * length l)%nat.
Proof. induction l as [|b l IH]; cbn [map concat length app]; [reflexivity|]. cbn. lia. Qed.

(** X2: [operator==] and [operator!=] on patterns: two patterns the compiler
    returned compare equal under [memcmp] exactly when they hold the same
    token sequence (the cells behind the tokens are value-initialised in
    both), and [operator!=] is true exactly when the token sequences
    differ. *)
Theorem Pattern_eq_Pattern_tokens (t1 t2 : string) (p1 p2 : Pattern) :
  Pattern_of t1 = Ok p1 -> Pattern_of t2 = Ok p2 ->
  (Pattern_eq_Pattern p1 p2 = true <-> tokens p1 = tokens p2)
  /\ (Pattern_ne_Pattern p1 p2 = true <-> tokens p1 <> tokens p2).
Proof.
  intros H1 H2.
  pose proof (Pattern_loop_compiled _ _ _ compiled_empty H1) as Hc1.
  pose proof (Pattern_loop_compiled _ _ _ compiled_empty H2) as Hc2.
  assert (Heq : Pattern_eq_Pattern p1 p2 = true <-> tokens p1 = tokens p2).
  { unfold Pattern_eq_Pattern. rewrite bool_decide_eq_true. split.
    - unfold Pattern_repr. intros Hr.
      pose proof (compiled_cells _ Hc1) as Hv1. pose proof (compiled_cells _ Hc2) as Hv2.
      destruct Hc1 as (Hs1 & Hl1 & _), Hc2 as (Hs2 & Hl2 & _).
      apply app_inj_1 in Hr as [Hcells Hsize];
        [|rewrite !cells_repr_length; lia].
      apply cells_repr_inj in Hcells; [|assumption|assumption|lia].
      assert (Hsz : Size p1 = Size p2).
      { unfold le_bytes in Hsize. cbn in Hsize. injection Hsize as Hb0 _.
        rewrite !Z.div_1_r in Hb0.
        rewrite !wrap64_small in Hb0 by (unfold MAX_PATTERN_LENGTH in *; lia).
        rewrite !Z.mod_small in Hb0 by (unfold MAX_PATTERN_LENGTH in *; lia).
        exact Hb0. }
      unfold tokens. rewrite Hcells, Hsz. reflexivity.
    - intros Ht.
      destruct Hc1 as (Hs1 & Hl1 & _ & Hshape1), Hc2 as (Hs2 & Hl2 & _ & Hshape2).
      assert (Hsz : Size p1 = Size p2).
      { pose proof (tokens_length p1 ltac:(lia)) as L1.
        pose proof (tokens_length p2 ltac:(lia)) as L2.
        rewrite Ht in L1. lia. }
      unfold Pattern_repr. rewrite Hshape1, Hshape2, Ht, Hsz. reflexivity. }
  split; [exact Heq|].
  unfold Pattern_ne_Pattern. rewrite negb_true_iff, <- not_true_iff_false, Heq. reflexivity.
Qed.

Lemma Pattern_eq_Pattern_tokens_witness :
  exists p1 p2,
    Pattern_of "1A 2B ? 4D" = Ok p1 /\ Pattern_of "<1A2B> ??4D" = Ok p2
    /\ (Pattern_eq_Pattern p1 p2 = true <-> tokens p1 = tokens p2).
Proof.
  eexists _, _. split; [vm_compute; reflexivity|]. split; [vm_compute; reflexivity|].
  refine (proj1 (Pattern_eq_Pattern_tokens "1A 2B ? 4D" "<1A2B> ??4D" _ _ _ _));
    vm_compute; reflexivity.
Defined.

Lemma put_wildcards_inv k : forall this j,
  loop_inv this j -> Size this + Z.of_nat k <= MAX_PATTERN_LENGTH ->
  loop_inv (put_wildcards k this j) (j + Z.of_nat k)
  /\ Size (put_wildcards k this j) = Size this + Z.of_nat k
  /\ tokens (put_wildcards k this j) = tokens this ++ replicate k (mkByte true 0).
Proof.
  induction k as [|k IH]; intros this j Hinv Hcap.
  - cbn [put_wildcards replicate]. rewrite Z.add_0_r, app_nil_r.
    destruct Hinv as (? & ? & ?). repeat split; lia || assumption.
  - cbn [put_wildcards].
    assert (Hlt : Size this < MAX_PATTERN_LENGTH) by lia.
    pose proof (put_byte_inv this j (mkByte true 0) Hinv Hlt) as Hinv'.
    assert (Hj : wrap64 (j + 1) = j + 1).
    { destruct Hinv as (? & -> & _). apply wrap64_small. unfold MAX_PATTERN_LENGTH in *. lia. }
    rewrite Hj in Hinv'.
    pose proof (Size_put_byte this j (mkByte true 0) ltac:(destruct Hinv; lia)) as Hsz.
    destruct (IH _ _ Hinv' ltac:(lia)) as (Hi & Hs & Ht).
    replace (j + Z.of_nat (S k)) with (j + 1 + Z.of_nat k) by lia.
    split; [exact Hi|]. split; [lia|].
    rewrite Ht, tokens_put_byte by assumption.
    rewrite <- app_assoc. reflexivity.
Qed.

(** X3: a run of [n] question marks, not followed by another one, compiles to
    [(n + 1) / 2] wildcard tokens when they fit the capacity: the marks are
    taken two at a time and a last single one counts as a whole wildcard
    (so ["???"] is two wildcards). *)
Theorem qmark_run (n : nat) (rest : list Z) (this : Pattern) (j : Z) :
  loop_inv this j ->
  Size this + Z.of_nat ((n + 1) / 2) <= MAX_PATTERN_LENGTH ->
  peek rest <> CHAR_QMARK ->
  let this' := put_wildcards ((n + 1) / 2) this j in
  Pattern_loop (replicate n CHAR_QMARK ++ rest) this j
  = Pattern_loop rest this' (j + Z.of_nat ((n + 1) / 2))
  /\ tokens this' = tokens this ++ replicate ((n + 1) / 2) (mkByte true 0)
  /\ Size this' = Size this + Z.of_nat ((n + 1) / 2).
Proof.
  intros Hinv Hcap Hrest this'.
  split.
  2:{ destruct (put_wildcards_inv _ _ _ Hinv Hcap) as (_ & Hs & Ht). split; assumption. }
  subst this'. revert this j Hinv Hcap.
  induction n as [n IH] using lt_wf_ind. intros this j Hinv Hcap.
  destruct n as [|[|n]].
  - change ((0 + 1) / 2)%nat with 0%nat. cbn [replicate app put_wildcards Z.of_nat].
    rewrite Z.add_0_r. reflexivity.
  - change ((1 + 1) / 2)%nat with 1%nat in *.
    cbn [replicate app put_wildcards Z.of_nat].
    rewrite Pattern_loop_step. unfold Pattern_step.
    destruct (Z.leb_spec MAX_PATTERN_LENGTH (Size this)); [lia|].
    cbn [Z.eqb CHAR_QMARK CHAR_SPACE CHAR_LT CHAR_GT].
    change (CHAR_QMARK =? CHAR_SPACE) with false. change (CHAR_QMARK =? CHAR_LT) with false.
    change (CHAR_QMARK =? CHAR_GT) with false. change (CHAR_QMARK =? CHAR_QMARK) with true.
    cbn iota. apply Z.eqb_neq in Hrest. rewrite Hrest, andb_false_r. cbn [resume].
    destruct Hinv as (? & -> & _).
    rewrite wrap64_small by (unfold MAX_PATTERN_LENGTH in *; lia). reflexivity.
  - replace ((S (S n) + 1) / 2)%nat with (S ((n + 1) / 2)) in *.
    2:{ replace (S (S n) + 1)%nat with (n + 1 + 1 * 2)%nat by lia.
        rewrite Nat.div_add by lia. lia. }
    cbn [replicate app put_wildcards].
    rewrite Pattern_loop_step. unfold Pattern_step.
    destruct (Z.leb_spec MAX_PATTERN_LENGTH (Size this)); [lia|].
    change (CHAR_QMARK =? CHAR_SPACE) with false. change (CHAR_QMARK =? CHAR_LT) with false.
    change (CHAR_QMARK =? CHAR_GT) with false. change (CHAR_QMARK =? CHAR_QMARK) with true.
    cbn [has_next peek tail andb resume]. cbn iota.
    change (CHAR_QMARK =? CHAR_QMARK) with true. cbn iota. cbn [tail].
    assert (Hj : wrap64 (j + 1) = j + 1).
    { destruct Hinv as (? & -> & _). apply wrap64_small. unfold MAX_PATTERN_LENGTH in *. lia. }
    pose proof (put_byte_inv this j (mkByte true 0) Hinv ltac:(lia)) as Hinv'.
    pose proof (Size_put_byte this j (mkByte true 0) ltac:(destruct Hinv; lia)) as Hsz.
    rewrite Hj in *.
    rewrite (IH n ltac:(lia) _ _ Hinv' ltac:(lia)).
    f_equal. lia.
Qed.

Lemma qmark_run_witness :
  loop_inv Pattern_empty 0
  /\ Pattern_loop (replicate 3 CHAR_QMARK ++ c_str " 5E") Pattern_empty 0
     = Pattern_loop (c_str " 5E") (put_wildcards 2 Pattern_empty 0) 2.
Proof.
  split; [exact Pattern_empty_inv|].
  exact (proj1 (qmark_run 3 (c_str " 5E") Pattern_empty 0 Pattern_empty_inv
                  ltac:(vm_compute; discriminate) ltac:(vm_compute; discriminate))).
Defined.

(** Looking one character ahead, the compiler cannot tell a skipped
    character from the end of the text. *)
Lemma Pattern_step_app c rest sep s2 this j :
  sep = CHAR_SPACE \/ sep = CHAR_LT \/ sep = CHAR_GT ->
  Pattern_step c (rest ++ sep :: s2) this j
  = match Pattern_step c rest this j with
    | Stop r => Stop r
    | Next s' this' j' => Next (s' ++ sep :: s2) this' j'
    end.
Proof.
  intros Hsep. unfold Pattern_step.
  destruct rest as [|c' r]; cbn [app has_next peek tail andb].
  - assert (Hq : (sep =? CHAR_QMARK) = false)
      by (destruct Hsep as [-> | [-> | ->]]; reflexivity).
    assert (Hd : is_digit sep = false)
      by (destruct Hsep as [-> | [-> | ->]]; reflexivity).
    assert (Hu : is_upper_hex sep = false)
      by (destruct Hsep as [-> | [-> | ->]]; reflexivity).
    rewrite Hq, Hd, Hu.
    change (is_upper_hex 0) with false. cbn [orb].
    repeat match goal with |- context [if ?b then _ else _] => destruct b end; reflexivity.
  - repeat match goal with |- context [if ?b then _ else _] => destruct b end; reflexivity.
Qed.

(** X4: a space (or an angle bracket) separates: compiling [s1], the separator
    and then [s2] is compiling [s1] and going on with [s2] from the pattern
    that gave, or throwing where [s1] throws. *)
Theorem separator_splits (s1 s2 : list Z) (sep : Z) (this : Pattern) (j : Z) :
  loop_inv this j ->
  sep = CHAR_SPACE \/ sep = CHAR_LT \/ sep = CHAR_GT ->
  Pattern_loop (s1 ++ sep :: s2) this j
  = match Pattern_loop s1 this j with
    | Ok p1 => Pattern_loop s2 p1 (Size p1)
    | Throw msg => Throw msg
    end.
Proof.
  intros Hinv Hsep. revert this j Hinv.
  induction s1 as [s1 IH] using suffix_ind. intros this j Hinv.
  destruct s1 as [|c rest].
  - cbn [app]. cbn [Pattern_loop].
    destruct (Z.leb_spec MAX_PATTERN_LENGTH (Size this)) as [Hfull|Hlt].
    + rewrite Pattern_loop_full by exact Hfull. reflexivity.
    + destruct Hinv as (_ & -> & _).
      destruct Hsep as [-> | [-> | ->]]; reflexivity.
  - change ((c :: rest) ++ sep :: s2) with (c :: (rest ++ sep :: s2)).
    rewrite !Pattern_loop_step, Pattern_step_app by exact Hsep.
    destruct (Pattern_step c rest this j) as [r|s' this' j'] eqn:Hstep; cbn [resume].
    + unfold Pattern_step in Hstep.
      repeat match type of Hstep with
             | (if ?b then _ else _) = _ => destruct b eqn:?
             end; try discriminate; injection Hstep as <-.
      * apply Z.leb_le in Heqb. rewrite Pattern_loop_full by exact Heqb. reflexivity.
      * reflexivity.
    + destruct (Pattern_step_inv _ _ _ _ _ _ _ Hinv Hstep) as [Hinv' Hlen].
      apply IH; [cbn; lia|exact Hinv'].
Qed.

Lemma separator_splits_witness :
  loop_inv Pattern_empty 0
  /\ Pattern_loop (c_str "1A" ++ CHAR_SPACE :: c_str "2B") Pattern_empty 0
     = Pattern_loop (c_str "2B") (put_byte Pattern_empty 0 (mkByte false 0x1A)) 1.
Proof.
  split; [exact Pattern_empty_inv|].
  exact (separator_splits (c_str "1A") (c_str "2B") CHAR_SPACE Pattern_empty 0
           Pattern_empty_inv (or_introl eq_refl)).
Defined.

(** ** Matcher and interpreter *)

(** X5: the matcher looks at the window only at the concrete positions below
    [Size]: two windows that agree there give the same verdict, whatever
    they hold at wildcard positions and from [Size] on. *)
Theorem Pattern_eq_reads_concrete_only (p : Pattern) (rhs1 rhs2 : Z -> Z) :
  (forall k, 0 <= k < Size p -> IsWildcard (byte_at p k) = false -> rhs1 k = rhs2 k) ->
  Pattern_eq p rhs1 = Pattern_eq p rhs2.
Proof.
  intros Hagree. unfold Pattern_eq.
  assert (Hiff : forall r1 r2,
             (forall k, 0 <= k < Size p -> IsWildcard (byte_at p k) = false -> r1 k = r2 k) ->
             Pattern_eq_loop (Z.to_nat (Size p)) p r1 0 = false ->
             Pattern_eq_loop (Z.to_nat (Size p)) p r2 0 = false).
  { intros r1 r2 Ha. rewrite !Pattern_eq_loop_false.
    intros (k & Hk & Hw & Hv). exists k. split; [exact Hk|]. split; [exact Hw|].
    rewrite <- (Ha k) by (assumption || lia). exact Hv. }
  destruct (Pattern_eq_loop (Z.to_nat (Size p)) p rhs1 0) eqn:H1,
           (Pattern_eq_loop (Z.to_nat (Size p)) p rhs2 0) eqn:H2; try reflexivity.
  - apply (Hiff rhs2 rhs1) in H2; [congruence|].
    intros k Hk Hw. symmetry. apply Hagree; assumption.
  - apply (Hiff rhs1 rhs2) in H1; [congruence|exact Hagree].
Qed.

Lemma Pattern_eq_reads_concrete_only_witness :
  Pattern_eq (pattern_of "1A ?? 4D") (window [0x1A; 0x00; 0x4D; 0x07])
  = Pattern_eq (pattern_of "1A ?? 4D") (window [0x1A; 0xFF; 0x4D]).
Proof.
  apply Pattern_eq_reads_concrete_only. intros k Hk Hw.
  change (Size (pattern_of "1A ?? 4D")) with 3 in Hk.
  assert (Hc : k = 0 \/ k = 1 \/ k = 2) by lia.
  destruct Hc as [-> | [-> | ->]]; [reflexivity|vm_compute in Hw; discriminate|reflexivity].
Defined.

Lemma to_signed_mod bits x : 0 < bits -> to_signed bits x mod 2 ^ bits = x mod 2 ^ bits.
Proof.
  intros Hb. unfold to_signed. cbn zeta.
  destruct (Z.ltb_spec (x mod 2 ^ bits) (2 ^ (bits - 1))).
  - apply Z.mod_mod. apply Z.pow_nonzero; lia.
  - rewrite <- (Z.mod_add _ 1) by (apply Z.pow_nonzero; lia).
    replace (x mod 2 ^ bits - 2 ^ bits + 1 * 2 ^ bits) with (x mod 2 ^ bits) by lia.
    apply Z.mod_mod. apply Z.pow_nonzero; lia.
Qed.

Lemma to_signed_congr bits x y :
  x mod 2 ^ bits = y mod 2 ^ bits -> to_signed bits x = to_signed bits y.
Proof. intros H. unfold to_signed. rewrite H. reflexivity. Qed.

Lemma to_signed_inj bits x y :
  0 < bits -> to_signed bits x = to_signed bits y -> x mod 2 ^ bits = y mod 2 ^ bits.
Proof.
  intros Hb H. rewrite <- (to_signed_mod bits x), <- (to_signed_mod bits y) by exact Hb.
  rewrite H. reflexivity.
Qed.

Lemma ptr_add_add p a b : ptr_add (ptr_add p a) b = ptr_add p (a + b).
Proof.
  unfold ptr_add, wrap64. rewrite Zplus_mod_idemp_l. f_equal. lia.
Qed.

(** X6: [Offset(a)] then [Offset(b)] leaves the attempt in the state a single
    [Offset(a + b)] leaves it in, in both revisions: the cursor, and in
    [PatternScan] the tracked offset from the match too, so whatever
    follows runs alike. *)
Theorem Offset_compose (a b : Z) (rest : list Instruction) (st : VState) :
  instructionsFailed st = 0 ->
  (forall P m base i,
     run_instructions (PatternScan.exec P m base i) (Offset a :: Offset b :: rest) st
     = run_instructions (PatternScan.exec P m base i) (Offset (a + b) :: rest) st)
  /\ (forall m,
        run_instructions (DataScan.exec m) (Offset a :: Offset b :: rest) st
        = run_instructions (DataScan.exec m) (Offset (a + b) :: rest) st).
Proof.
  intros Hf. split.
  - intros P m base i.
    assert (E : forall v s, PatternScan.exec P m base i (Offset v) s
                = Ret (mkVState (ptr_add (resultAddr s) v) (instructionsFailed s)
                                (addrStore s) (to_signed 64 (offsetFromMatch s + v))))
      by reflexivity.
    cbn [run_instructions]. rewrite !E.
    cbn [obind instructionsFailed resultAddr addrStore offsetFromMatch].
    rewrite ?Hf. cbn [Z.eqb negb]. rewrite E.
    cbn [obind instructionsFailed resultAddr addrStore offsetFromMatch].
    rewrite ?Hf. cbn [Z.eqb negb]. rewrite ptr_add_add.
    replace (to_signed 64 (to_signed 64 (offsetFromMatch st + a) + b))
      with (to_signed 64 (offsetFromMatch st + (a + b))); [reflexivity|].
    apply to_signed_congr.
    rewrite <- (Zplus_mod_idemp_l (to_signed 64 _)), to_signed_mod, Zplus_mod_idemp_l by lia.
    f_equal. lia.
  - intros m.
    assert (E : forall v s, DataScan.exec m (Offset v) s
                = Ret (set_resultAddr s (ptr_add (resultAddr s) v))) by reflexivity.
    cbn [run_instructions]. rewrite !E.
    cbn [obind instructionsFailed resultAddr addrStore offsetFromMatch set_resultAddr].
    rewrite ?Hf. cbn [Z.eqb negb]. rewrite E.
    cbn [obind instructionsFailed resultAddr addrStore offsetFromMatch set_resultAddr].
    rewrite ?Hf. cbn [Z.eqb negb]. rewrite ptr_add_add. reflexivity.
Qed.

Lemma Offset_compose_witness :
  instructionsFailed (PatternScan.attempt_init 0x1000 0) = 0
  /\ run_instructions (DataScan.exec (image_memory 0x1000 [0x4D]))
       [Offset 9; Offset (-2)] (PatternScan.attempt_init 0x1000 0)
     = run_instructions (DataScan.exec (image_memory 0x1000 [0x4D]))
         [Offset (9 + -2)] (PatternScan.attempt_init 0x1000 0).
Proof.
  split; [reflexivity|].
  exact (proj2 (Offset_compose 9 (-2) [] (PatternScan.attempt_init 0x1000 0) eq_refl)
           (image_memory 0x1000 [0x4D])).
Defined.

Section Verdict.
Variable exec : Instruction -> VState -> outcome VState.
Hypothesis exec_counter : forall inst st st',
  exec inst st = Ret st' -> instructionsFailed st = 0 ->
  instructionsFailed st' = 0 \/ instructionsFailed st' = 1.

(** How an attempt can end, and that nothing after a failed instruction
    matters. *)
Lemma run_instructions_verdict insts : forall st st',
  instructionsFailed st = 0 ->
  run_instructions exec insts st = Ret st' ->
  (instructionsFailed st' = 0
   \/ (instructionsFailed st' = 1 /\ resultAddr st' = nullptr))
  /\ (instructionsFailed st' = 1 ->
      exists pre inst rest,
        insts = pre ++ inst :: rest
        /\ forall rest', run_instructions exec (pre ++ inst :: rest') st = Ret st').
Proof.
  induction insts as [|inst l IH]; intros st st' Hf.
  - cbn. intros [= <-]. split; [left; exact Hf|]. intros H1. rewrite Hf in H1. discriminate.
  - cbn [run_instructions].
    destruct (exec inst st) as [s1| |] eqn:He; cbn [obind]; try discriminate.
    destruct (exec_counter _ _ _ He Hf) as [H0|H1].
    + rewrite H0. cbn [Z.eqb negb]. intros Hrun.
      destruct (IH _ _ H0 Hrun) as [Hv Hstop]. split; [exact Hv|].
      intros H1. destruct (Hstop H1) as (pre & i0 & rest & -> & Hrest).
      exists (inst :: pre), i0, rest. split; [reflexivity|].
      intros rest'. cbn [app run_instructions]. rewrite He. cbn [obind].
      rewrite H0. cbn [Z.eqb negb]. apply Hrest.
    + rewrite H1. cbn [Z.eqb negb]. intros [= <-]. split.
      * right. split; [exact H1|reflexivity].
      * intros _. exists [], inst, l. split; [reflexivity|].
        intros rest'. cbn [app run_instructions]. rewrite He. cbn [obind].
        rewrite H1. reflexivity.
Qed.
End Verdict.

Lemma add_failed_counter st ok :
  instructionsFailed st = 0 ->
  instructionsFailed (add_failed st ok) = 0 \/ instructionsFailed (add_failed st ok) = 1.
Proof. intros Hf. unfold add_failed; cbn. rewrite Hf. destruct ok; auto. Qed.

Lemma PatternScan_exec_counter P m base i inst st st' :
  PatternScan.exec P m base i inst st = Ret st' -> instructionsFailed st = 0 ->
  instructionsFailed st' = 0 \/ instructionsFailed st' = 1.
Proof.
  intros He Hf. unfold PatternScan.exec in He.
  destruct (Operation inst);
    try (destruct (compare_ok m inst st) as [ok| |]; cbn [obind] in He; try discriminate;
         injection He as <-; apply add_failed_counter; exact Hf);
    try (injection He as <-; left; exact Hf).
  - rewrite <- Hf. left. apply pop_addr_failed. exact He.
  - destruct (Z.iter (IValue inst) (advwcard_set P) (Ret (offsetFromMatch st)));
      cbn [obind] in He; try discriminate. injection He as <-. left. exact Hf.
Qed.

Lemma DataScan_exec_counter m inst st st' :
  DataScan.exec m inst st = Ret st' -> instructionsFailed st = 0 ->
  instructionsFailed st' = 0 \/ instructionsFailed st' = 1.
Proof.
  intros He Hf. unfold DataScan.exec in He.
  destruct (Operation inst);
    try (destruct (compare_ok m inst st) as [ok| |]; cbn [obind] in He; try discriminate;
         injection He as <-; apply add_failed_counter; exact Hf);
    try (injection He as <-; left; exact Hf).
  rewrite <- Hf. left. apply pop_addr_failed. exact He.
Qed.

(** X7: an attempt that comes to an end either ran every instruction with no
    failure, or stopped at the first failed comparison with the failure
    counter at 1 and [resultAddr] reset to null; in the second case the
    instructions after the failed one were not run: replacing them by any
    others gives the same end state.  This holds in both revisions. *)
Theorem attempt_stops_at_first_failure (insts : list Instruction) (st st' : VState) :
  instructionsFailed st = 0 ->
  (forall P m base i,
     run_instructions (PatternScan.exec P m base i) insts st = Ret st' ->
     (instructionsFailed st' = 0
      \/ (instructionsFailed st' = 1 /\ resultAddr st' = nullptr))
     /\ (instructionsFailed st' = 1 ->
         exists pre inst rest,
           insts = pre ++ inst :: rest
           /\ forall rest',
                run_instructions (PatternScan.exec P m base i) (pre ++ inst :: rest') st
                = Ret st'))
  /\ (forall m,
        run_instructions (DataScan.exec m) insts st = Ret st' ->
        (instructionsFailed st' = 0
         \/ (instructionsFailed st' = 1 /\ resultAddr st' = nullptr))
        /\ (instructionsFailed st' = 1 ->
            exists pre inst rest,
              insts = pre ++ inst :: rest
              /\ forall rest',
                   run_instructions (DataScan.exec m) (pre ++ inst :: rest') st = Ret st')).
Proof.
  intros Hf. split.
  - intros P m base i. apply run_instructions_verdict; [|exact Hf].
    apply PatternScan_exec_counter.
  - intros m. apply run_instructions_verdict; [|exact Hf].
    apply DataScan_exec_counter.
Qed.

Lemma attempt_stops_at_first_failure_witness :
  let m := image_memory 0x1000 [0x1A; 0x2B; 0x4E] in
  let st := DataScan.attempt_init 0x1000 0 in
  instructionsFailed st = 0
  /\ run_instructions (DataScan.exec m) [Offset 2; CmpI8 0x4D; PopAddr] st
     = Ret (mkVState nullptr 1 [] 0)
  /\ (instructionsFailed (mkVState nullptr 1 [] 0) = 0
      \/ (instructionsFailed (mkVState nullptr 1 [] 0) = 1
          /\ resultAddr (mkVState nullptr 1 [] 0) = nullptr)).
Proof.
  intros m st. split; [reflexivity|].
  assert (Hrun : run_instructions (DataScan.exec m) [Offset 2; CmpI8 0x4D; PopAddr] st
                 = Ret (mkVState nullptr 1 [] 0)) by (vm_compute; reflexivity).
  split; [exact Hrun|].
  exact (proj1 (proj2 (attempt_stops_at_first_failure
                         [Offset 2; CmpI8 0x4D; PopAddr] st (mkVState nullptr 1 [] 0) eq_refl)
                      m Hrun)).
Defined.

Lemma read_int8_eqb m a v :
  (read_int 8 m a =? to_signed 8 v) = (u8 (m a) =? u8 v).
Proof.
  unfold read_int. change (Z.to_nat (8 / 8)) with 1%nat. cbn [read_le].
  rewrite Z.mul_0_r, Z.add_0_r.
  destruct (Z.eqb_spec (u8 (m a)) (u8 v)) as [He|Hne].
  - apply Z.eqb_eq. apply to_signed_congr. unfold u8 in *.
    rewrite Z.mod_mod by lia. exact He.
  - apply Z.eqb_neq. intros He. apply Hne. apply to_signed_inj in He; [|lia].
    unfold u8 in *. rewrite Z.mod_mod in He by lia. exact He.
Qed.

(** X8: [Offset(d)] then [CmpI8(v)] at the raw match [X = base + i]: the attempt
    succeeds exactly when the byte at [X + d] equals the low eight bits of
    [v] (the expected value is cast to [int8_t]); on success the result is
    [X + d], on failure it is null.  This holds in both revisions. *)
Theorem Offset_CmpI8_verdict (P : Pattern) (m : Mem) (base i d v : Z) :
  (exists s st,
     PatternScan.ctor P [Offset d; CmpI8 v] = Some s
     /\ PatternScan.attempt s m base i = Ret st
     /\ (instructionsFailed st = 0 <-> u8 (m (ptr_add (ptr_add base i) d)) = u8 v)
     /\ (instructionsFailed st = 0 -> resultAddr st = ptr_add (ptr_add base i) d)
     /\ (instructionsFailed st <> 0 -> resultAddr st = nullptr))
  /\ (exists st,
        DataScan.attempt (DataScan.ctor P [Offset d; CmpI8 v]) m base i = Ret st
        /\ (instructionsFailed st = 0 <-> u8 (m (ptr_add (ptr_add base i) d)) = u8 v)
        /\ (instructionsFailed st = 0 -> resultAddr st = ptr_add (ptr_add base i) d)
        /\ (instructionsFailed st <> 0 -> resultAddr st = nullptr)).
Proof.
  assert (HP : forall s, instructionsFailed s = 0 ->
             run_instructions (PatternScan.exec P m base i)
               (replicate 14 Instruction_default) s = Ret s)
    by (intros s Hs; apply run_instructions_NONE; [reflexivity|exact Hs]).
  split.
  - exists (PatternScan.mk P ([Offset d; CmpI8 v] ++ replicate 14 Instruction_default) 2).
    unfold PatternScan.attempt.
    cbn [PatternScan.Instructions PatternScan.Assembly app run_instructions].
    assert (EO : PatternScan.exec P m base i (Offset d) (PatternScan.attempt_init base i)
                 = Ret (mkVState (ptr_add (ptr_add base i) d) 0 []
                                 (to_signed 64 (0 + d)))) by reflexivity.
    assert (EC : forall s, PatternScan.exec P m base i (CmpI8 v) s
                 = Ret (add_failed s (read_int 8 m (resultAddr s) =? to_signed 8 v)))
      by reflexivity.
    rewrite EO. cbn [obind instructionsFailed Z.eqb negb]. rewrite EC.
    cbn [obind resultAddr]. rewrite read_int8_eqb.
    destruct (Z.eqb_spec (u8 (m (ptr_add (ptr_add base i) d))) (u8 v)) as [He|Hne].
    + cbn [add_failed instructionsFailed resultAddr addrStore offsetFromMatch].
      change (u32 (0 + 0)) with 0. cbn [Z.eqb negb].
      rewrite HP by reflexivity.
      eexists. split; [reflexivity|]. split; [reflexivity|].
      cbn [instructionsFailed resultAddr]. repeat split; auto. intros H; contradiction.
    + cbn [add_failed instructionsFailed resultAddr addrStore offsetFromMatch].
      change (u32 (0 + 1)) with 1. cbn [Z.eqb negb].
      eexists. split; [reflexivity|]. split; [reflexivity|].
      cbn [instructionsFailed resultAddr set_resultAddr]. repeat split; auto;
        intros H; discriminate || contradiction.
  - unfold DataScan.attempt, DataScan.ctor.
    cbn [DataScan.Instructions run_instructions].
    assert (EO : DataScan.exec m (Offset d) (DataScan.attempt_init base i)
                 = Ret (mkVState (ptr_add (ptr_add base i) d) 0 [] 0)) by reflexivity.
    assert (EC : forall s, DataScan.exec m (CmpI8 v) s
                 = Ret (add_failed s (read_int 8 m (resultAddr s) =? to_signed 8 v)))
      by reflexivity.
    rewrite EO. cbn [obind instructionsFailed Z.eqb negb]. rewrite EC.
    cbn [obind resultAddr]. rewrite read_int8_eqb.
    destruct (Z.eqb_spec (u8 (m (ptr_add (ptr_add base i) d))) (u8 v)) as [He|Hne].
    + cbn [add_failed instructionsFailed resultAddr addrStore offsetFromMatch].
      change (u32 (0 + 0)) with 0. cbn [Z.eqb negb].
      eexists. split; [reflexivity|].
      cbn [instructionsFailed resultAddr]. repeat split; auto. intros H; contradiction.
    + cbn [add_failed instructionsFailed resultAddr addrStore offsetFromMatch].
      change (u32 (0 + 1)) with 1. cbn [Z.eqb negb].
      eexists. split; [reflexivity|].
      cbn [instructionsFailed resultAddr set_resultAddr]. repeat split; auto;
        intros H; discriminate || contradiction.
Qed.

(** ** [advwcard] *)

Lemma Bytes_read_ok p o :
  length (Bytes p) = Z.to_nat MAX_PATTERN_LENGTH -> 0 <= o < MAX_PATTERN_LENGTH ->
  Bytes_read p o = Ret (byte_at p o).
Proof.
  intros Hl Ho. unfold Bytes_read, byte_at.
  destruct (Z.leb_spec 0 o); [|lia]. destruct (Z.ltb_spec o MAX_PATTERN_LENGTH); [|lia].
  cbn [andb]. destruct (lookup_lt_is_Some_2 (Bytes p) (Z.to_nat o) ltac:(lia)) as [b ->].
  reflexivity.
Qed.

Lemma to_signed_small bits x :
  0 < bits -> 0 <= x < 2 ^ (bits - 1) -> to_signed bits x = x.
Proof.
  intros Hb Hx. unfold to_signed. cbn zeta.
  assert (2 ^ (bits - 1) < 2 ^ bits) by (apply Z.pow_lt_mono_r; lia).
  rewrite Z.mod_small by lia. destruct (Z.ltb_spec x (2 ^ (bits - 1))); [reflexivity|lia].
Qed.

(** The [while] loop of one round, from its invariant: everything between
    the start [o0] and [o] is still the wildcard run the round began in
    ([was = true]) or ends on a concrete token ([was = false]), and no run
    starts strictly between them. *)
Lemma advwcard_while_spec p o0 :
  length (Bytes p) = Z.to_nat MAX_PATTERN_LENGTH ->
  0 <= Size p <= MAX_PATTERN_LENGTH -> 0 <= o0 ->
  forall fuel o was,
    fuel = Z.to_nat (Size p - o) -> o0 <= o <= Size p ->
    (was = true -> forall k, o0 <= k < o -> isW p k = true) ->
    (was = false -> (o = o0 /\ isW p o0 = false) \/ (o0 < o /\ isW p (o - 1) = false)) ->
    (forall k, o0 < k < o -> ~ run_start p k) ->
    exists o', advwcard_while fuel p o was = Ret o'
      /\ o <= o' <= Size p
      /\ (o' < Size p -> o0 < o' /\ run_start p o')
      /\ (forall k, o0 < k < o' -> ~ run_start p k).
Proof.
  intros Hl Hs Ho0.
  assert (Hsz : to_signed 64 (Size p) = Size p)
    by (apply to_signed_small; unfold MAX_PATTERN_LENGTH in *; lia).
  induction fuel as [|fuel IH]; intros o was Hfuel Ho Hwas Hnot Hnone.
  - cbn. exists o. assert (o = Size p) by lia. subst o.
    split; [reflexivity|]. split; [lia|]. split; [lia|]. exact Hnone.
  - cbn [advwcard_while]. rewrite Hsz.
    destruct (Z.ltb_spec o (Size p)) as [Hlt|]; [|lia].
    rewrite Bytes_read_ok by (assumption || lia). cbn [obind].
    fold (isW p o).
    assert (Hstep : forall W,
              (W = true -> forall k, o0 <= k < o + 1 -> isW p k = true) ->
              (W = false -> (o + 1 = o0 /\ isW p o0 = false)
                            \/ (o0 < o + 1 /\ isW p (o + 1 - 1) = false)) ->
              (forall k, o0 < k < o + 1 -> ~ run_start p k) ->
              exists o', advwcard_while fuel p (o + 1) W = Ret o'
                /\ o <= o' <= Size p
                /\ (o' < Size p -> o0 < o' /\ run_start p o')
                /\ (forall k, o0 < k < o' -> ~ run_start p k)).
    { intros W H1 H2 H3.
      destruct (IH (o + 1) W ltac:(lia) ltac:(lia) H1 H2 H3) as (o' & ? & ? & ? & ?).
      exists o'. split; [assumption|]. split; [lia|]. split; assumption. }
    destruct was; cbn [andb negb].
    + destruct (isW p o) eqn:Hw.
      * apply Hstep.
        -- intros _ k Hk. destruct (Z.eq_dec k o) as [->|]; [exact Hw|].
           apply Hwas; [reflexivity|lia].
        -- discriminate.
        -- intros k Hk [Hk1 Hk2]. destruct (Z.eq_dec k o) as [->|].
           ++ rewrite Hwas in Hk2 by (reflexivity || lia). discriminate.
           ++ apply (Hnone k); [lia|]. split; assumption.
      * apply Hstep.
        -- discriminate.
        -- intros _. right. split; [lia|]. replace (o + 1 - 1) with o by lia. exact Hw.
        -- intros k Hk [Hk1 Hk2]. destruct (Z.eq_dec k o) as [->|].
           ++ congruence.
           ++ apply (Hnone k); [lia|]. split; assumption.
    + destruct (isW p o) eqn:Hw.
      * exists o. split; [reflexivity|]. split; [lia|]. split; [|exact Hnone].
        intros _. destruct (Hnot eq_refl) as [[-> Hc]|[Hgt Hc]]; [congruence|].
        split; [exact Hgt|]. split; assumption.
      * apply Hstep.
        -- discriminate.
        -- intros _. right. split; [lia|]. replace (o + 1 - 1) with o by lia. exact Hw.
        -- intros k Hk [Hk1 Hk2]. destruct (Z.eq_dec k o) as [->|].
           ++ congruence.
           ++ apply (Hnone k); [lia|]. split; assumption.
Qed.

(** X9: one round of [advwcard] from offset [o] inside the array: at or past
    [Size] it leaves the offset alone; below [Size] it moves forward to the
    next index that starts a wildcard run (a wildcard whose predecessor is
    concrete), skipping the run it may have begun in, or to [Size] when no
    run starts after [o].  [AdvWcard(1)] then sets the tracked offset to
    that index and the cursor to [base + i] plus that index, whatever the
    cursor was; [AdvWcard(n)] for [n < 1] is [AdvWcard(1)]. *)
Theorem advwcard_next_run (p : Pattern) (o : Z) :
  length (Bytes p) = Z.to_nat MAX_PATTERN_LENGTH ->
  0 <= Size p <= MAX_PATTERN_LENGTH -> 0 <= o < MAX_PATTERN_LENGTH ->
  exists o',
    advwcard_set p (Ret o) = Ret o'
    /\ (Size p <= o -> o' = o)
    /\ (o < Size p ->
        o < o' <= Size p
        /\ (o' < Size p -> run_start p o')
        /\ forall k, o < k < o' -> ~ run_start p k)
    /\ (forall m base i st, offsetFromMatch st = o ->
          PatternScan.exec p m base i (AdvWcard 1) st
          = Ret (mkVState (wrap64 (base + i + o')) (instructionsFailed st) (addrStore st) o'))
    /\ (forall n, n <= 1 -> AdvWcard n = AdvWcard 1).
Proof.
  intros Hl Hs Ho.
  assert (Hsz : to_signed 64 (Size p) = Size p)
    by (apply to_signed_small; unfold MAX_PATTERN_LENGTH in *; lia).
  assert (Hrun : exists o', advwcard_set p (Ret o) = Ret o'
            /\ (Size p <= o -> o' = o)
            /\ (o < Size p -> o < o' <= Size p /\ (o' < Size p -> run_start p o')
                              /\ forall k, o < k < o' -> ~ run_start p k)).
  { unfold advwcard_set. cbn [obind]. rewrite Bytes_read_ok by assumption. cbn [obind].
    rewrite Hsz. fold (isW p o).
    destruct (Z.le_gt_cases (Size p) o) as [Hge|Hlt].
    - replace (Z.to_nat (Size p - o)) with 0%nat by lia. cbn.
      exists o. split; [reflexivity|]. split; [reflexivity|]. intros; lia.
    - destruct (advwcard_while_spec p o Hl Hs ltac:(lia)
                  (Z.to_nat (Size p - o)) o (isW p o) eq_refl ltac:(lia))
        as (o' & Heq & Hrange & Hstart & Hnone).
      + intros _ k Hk. lia.
      + intros Hw. left. split; [reflexivity|exact Hw].
      + intros k Hk. lia.
      + exists o'. split; [exact Heq|]. split; [intros; lia|]. intros _.
        assert (Hgt : o < o').
        { destruct (Z.lt_ge_cases o' (Size p)) as [Hl'|]; [|lia].
          apply Hstart in Hl'. lia. }
        split; [lia|]. split; [|exact Hnone]. intros Hl'. apply Hstart. exact Hl'. }
  destruct Hrun as (o' & Hset & Hge & Hlt). exists o'.
  split; [exact Hset|]. split; [exact Hge|]. split; [exact Hlt|]. split.
  - intros m base i st Hoff. unfold PatternScan.exec.
    cbn [AdvWcard Instruction_val Operation IValue]. change (Z.max 1 1) with 1.
    cbn [Z.iter Pos.iter]. rewrite Hoff, Hset. reflexivity.
  - intros n Hn. unfold AdvWcard. rewrite Z.max_l by lia. reflexivity.
Qed.

Lemma advwcard_next_run_witness :
  exists o',
    advwcard_set (pattern_of "41 B8 ? ? ? ? 48 8D 15 ? ? ? ?") (Ret 2) = Ret o'
    /\ (2 < Size (pattern_of "41 B8 ? ? ? ? 48 8D 15 ? ? ? ?") ->
        2 < o' <= Size (pattern_of "41 B8 ? ? ? ? 48 8D 15 ? ? ? ?")).
Proof.
  destruct (advwcard_next_run (pattern_of "41 B8 ? ? ? ? 48 8D 15 ? ? ? ?") 2)
    as (o' & Hset & _ & Hlt & _).
  - vm_compute. reflexivity.
  - vm_compute. split; discriminate.
  - vm_compute. split; [discriminate|reflexivity].
  - exists o'. split; [exact Hset|]. intros H. exact (proj1 (Hlt H)).
Defined.

(** The README pattern: from the first wildcard run the next run starts at
    offset 9, and a second round reaches [Size]. *)
Example advwcard_README :
  advwcard_set (pattern_of "41 B8 ? ? ? ? 48 8D 15 ? ? ? ?") (Ret 2) = Ret 9
  /\ advwcard_set (pattern_of "41 B8 ? ? ? ? 48 8D 15 ? ? ? ?") (Ret 0) = Ret 2
  /\ advwcard_set (pattern_of "41 B8 ? ? ? ? 48 8D 15 ? ? ? ?") (Ret 9) = Ret 13.
Proof. repeat split; vm_compute; reflexivity. Qed.

(** ** Instructions as values *)

(** X10: copy assignment keeps what the interpreter reads: the instruction
    assigned behaves, in both revisions and from every state, as the one it
    was assigned from, whatever the target held before; an instruction
    built by one of the helper functions is copied field for field; and
    assigning the copy again changes nothing. *)
Theorem Instruction_assign_faithful (this aOther : Instruction) :
  let copy := Instruction_assign this aOther false in
  (forall P m base i st,
     PatternScan.exec P m base i copy st = PatternScan.exec P m base i aOther st)
  /\ (forall m st, DataScan.exec m copy st = DataScan.exec m aOther st)
  /\ (helper_built aOther -> copy = aOther)
  /\ (forall other, Instruction_assign other copy false = copy).
Proof.
  cbn zeta. unfold Instruction_assign.
  destruct aOther as [op v s w]. cbn [Operation IValue IString IWString].
  repeat split.
  - intros P m base i st. destruct op; reflexivity.
  - intros m st. destruct op; reflexivity.
  - intros Hb. inversion Hb; subst; reflexivity.
  - intros other. destruct op; reflexivity.
Qed.

Lemma Instruction_assign_faithful_witness :
  helper_built (Strcmp "CEventHandler")
  /\ Instruction_assign (Offset 9) (Strcmp "CEventHandler") false = Strcmp "CEventHandler".
Proof.
  split; [constructor|].
  exact (proj1 (proj2 (proj2 (Instruction_assign_faithful (Offset 9) (Strcmp "CEventHandler"))))
           (built_Strcmp "CEventHandler")).
Defined.

(** X11: [PopAddr] restores the cursor and nothing else: in [PatternScan], after
    [PushAddr], [Offset(a)], [PopAddr] the cursor and the stack are what
    they were but the tracked offset from the match stays advanced by [a],
    so a later [AdvWcard] counts from there; in [DataScan], which tracks no
    offset, the three instructions leave the state unchanged. *)
Theorem pop_keeps_tracked_offset (a : Z) (rest : list Instruction) (st : VState) :
  instructionsFailed st = 0 ->
  (forall P m base i,
     run_instructions (PatternScan.exec P m base i) (PushAddr :: Offset a :: PopAddr :: rest) st
     = run_instructions (PatternScan.exec P m base i) rest
         (mkVState (resultAddr st) 0 (addrStore st)
                   (to_signed 64 (offsetFromMatch st + a))))
  /\ (forall m,
        run_instructions (DataScan.exec m) (PushAddr :: Offset a :: PopAddr :: rest) st
        = run_instructions (DataScan.exec m) rest st).
Proof.
  intros Hf. destruct st as [c f stack off]. cbn [instructionsFailed] in Hf. subst f.
  split.
  - intros P m base i. cbn [run_instructions].
    change (PatternScan.exec P m base i PushAddr (mkVState c 0 stack off))
      with (Ret (mkVState c 0 (stack ++ [c]) off)).
    cbn [obind instructionsFailed Z.eqb negb].
    change (PatternScan.exec P m base i (Offset a) (mkVState c 0 (stack ++ [c]) off))
      with (Ret (mkVState (ptr_add c a) 0 (stack ++ [c]) (to_signed 64 (off + a)))).
    cbn [obind instructionsFailed Z.eqb negb].
    change (PatternScan.exec P m base i PopAddr ?s) with (pop_addr s).
    unfold pop_addr. cbn [addrStore]. rewrite last_snoc, removelast_last.
    reflexivity.
  - intros m. cbn [run_instructions].
    change (DataScan.exec m PushAddr (mkVState c 0 stack off))
      with (Ret (mkVState c 0 (stack ++ [c]) off)).
    cbn [obind instructionsFailed Z.eqb negb].
    change (DataScan.exec m (Offset a) (mkVState c 0 (stack ++ [c]) off))
      with (Ret (mkVState (ptr_add c a) 0 (stack ++ [c]) off)).
    cbn [obind instructionsFailed Z.eqb negb].
    change (DataScan.exec m PopAddr ?s) with (pop_addr s).
    unfold pop_addr. cbn [addrStore]. rewrite last_snoc, removelast_last.
    reflexivity.
Qed.

Lemma pop_keeps_tracked_offset_witness :
  instructionsFailed (PatternScan.attempt_init 0x1000 0) = 0
  /\ run_instructions
       (PatternScan.exec (pattern_of "E8 ? ? ? ?") (image_memory 0x1000 [0xE8]) 0x1000 0)
       [PushAddr; Offset 1; PopAddr] (PatternScan.attempt_init 0x1000 0)
     = Ret (mkVState 0x1000 0 [] 1).
Proof.
  split; [reflexivity|].
  exact (proj1 (pop_keeps_tracked_offset 1 [] (PatternScan.attempt_init 0x1000 0) eq_refl)
           (pattern_of "E8 ? ? ? ?") (image_memory 0x1000 [0xE8]) 0x1000 0).
Defined.

(** ** Scan *)

(** The candidate loop returns the result of the first offset, in order,
    where the pattern matches and the attempt succeeds; until then its
    result stays null. *)
Lemma candidate_loop_first Assembly m attempt :
  (forall base j st, attempt base j = Ret st -> instructionsFailed st <> 0 ->
                     resultAddr st = nullptr) ->
  forall n base i tested r t,
    candidate_loop Assembly m attempt n base i nullptr tested = Ret (r, t) ->
    (r = nullptr /\ t = tested ++ seqZ i (Z.of_nat n)
     /\ forall j, i <= j < i + Z.of_nat n -> ~ verified_at Assembly m attempt base j)
    \/ (exists k st,
          0 <= k < Z.of_nat n /\ t = tested ++ seqZ i (k + 1)
          /\ Pattern_eq Assembly (deref m (ptr_add base (i + k))) = true
          /\ attempt base (i + k) = Ret st /\ instructionsFailed st = 0
          /\ r = resultAddr st
          /\ forall j, i <= j < i + k -> ~ verified_at Assembly m attempt base j).
Proof.
  intros Hfail. induction n as [|n IH]; intros base i tested r t.
  - cbn. intros [= <- <-]. left. split; [reflexivity|]. split.
    + cbn. rewrite app_nil_r. reflexivity.
    + intros j Hj. lia.
  - cbn [candidate_loop].
    assert (Hnext : ~ verified_at Assembly m attempt base i ->
              candidate_loop Assembly m attempt n base (i + 1) nullptr (tested ++ [i])
              = Ret (r, t) ->
              (r = nullptr /\ t = tested ++ seqZ i (Z.of_nat (S n))
               /\ forall j, i <= j < i + Z.of_nat (S n) ->
                            ~ verified_at Assembly m attempt base j)
              \/ (exists k st,
                    0 <= k < Z.of_nat (S n) /\ t = tested ++ seqZ i (k + 1)
                    /\ Pattern_eq Assembly (deref m (ptr_add base (i + k))) = true
                    /\ attempt base (i + k) = Ret st /\ instructionsFailed st = 0
                    /\ r = resultAddr st
                    /\ forall j, i <= j < i + k -> ~ verified_at Assembly m attempt base j)).
    { intros Hno Hrun. destruct (IH _ _ _ _ _ Hrun)
        as [(-> & -> & Hnone)|(k & st & Hk & -> & Hm & Hst & Hf & -> & Hnone)].
      - left. split; [reflexivity|]. split.
        + rewrite <- app_assoc, seqZ_S. reflexivity.
        + intros j Hj. destruct (Z.eq_dec j i) as [->|]; [exact Hno|]. apply Hnone. lia.
      - right. exists (k + 1), st. split; [lia|]. split.
        + rewrite <- app_assoc. f_equal.
          rewrite (seqZ_cons i (k + 1 + 1)) by lia. cbn [app]. f_equal. f_equal; lia.
        + replace (i + (k + 1)) with (i + 1 + k) by lia.
          repeat (split; [assumption || reflexivity|]).
          intros j Hj. destruct (Z.eq_dec j i) as [->|]; [exact Hno|]. apply Hnone. lia. }
    destruct (Pattern_eq Assembly (deref m (ptr_add base i))) eqn:Hm.
    2:{ apply Hnext. intros [Hc _]. congruence. }
    destruct (attempt base i) as [st| |] eqn:Hst; cbn [obind]; try discriminate.
    destruct (Z.eqb_spec (instructionsFailed st) 0) as [Hf|Hf].
    + intros [= <- <-]. right. exists 0, st. rewrite Z.add_0_r.
      repeat (split; [assumption || reflexivity || lia|]).
      intros j Hj. lia.
    + rewrite (Hfail _ _ _ Hst Hf). apply Hnext.
      intros (_ & st' & Hst' & Hf'). congruence.
Qed.

Lemma PatternScan_attempt_failed s m base j st :
  PatternScan.attempt s m base j = Ret st -> instructionsFailed st <> 0 ->
  resultAddr st = nullptr.
Proof.
  intros Hrun Hf. unfold PatternScan.attempt in Hrun.
  destruct (run_instructions_verdict _ (PatternScan_exec_counter _ _ _ _) _
              (PatternScan.attempt_init base j) st eq_refl Hrun)
    as [[H0|[_ Hr]] _]; [contradiction|exact Hr].
Qed.

Lemma DataScan_attempt_failed s m base j st :
  DataScan.attempt s m base j = Ret st -> instructionsFailed st <> 0 ->
  resultAddr st = nullptr.
Proof.
  intros Hrun Hf. unfold DataScan.attempt in Hrun.
  destruct (run_instructions_verdict _ (DataScan_exec_counter _) _
              (DataScan.attempt_init base j) st eq_refl Hrun)
    as [[H0|[_ Hr]] _]; [contradiction|exact Hr].
Qed.

Lemma last_candidates (trace : list Candidate) base k :
  0 <= k -> last (trace ++ map (pair base) (seqZ 0 (k + 1))) = Some (base, k).
Proof.
  intros Hk. rewrite (seqZ_app 0 k 1) by lia. cbn [seqZ].
  change (seqZ (0 + k) 1) with [0 + k]. rewrite map_app, app_assoc. cbn [map].
  rewrite last_snoc. reflexivity.
Qed.

Lemma PatternScan_scan_while_sound s h fuel : forall addr trace r tr,
  PatternScan.scan_while fuel s h addr nullptr trace = Ret (r, tr) -> r <> nullptr ->
  exists a mbi k st,
    VirtualQuery h a = Some mbi
    /\ PatternScan.region_skipped (Size (PatternScan.Assembly s)) mbi = false
    /\ 0 <= k < wrap64 (RegionSize mbi - Size (PatternScan.Assembly s))
    /\ Pattern_eq (PatternScan.Assembly s)
                  (deref (memory h) (ptr_add (BaseAddress mbi) k)) = true
    /\ PatternScan.attempt s (memory h) (BaseAddress mbi) k = Ret st
    /\ instructionsFailed st = 0 /\ r = resultAddr st
    /\ (forall j, 0 <= j < k ->
          ~ verified_at (PatternScan.Assembly s) (memory h) (PatternScan.attempt s (memory h))
                        (BaseAddress mbi) j)
    /\ last tr = Some (BaseAddress mbi, k).
Proof.
  induction fuel as [|fuel IH]; intros addr trace r tr; [discriminate|].
  cbn [PatternScan.scan_while]. change (nullptr =? nullptr) with true. cbn iota.
  destruct (VirtualQuery h addr) as [mbi|] eqn:Hq.
  2:{ intros [= <- <-] Hr. contradiction. }
  destruct (PatternScan.region_skipped (Size (PatternScan.Assembly s)) mbi) eqn:Hskip.
  { apply IH. }
  destruct (candidate_loop _ _ _ _ _ _ _ _) as [[r1 t1]| |] eqn:Hloop; cbn [obind];
    try discriminate.
  cbn [fst snd].
  destruct (candidate_loop_first _ _ _ (PatternScan_attempt_failed s (memory h)) _ _ _ _ _ _ Hloop)
    as [(-> & _ & _)|(k & st & Hk & Ht & Hm & Hst & Hf & Hr1 & Hnone)].
  { apply IH. }
  destruct (Z.eq_dec r1 nullptr) as [->|Hne]; [apply IH|].
  destruct fuel as [|fuel']; [discriminate|]. cbn [PatternScan.scan_while].
  destruct (Z.eqb_spec r1 nullptr) as [|_]; [contradiction|].
  intros [= <- <-] _. exists addr, mbi, k, st.
  rewrite Z.add_0_l in *. cbn [app] in Ht. subst t1.
  repeat (split; [assumption || lia|]).
  apply last_candidates. lia.
Qed.

Lemma DataScan_scan_while_sound s h fuel : forall addr trace r tr,
  DataScan.scan_while fuel s h addr nullptr trace = Ret (r, tr) -> r <> nullptr ->
  exists a mbi k st,
    VirtualQuery h a = Some mbi /\ DataScan.in_module h a = true
    /\ DataScan.region_skipped (Size (DataScan.Assembly s)) mbi = false
    /\ 0 <= k < wrap64 (RegionSize mbi - Size (DataScan.Assembly s))
    /\ Pattern_eq (DataScan.Assembly s)
                  (deref (memory h) (ptr_add (BaseAddress mbi) k)) = true
    /\ DataScan.attempt s (memory h) (BaseAddress mbi) k = Ret st
    /\ instructionsFailed st = 0 /\ r = resultAddr st
    /\ (forall j, 0 <= j < k ->
          ~ verified_at (DataScan.Assembly s) (memory h) (DataScan.attempt s (memory h))
                        (BaseAddress mbi) j)
    /\ last tr = Some (BaseAddress mbi, k).
Proof.
  induction fuel as [|fuel IH]; intros addr trace r tr; [discriminate|].
  cbn [DataScan.scan_while]. change (nullptr =? nullptr) with true. cbn iota.
  destruct (VirtualQuery h addr) as [mbi|] eqn:Hq.
  2:{ intros [= <- <-] Hr. contradiction. }
  destruct (DataScan.in_module h addr) eqn:Hin; cbn [negb].
  2:{ intros [= <- <-] Hr. contradiction. }
  destruct (DataScan.region_skipped (Size (DataScan.Assembly s)) mbi) eqn:Hskip.
  { apply IH. }
  destruct (candidate_loop _ _ _ _ _ _ _ _) as [[r1 t1]| |] eqn:Hloop; cbn [obind];
    try discriminate.
  cbn [fst snd].
  destruct (candidate_loop_first _ _ _ (DataScan_attempt_failed s (memory h)) _ _ _ _ _ _ Hloop)
    as [(-> & _ & _)|(k & st & Hk & Ht & Hm & Hst & Hf & Hr1 & Hnone)].
  { apply IH. }
  destruct (Z.eq_dec r1 nullptr) as [->|Hne]; [apply IH|].
  destruct fuel as [|fuel']; [discriminate|]. cbn [DataScan.scan_while].
  destruct (Z.eqb_spec r1 nullptr) as [|_]; [contradiction|].
  intros [= <- <-] _. exists addr, mbi, k, st.
  rewrite Z.add_0_l in *. cbn [app] in Ht. subst t1.
  repeat (split; [assumption || lia|]).
  apply last_candidates. lia.
Qed.

(** ** The final window of an accepted region *)

(** A region that passes the guards is at least as large as the pattern. *)
Lemma PatternScan_accepted_size size mbi :
  PatternScan.region_skipped size mbi = false -> size <= RegionSize mbi.
Proof.
  unfold PatternScan.region_skipped.
  destruct (Z.gtb_spec size (RegionSize mbi)) as [Hgt|Hle]; [discriminate|].
  intros _. exact Hle.
Qed.

Lemma DataScan_accepted_size size mbi :
  DataScan.region_skipped size mbi = false -> size <= RegionSize mbi.
Proof.
  unfold DataScan.region_skipped.
  destruct (Z.gtb_spec size (RegionSize mbi)) as [Hgt|Hle]; [discriminate|].
  intros _. exact Hle.
Qed.

(** While every candidate is given up, the loop goes through all its
    offsets and its result stays null. *)
Lemma candidate_loop_all_rejected Assembly m attempt :
  (forall base j st, attempt base j = Ret st -> instructionsFailed st <> 0 ->
                     resultAddr st = nullptr) ->
  forall n base i tested,
    (forall j, i <= j < i + Z.of_nat n -> rejected_at Assembly m attempt base j) ->
    candidate_loop Assembly m attempt n base i nullptr tested
    = Ret (nullptr, tested ++ seqZ i (Z.of_nat n)).
Proof.
  intros Hfail. induction n as [|n IH]; intros base i tested Hno.
  - cbn. rewrite app_nil_r. reflexivity.
  - cbn [candidate_loop].
    assert (Hrest : candidate_loop Assembly m attempt n base (i + 1) nullptr (tested ++ [i])
                    = Ret (nullptr, tested ++ seqZ i (Z.of_nat (S n)))).
    { rewrite IH by (intros j Hj; apply Hno; lia).
      rewrite <- app_assoc, seqZ_S. reflexivity. }
    destruct (Hno i ltac:(lia)) as [Hm|(st & Hst & Hf)].
    + rewrite Hm. exact Hrest.
    + destruct (Pattern_eq Assembly (deref m (ptr_add base i))); [|exact Hrest].
      rewrite Hst. cbn [obind].
      destruct (Z.eqb_spec (instructionsFailed st) 0) as [He|_]; [contradiction|].
      rewrite (Hfail _ _ _ Hst Hf). exact Hrest.
Qed.

(** The walk only ever appends to its trace. *)
Lemma PatternScan_scan_while_trace s h fuel : forall addr result trace r tr,
  PatternScan.scan_while fuel s h addr result trace = Ret (r, tr) ->
  exists rest, tr = trace ++ rest.
Proof.
  induction fuel as [|fuel IH]; intros addr result trace r tr; [discriminate|].
  cbn [PatternScan.scan_while].
  destruct (result =? nullptr).
  2:{ intros [= <- <-]. exists []. rewrite app_nil_r. reflexivity. }
  destruct (VirtualQuery h addr) as [mbi|].
  2:{ intros [= <- <-]. exists []. rewrite app_nil_r. reflexivity. }
  destruct (PatternScan.region_skipped (Size (PatternScan.Assembly s)) mbi); [apply IH|].
  destruct (candidate_loop _ _ _ _ _ _ _ _) as [[r1 t1]| |]; cbn [obind]; try discriminate.
  cbn [fst snd]. intros Hrun. destruct (IH _ _ _ _ _ Hrun) as (rest & ->).
  exists (map (pair (BaseAddress mbi)) t1 ++ rest). rewrite app_assoc. reflexivity.
Qed.

Lemma DataScan_scan_while_trace s h fuel : forall addr result trace r tr,
  DataScan.scan_while fuel s h addr result trace = Ret (r, tr) ->
  exists rest, tr = trace ++ rest.
Proof.
  induction fuel as [|fuel IH]; intros addr result trace r tr; [discriminate|].
  cbn [DataScan.scan_while].
  destruct (result =? nullptr).
  2:{ intros [= <- <-]. exists []. rewrite app_nil_r. reflexivity. }
  destruct (VirtualQuery h addr) as [mbi|].
  2:{ intros [= <- <-]. exists []. rewrite app_nil_r. reflexivity. }
  destruct (DataScan.in_module h addr); cbn [negb].
  2:{ intros [= <- <-]. exists []. rewrite app_nil_r. reflexivity. }
  destruct (DataScan.region_skipped (Size (DataScan.Assembly s)) mbi); [apply IH|].
  destruct (candidate_loop _ _ _ _ _ _ _ _) as [[r1 t1]| |]; cbn [obind]; try discriminate.
  cbn [fst snd]. intros Hrun. destruct (IH _ _ _ _ _ Hrun) as (rest & ->).
  exists (map (pair (BaseAddress mbi)) t1 ++ rest). rewrite app_assoc. reflexivity.
Qed.

(** One turn of the [while] loop of [PatternScan::Scan] over an accepted
    region: the byte loop runs over [RegionSize - Size] offsets. *)
Lemma PatternScan_scan_while_accepted s h addr mbi fuel trace :
  VirtualQuery h addr = Some mbi -> RegionSize mbi < 2 ^ 64 ->
  0 <= Size (PatternScan.Assembly s) ->
  PatternScan.region_skipped (Size (PatternScan.Assembly s)) mbi = false ->
  PatternScan.scan_while (S fuel) s h addr nullptr trace
  = let* r := candidate_loop (PatternScan.Assembly s) (memory h)
                (PatternScan.attempt s (memory h))
                (Z.to_nat (RegionSize mbi - Size (PatternScan.Assembly s)))
                (BaseAddress mbi) 0 nullptr [] in
    PatternScan.scan_while fuel s h (ptr_add addr (RegionSize mbi)) (fst r)
      (trace ++ map (pair (BaseAddress mbi)) (snd r)).
Proof.
  intros Hq Hlt Hs Hacc. pose proof (PatternScan_accepted_size _ _ Hacc) as Hle.
  cbn [PatternScan.scan_while]. change (nullptr =? nullptr) with true. cbn iota.
  rewrite Hq, Hacc. rewrite wrap64_small by lia. reflexivity.
Qed.

Lemma DataScan_scan_while_accepted s h addr mbi fuel trace :
  VirtualQuery h addr = Some mbi -> RegionSize mbi < 2 ^ 64 ->
  DataScan.in_module h addr = true ->
  0 <= Size (DataScan.Assembly s) ->
  DataScan.region_skipped (Size (DataScan.Assembly s)) mbi = false ->
  DataScan.scan_while (S fuel) s h addr nullptr trace
  = let* r := candidate_loop (DataScan.Assembly s) (memory h)
                (DataScan.attempt s (memory h))
                (Z.to_nat (RegionSize mbi - Size (DataScan.Assembly s)))
                (BaseAddress mbi) 0 nullptr [] in
    DataScan.scan_while fuel s h (ptr_add addr (RegionSize mbi)) (fst r)
      (trace ++ map (pair (BaseAddress mbi)) (snd r)).
Proof.
  intros Hq Hlt Hin Hs Hacc. pose proof (DataScan_accepted_size _ _ Hacc) as Hle.
  cbn [DataScan.scan_while]. change (nullptr =? nullptr) with true. cbn iota.
  rewrite Hq, Hin. cbn [negb]. rewrite Hacc. rewrite wrap64_small by lia. reflexivity.
Qed.

(** What the byte loop of an accepted region leaves behind, whatever the
    attempt function, provided a failed attempt leaves a null result. *)
Lemma candidate_loop_region Assembly m attempt :
  (forall base j st, attempt base j = Ret st -> instructionsFailed st <> 0 ->
                     resultAddr st = nullptr) ->
  forall end_ base r t,
    0 <= end_ ->
    candidate_loop Assembly m attempt (Z.to_nat end_) base 0 nullptr [] = Ret (r, t) ->
    exists k, 0 <= k <= end_ /\ t = seqZ 0 k
      /\ (k = end_ /\ r = nullptr
          \/ exists st, attempt base (k - 1) = Ret st /\ instructionsFailed st = 0
                        /\ r = resultAddr st).
Proof.
  intros Hfail end_ base r t Hend Hloop.
  destruct (candidate_loop_first _ _ _ Hfail _ _ _ _ _ _ Hloop)
    as [(-> & Ht & _)|(k & st & Hk & Ht & _ & Hst & Hf & Hr & _)];
    cbn [app] in Ht; rewrite ?Z2Nat.id in * by lia.
  - exists end_. split; [lia|]. split; [exact Ht|]. left. split; reflexivity.
  - exists (k + 1). split; [lia|]. split; [exact Ht|]. right. exists st.
    replace (k + 1 - 1) with (0 + k) by lia. auto.
Qed.

(** C10: take a region the walk accepts (committed, of [RegionSize >= Size]
    bytes, with an accepted protection), queried at [addr] while the result
    is still null.  In [PatternScan::Scan] and in [DataScan::Scan] alike, the
    turn of the [while] loop over that region compares the pattern at the
    offsets [0 .. k - 1] of the region and at no other, for some
    [k <= RegionSize - Size]: whenever the scan returns, its trace is the
    trace so far, then these candidates, then those of the regions walked
    afterwards; and [k] is [RegionSize - Size] unless the attempt at offset
    [k - 1] succeeded.  When every candidate below [RegionSize - Size] is
    given up (no match, or a failed attempt), the candidates compared are
    exactly [0 .. RegionSize - Size - 1], the result stays null and the walk
    goes on at the next address, whatever the bytes of the final window, at
    offset [RegionSize - Size], are; when the walk stops at that next address
    the scan returns null: a pattern whose only occurrence is the final
    window of the region is not found. *)
Theorem scan_skips_final_window (h : Host) (addr : Z) (mbi : MEMORY_BASIC_INFORMATION) :
  VirtualQuery h addr = Some mbi -> RegionSize mbi < 2 ^ 64 ->
  let base := BaseAddress mbi in
  let next := ptr_add addr (RegionSize mbi) in
  (forall s : PatternScan.t,
     let end_ := RegionSize mbi - Size (PatternScan.Assembly s) in
     0 <= Size (PatternScan.Assembly s) ->
     PatternScan.region_skipped (Size (PatternScan.Assembly s)) mbi = false ->
     (forall fuel trace r tr,
        PatternScan.scan_while (S fuel) s h addr nullptr trace = Ret (r, tr) ->
        exists k r1 rest,
          0 <= k <= end_
          /\ tr = trace ++ map (pair base) (seqZ 0 k) ++ rest
          /\ PatternScan.scan_while fuel s h next r1 (trace ++ map (pair base) (seqZ 0 k))
             = Ret (r, tr)
          /\ (k = end_ /\ r1 = nullptr
              \/ exists st, PatternScan.attempt s (memory h) base (k - 1) = Ret st
                            /\ instructionsFailed st = 0 /\ r1 = resultAddr st))
     /\ ((forall i, 0 <= i < end_ ->
            rejected_at (PatternScan.Assembly s) (memory h)
                        (PatternScan.attempt s (memory h)) base i) ->
         (forall fuel trace,
            PatternScan.scan_while (S fuel) s h addr nullptr trace
            = PatternScan.scan_while fuel s h next nullptr
                (trace ++ map (pair base) (seqZ 0 end_)))
         /\ (VirtualQuery h next = None ->
             forall fuel trace,
               PatternScan.scan_while (S (S fuel)) s h addr nullptr trace
               = Ret (nullptr, trace ++ map (pair base) (seqZ 0 end_)))))
  /\ (forall s : DataScan.t,
        let end_ := RegionSize mbi - Size (DataScan.Assembly s) in
        0 <= Size (DataScan.Assembly s) ->
        DataScan.in_module h addr = true ->
        DataScan.region_skipped (Size (DataScan.Assembly s)) mbi = false ->
        (forall fuel trace r tr,
           DataScan.scan_while (S fuel) s h addr nullptr trace = Ret (r, tr) ->
           exists k r1 rest,
             0 <= k <= end_
             /\ tr = trace ++ map (pair base) (seqZ 0 k) ++ rest
             /\ DataScan.scan_while fuel s h next r1 (trace ++ map (pair base) (seqZ 0 k))
                = Ret (r, tr)
             /\ (k = end_ /\ r1 = nullptr
                 \/ exists st, DataScan.attempt s (memory h) base (k - 1) = Ret st
                               /\ instructionsFailed st = 0 /\ r1 = resultAddr st))
        /\ ((forall i, 0 <= i < end_ ->
               rejected_at (DataScan.Assembly s) (memory h)
                           (DataScan.attempt s (memory h)) base i) ->
            (forall fuel trace,
               DataScan.scan_while (S fuel) s h addr nullptr trace
               = DataScan.scan_while fuel s h next nullptr
                   (trace ++ map (pair base) (seqZ 0 end_)))
            /\ (VirtualQuery h next = None ->
                forall fuel trace,
                  DataScan.scan_while (S (S fuel)) s h addr nullptr trace
                  = Ret (nullptr, trace ++ map (pair base) (seqZ 0 end_))))).
Proof.
  intros Hq Hlt base next. split.
  - intros s end_ Hs Hacc.
    pose proof (PatternScan_accepted_size _ _ Hacc) as Hle.
    assert (Hend : 0 <= end_) by (unfold end_; lia).
    split.
    + intros fuel trace r tr.
      rewrite (PatternScan_scan_while_accepted s h addr mbi fuel trace Hq Hlt Hs Hacc).
      destruct (candidate_loop _ _ _ _ _ _ _ _) as [[r1 t1]| |] eqn:Hloop; cbn [obind];
        try discriminate.
      cbn [fst snd]. intros Hrun.
      destruct (candidate_loop_region _ _ _ (PatternScan_attempt_failed s (memory h))
                  _ _ _ _ Hend Hloop) as (k & Hk & -> & Hlast).
      destruct (PatternScan_scan_while_trace _ _ _ _ _ _ _ _ Hrun) as (rest & Htr).
      exists k, r1, rest. split; [exact Hk|]. split.
      { rewrite Htr, <- app_assoc. reflexivity. }
      split; [exact Hrun|exact Hlast].
    + intros Hno.
      assert (Hstep : forall fuel trace,
                PatternScan.scan_while (S fuel) s h addr nullptr trace
                = PatternScan.scan_while fuel s h next nullptr
                    (trace ++ map (pair base) (seqZ 0 end_))).
      { intros fuel trace.
        rewrite (PatternScan_scan_while_accepted s h addr mbi fuel trace Hq Hlt Hs Hacc).
        rewrite (candidate_loop_all_rejected _ _ _ (PatternScan_attempt_failed s (memory h)))
          by (intros j Hj; apply Hno; rewrite Z2Nat.id in Hj by lia; lia).
        cbn [obind fst snd app]. rewrite Z2Nat.id by lia. reflexivity. }
      split; [exact Hstep|].
      intros Hnone fuel trace. rewrite Hstep.
      cbn [PatternScan.scan_while]. change (nullptr =? nullptr) with true. cbn iota.
      rewrite Hnone. reflexivity.
  - intros s end_ Hs Hin Hacc.
    pose proof (DataScan_accepted_size _ _ Hacc) as Hle.
    assert (Hend : 0 <= end_) by (unfold end_; lia).
    split.
    + intros fuel trace r tr.
      rewrite (DataScan_scan_while_accepted s h addr mbi fuel trace Hq Hlt Hin Hs Hacc).
      destruct (candidate_loop _ _ _ _ _ _ _ _) as [[r1 t1]| |] eqn:Hloop; cbn [obind];
        try discriminate.
      cbn [fst snd]. intros Hrun.
      destruct (candidate_loop_region _ _ _ (DataScan_attempt_failed s (memory h))
                  _ _ _ _ Hend Hloop) as (k & Hk & -> & Hlast).
      destruct (DataScan_scan_while_trace _ _ _ _ _ _ _ _ Hrun) as (rest & Htr).
      exists k, r1, rest. split; [exact Hk|]. split.
      { rewrite Htr, <- app_assoc. reflexivity. }
      split; [exact Hrun|exact Hlast].
    + intros Hno.
      assert (Hstep : forall fuel trace,
                DataScan.scan_while (S fuel) s h addr nullptr trace
                = DataScan.scan_while fuel s h next nullptr
                    (trace ++ map (pair base) (seqZ 0 end_))).
      { intros fuel trace.
        rewrite (DataScan_scan_while_accepted s h addr mbi fuel trace Hq Hlt Hin Hs Hacc).
        rewrite (candidate_loop_all_rejected _ _ _ (DataScan_attempt_failed s (memory h)))
          by (intros j Hj; apply Hno; rewrite Z2Nat.id in Hj by lia; lia).
        cbn [obind fst snd app]. rewrite Z2Nat.id by lia. reflexivity. }
      split; [exact Hstep|].
      intros Hnone fuel trace. rewrite Hstep.
      cbn [DataScan.scan_while]. change (nullptr =? nullptr) with true. cbn iota.
      rewrite Hnone. reflexivity.
Qed.

Lemma scan_skips_final_window_witness :
  let h := one_region_host 0x1000 PAGE_EXECUTE_READ [0x00; 0x00; 0x00; 0x00; 0x1A; 0x2B] in
  let P := pattern_of "1A 2B" in
  Pattern_eq P (deref (memory h) (ptr_add 0x1000 (6 - 2))) = true
  /\ PatternScan.scan_while 2 (PatternScan.mk P (replicate 16 Instruction_default) 0)
       h 0x1000 nullptr []
     = Ret (nullptr, [(0x1000, 0); (0x1000, 1); (0x1000, 2); (0x1000, 3)])
  /\ DataScan.scan_while 2 (DataScan.ctor P []) h 0x1000 nullptr []
     = Ret (nullptr, [(0x1000, 0); (0x1000, 1); (0x1000, 2); (0x1000, 3)]).
Proof.
  intros h P.
  assert (Hno : forall i, 0 <= i < 6 - 2 ->
            Pattern_eq P (deref (memory h) (ptr_add 0x1000 i)) = false).
  { intros i Hi. assert (Hc : i = 0 \/ i = 1 \/ i = 2 \/ i = 3) by lia.
    destruct Hc as [-> | [-> | [-> | ->]]]; vm_compute; reflexivity. }
  destruct (scan_skips_final_window h 0x1000 (mkMBI 0x1000 6 MEM_COMMIT PAGE_EXECUTE_READ))
    as [HP HD].
  - reflexivity.
  - reflexivity.
  - split; [vm_compute; reflexivity|]. split.
    + apply (HP (PatternScan.mk P (replicate 16 Instruction_default) 0)).
      * vm_compute. discriminate.
      * vm_compute. reflexivity.
      * intros i Hi. left. apply Hno. exact Hi.
      * reflexivity.
    + apply (HD (DataScan.ctor P [])).
      * vm_compute. discriminate.
      * vm_compute. reflexivity.
      * vm_compute. reflexivity.
      * intros i Hi. left. apply Hno. exact Hi.
      * reflexivity.
Defined.

(** A pattern whose only occurrence ends at the last byte of the region is
    not found by either revision; moved one byte down it is found. *)
Example last_window_not_found :
  exists s, PatternScan.ctor (pattern_of "1A 2B") [] = Some s
    /\ PatternScan.Scan 3 s (one_region_host 0x1000 PAGE_EXECUTE_READ
                               [0x00; 0x00; 0x00; 0x00; 0x1A; 0x2B])
       = Ret (nullptr, [(0x1000, 0); (0x1000, 1); (0x1000, 2); (0x1000, 3)])
    /\ DataScan.Scan 2 (DataScan.ctor (pattern_of "1A 2B") [])
         (one_region_host 0x1000 PAGE_EXECUTE_READ [0x00; 0x00; 0x00; 0x00; 0x1A; 0x2B])
       = Ret (nullptr, [(0x1000, 0); (0x1000, 1); (0x1000, 2); (0x1000, 3)])
    /\ PatternScan.Scan 3 s (one_region_host 0x1000 PAGE_EXECUTE_READ
                               [0x00; 0x00; 0x00; 0x1A; 0x2B; 0x00])
       = Ret (0x1003, [(0x1000, 0); (0x1000, 1); (0x1000, 2); (0x1000, 3)]).
Proof. eexists. split; [vm_compute; reflexivity|]. repeat split; vm_compute; reflexivity. Qed.

(** X12: a scan never invents a result: when [Scan] returns an address that is
    not null, in either revision, that address is the final cursor of a
    successful attempt at an offset [k] where the pattern matches, in a
    region the walk accepted and below [RegionSize - Size]; it is the first
    such offset of that region, and the last candidate the scan compared.
    A pattern of [Size] 0 is never searched for: the result is null. *)
Theorem Scan_result_is_verified (fuel : nat) (h : Host) (r : Z) (tr : list Candidate) :
  r <> nullptr ->
  (forall s, PatternScan.Scan fuel s h = Ret (r, tr) ->
     exists a mbi k st,
       VirtualQuery h a = Some mbi
       /\ PatternScan.region_skipped (Size (PatternScan.Assembly s)) mbi = false
       /\ 0 <= k < wrap64 (RegionSize mbi - Size (PatternScan.Assembly s))
       /\ Pattern_eq (PatternScan.Assembly s)
                     (deref (memory h) (ptr_add (BaseAddress mbi) k)) = true
       /\ PatternScan.attempt s (memory h) (BaseAddress mbi) k = Ret st
       /\ instructionsFailed st = 0 /\ r = resultAddr st
       /\ (forall j, 0 <= j < k ->
             ~ verified_at (PatternScan.Assembly s) (memory h)
                           (PatternScan.attempt s (memory h)) (BaseAddress mbi) j)
       /\ last tr = Some (BaseAddress mbi, k))
  /\ (forall s, DataScan.Scan fuel s h = Ret (r, tr) ->
        exists a mbi k st,
          VirtualQuery h a = Some mbi /\ DataScan.in_module h a = true
          /\ DataScan.region_skipped (Size (DataScan.Assembly s)) mbi = false
          /\ 0 <= k < wrap64 (RegionSize mbi - Size (DataScan.Assembly s))
          /\ Pattern_eq (DataScan.Assembly s)
                        (deref (memory h) (ptr_add (BaseAddress mbi) k)) = true
          /\ DataScan.attempt s (memory h) (BaseAddress mbi) k = Ret st
          /\ instructionsFailed st = 0 /\ r = resultAddr st
          /\ (forall j, 0 <= j < k ->
                ~ verified_at (DataScan.Assembly s) (memory h)
                              (DataScan.attempt s (memory h)) (BaseAddress mbi) j)
          /\ last tr = Some (BaseAddress mbi, k))
  /\ (forall s, Size (PatternScan.Assembly s) = 0 -> PatternScan.Scan fuel s h = Ret (nullptr, []))
  /\ (forall s, Size (DataScan.Assembly s) = 0 -> DataScan.Scan fuel s h = Ret (nullptr, [])).
Proof.
  intros Hr. split; [|split; [|split]].
  - intros s. unfold PatternScan.Scan.
    destruct (Size (PatternScan.Assembly s) =? 0).
    + intros [= <- _]. contradiction.
    + intros Hrun. eapply PatternScan_scan_while_sound; eassumption.
  - intros s. unfold DataScan.Scan.
    destruct (Size (DataScan.Assembly s) =? 0).
    + intros [= <- _]. contradiction.
    + intros Hrun. eapply DataScan_scan_while_sound; eassumption.
  - intros s Hs. unfold PatternScan.Scan. rewrite Hs. reflexivity.
  - intros s Hs. unfold DataScan.Scan. rewrite Hs. reflexivity.
Qed.

Lemma Scan_result_is_verified_witness :
  let h := one_region_host 0x1000 PAGE_EXECUTE_READ [0x00; 0x1A; 0x2B; 0x00] in
  let s := DataScan.ctor (pattern_of "1A 2B") [Offset 1] in
  0x1002 <> nullptr
  /\ DataScan.Scan 2 s h = Ret (0x1002, [(0x1000, 0); (0x1000, 1)])
  /\ exists a mbi k st,
       VirtualQuery h a = Some mbi /\ DataScan.in_module h a = true
       /\ DataScan.attempt s (memory h) (BaseAddress mbi) k = Ret st
       /\ 0x1002 = resultAddr st.
Proof.
  intros h s. split; [discriminate|].
  assert (Hrun : DataScan.Scan 2 s h = Ret (0x1002, [(0x1000, 0); (0x1000, 1)]))
    by (vm_compute; reflexivity).
  split; [exact Hrun|].
  destruct (proj1 (proj2 (Scan_result_is_verified 2 h 0x1002 _ ltac:(discriminate))) s Hrun)
    as (a & mbi & k & st & Hq & Hin & _ & _ & _ & Hst & _ & Hres & _).
  exists a, mbi, k, st. repeat split; assumption.
Defined.

(** *** Termination *)

Lemma advwcard_while_fuel fuel : forall p o was, advwcard_while fuel p o was <> OutOfFuel.
Proof.
  induction fuel as [|fuel IH]; intros p o was; cbn [advwcard_while]; [discriminate|].
  destruct (o <? to_signed 64 (Size p)); [|discriminate].
  unfold Bytes_read.
  destruct ((0 <=? o) && (o <? MAX_PATTERN_LENGTH)); cbn [obind]; [|discriminate].
  destruct (Bytes p !! Z.to_nat o) as [b|]; cbn [obind]; [|discriminate].
  destruct (was && IsWildcard b); [apply IH|].
  destruct (negb was && IsWildcard b); [discriminate|apply IH].
Qed.

Lemma advwcard_set_fuel p x : x <> OutOfFuel -> advwcard_set p x <> OutOfFuel.
Proof.
  intros Hx. unfold advwcard_set. destruct x as [o| |]; cbn [obind];
    [|discriminate|contradiction].
  unfold Bytes_read.
  destruct ((0 <=? o) && (o <? MAX_PATTERN_LENGTH)); cbn [obind]; [|discriminate].
  destruct (Bytes p !! Z.to_nat o) as [b|]; cbn [obind]; [|discriminate].
  apply advwcard_while_fuel.
Qed.

Lemma compare_ok_fuel m inst st : compare_ok m inst st <> OutOfFuel.
Proof.
  unfold compare_ok. destruct (Operation inst); try discriminate.
  - destruct (IString inst); discriminate.
  - destruct (IWString inst); discriminate.
Qed.

Lemma pop_addr_fuel st : pop_addr st <> OutOfFuel.
Proof. unfold pop_addr. destruct (last (addrStore st)); discriminate. Qed.

Lemma PatternScan_exec_fuel P m base i inst st :
  PatternScan.exec P m base i inst st <> OutOfFuel.
Proof.
  unfold PatternScan.exec.
  destruct (Operation inst); try discriminate; try apply pop_addr_fuel;
    try (pose proof (compare_ok_fuel m inst st);
         destruct (compare_ok m inst st); cbn [obind]; congruence).
  assert (H : Z.iter (IValue inst) (advwcard_set P) (Ret (offsetFromMatch st)) <> OutOfFuel).
  { unfold Z.iter. destruct (IValue inst); try discriminate.
    apply Pos.iter_invariant; [|discriminate].
    intros x Hx. apply advwcard_set_fuel. exact Hx. }
  destruct (Z.iter (IValue inst) (advwcard_set P) (Ret (offsetFromMatch st)));
    cbn [obind]; congruence.
Qed.

Lemma DataScan_exec_fuel m inst st : DataScan.exec m inst st <> OutOfFuel.
Proof.
  unfold DataScan.exec.
  destruct (Operation inst); try discriminate; try apply pop_addr_fuel;
    try (pose proof (compare_ok_fuel m inst st);
         destruct (compare_ok m inst st); cbn [obind]; congruence).
Qed.

Lemma run_instructions_fuel exec insts :
  (forall inst st, exec inst st <> OutOfFuel) ->
  forall st, run_instructions exec insts st <> OutOfFuel.
Proof.
  intros Hexec. induction insts as [|inst l IH]; intros st; cbn [run_instructions];
    [discriminate|].
  pose proof (Hexec inst st). destruct (exec inst st) as [s1| |]; cbn [obind]; try congruence.
  destruct (negb (instructionsFailed s1 =? 0)); [discriminate|apply IH].
Qed.

Lemma candidate_loop_fuel Assembly m attempt n :
  (forall base j, attempt base j <> OutOfFuel) ->
  forall base i result tested,
    candidate_loop Assembly m attempt n base i result tested <> OutOfFuel.
Proof.
  intros Hatt. induction n as [|n IH]; intros base i result tested; cbn [candidate_loop];
    [discriminate|].
  destruct (Pattern_eq Assembly (deref m (ptr_add base i))); [|apply IH].
  pose proof (Hatt base i). destruct (attempt base i) as [st| |]; cbn [obind]; try congruence.
  destruct (instructionsFailed st =? 0); [discriminate|apply IH].
Qed.

Lemma PatternScan_scan_while_ends s h limit :
  (forall a, limit <= a -> VirtualQuery h a = None) ->
  (forall a mbi, VirtualQuery h a = Some mbi ->
                 0 < RegionSize mbi /\ a + RegionSize mbi < 2 ^ 64) ->
  forall fuel addr result trace,
    0 <= addr -> (1 <= fuel)%nat -> limit - addr + 2 <= Z.of_nat fuel ->
    PatternScan.scan_while fuel s h addr result trace <> OutOfFuel.
Proof.
  intros Hend Hpos. induction fuel as [|fuel IH]; intros addr result trace Ha H1 Hfuel; [lia|].
  cbn [PatternScan.scan_while].
  destruct (result =? nullptr); [|discriminate].
  destruct (VirtualQuery h addr) as [mbi|] eqn:Hq; [|discriminate].
  assert (Hlt : addr < limit).
  { destruct (Z.lt_ge_cases addr limit) as [|Hge]; [assumption|].
    rewrite (Hend _ Hge) in Hq. discriminate. }
  destruct (Hpos _ _ Hq) as [Hr Hw].
  assert (Hadd : ptr_add addr (RegionSize mbi) = addr + RegionSize mbi)
    by (apply wrap64_small; lia).
  rewrite Hadd.
  destruct (PatternScan.region_skipped (Size (PatternScan.Assembly s)) mbi).
  - apply IH; lia.
  - pose proof (candidate_loop_fuel (PatternScan.Assembly s) (memory h)
                  (PatternScan.attempt s (memory h))
                  (Z.to_nat (wrap64 (RegionSize mbi - Size (PatternScan.Assembly s))))
                  (fun b j => run_instructions_fuel _ _
                                (PatternScan_exec_fuel _ _ _ _) _)
                  (BaseAddress mbi) 0 result []) as Hc.
    destruct (candidate_loop _ _ _ _ _ _ _ _) as [r1| |]; cbn [obind]; try congruence.
    apply IH; lia.
Qed.

Lemma DataScan_scan_while_ends s h :
  0 <= lpBaseOfDll h -> 0 <= SizeOfImage h -> lpBaseOfDll h + SizeOfImage h < 2 ^ 64 ->
  (forall a mbi, VirtualQuery h a = Some mbi ->
                 0 < RegionSize mbi /\ a + RegionSize mbi < 2 ^ 64) ->
  forall fuel addr result trace,
    0 <= addr -> (1 <= fuel)%nat ->
    lpBaseOfDll h + SizeOfImage h - addr + 3 <= Z.of_nat fuel ->
    DataScan.scan_while fuel s h addr result trace <> OutOfFuel.
Proof.
  intros Hb Hsz Hw64 Hpos.
  induction fuel as [|fuel IH]; intros addr result trace Ha H1 Hfuel; [lia|].
  cbn [DataScan.scan_while].
  destruct (result =? nullptr); [|discriminate].
  destruct (VirtualQuery h addr) as [mbi|] eqn:Hq; [|discriminate].
  destruct (DataScan.in_module h addr) eqn:Hin; cbn [negb]; [|discriminate].
  assert (Hle : addr <= lpBaseOfDll h + SizeOfImage h).
  { unfold DataScan.in_module in Hin. apply andb_true_iff in Hin as [_ Hin].
    apply Z.leb_le in Hin. unfold ptr_add in Hin. rewrite wrap64_small in Hin by lia.
    exact Hin. }
  destruct (Hpos _ _ Hq) as [Hr Hw].
  assert (Hadd : ptr_add addr (RegionSize mbi) = addr + RegionSize mbi)
    by (apply wrap64_small; lia).
  rewrite Hadd.
  destruct (DataScan.region_skipped (Size (DataScan.Assembly s)) mbi).
  - apply IH; lia.
  - pose proof (candidate_loop_fuel (DataScan.Assembly s) (memory h)
                  (DataScan.attempt s (memory h))
                  (Z.to_nat (wrap64 (RegionSize mbi - Size (DataScan.Assembly s))))
                  (fun b j => run_instructions_fuel _ _ (DataScan_exec_fuel _) _)
                  (BaseAddress mbi) 0 result []) as Hc.
    destruct (candidate_loop _ _ _ _ _ _ _ _) as [r1| |]; cbn [obind]; try congruence.
    apply IH; lia.
Qed.

(** X13: the walk ends when regions have positive size and do not wrap around the
    address space: [PatternScan::Scan] ends as soon as [VirtualQuery] fails
    from some address [limit] on, within [limit + 2] rounds of its loop;
    [DataScan::Scan] ends within [SizeOfImage + 3] rounds whatever
    [VirtualQuery] answers, because it stops once the address leaves the
    module.  (With enough fuel the model never runs out: it returns, or
    meets undefined behaviour inside an attempt.) *)
Theorem Scan_terminates (h : Host) :
  (forall a mbi, VirtualQuery h a = Some mbi ->
                 0 < RegionSize mbi /\ a + RegionSize mbi < 2 ^ 64) ->
  (forall s limit fuel,
     (forall a, limit <= a -> VirtualQuery h a = None) ->
     limit + 2 <= Z.of_nat fuel -> (1 <= fuel)%nat ->
     PatternScan.Scan fuel s h <> OutOfFuel)
  /\ (forall s fuel,
        0 <= lpBaseOfDll h -> 0 <= SizeOfImage h ->
        lpBaseOfDll h + SizeOfImage h < 2 ^ 64 ->
        SizeOfImage h + 3 <= Z.of_nat fuel ->
        DataScan.Scan fuel s h <> OutOfFuel).
Proof.
  intros Hpos. split.
  - intros s limit fuel Hend Hfuel H1. unfold PatternScan.Scan.
    destruct (Size (PatternScan.Assembly s) =? 0); [discriminate|].
    apply (PatternScan_scan_while_ends s h limit Hend Hpos); lia.
  - intros s fuel Hb Hsz Hw Hfuel. unfold DataScan.Scan.
    destruct (Size (DataScan.Assembly s) =? 0); [discriminate|].
    apply (DataScan_scan_while_ends s h Hb Hsz Hw Hpos); lia.
Qed.

Lemma Scan_terminates_witness :
  let h := one_region_host 0x1000 PAGE_EXECUTE_READ [0x1A; 0x2B; 0x00] in
  (forall a mbi, VirtualQuery h a = Some mbi ->
                 0 < RegionSize mbi /\ a + RegionSize mbi < 2 ^ 64)
  /\ (forall a, 0x1003 <= a -> VirtualQuery h a = None)
  /\ forall s, PatternScan.Scan 4101 s h <> OutOfFuel.
Proof.
  intros h.
  assert (Hpos : forall a mbi, VirtualQuery h a = Some mbi ->
                               0 < RegionSize mbi /\ a + RegionSize mbi < 2 ^ 64).
  { intros a mbi. unfold h, one_region_host. cbn [VirtualQuery length].
    destruct (Z.ltb_spec a 0x1000).
    - intros [= <-]. cbn [RegionSize]. lia.
    - destruct (Z.ltb_spec a (0x1000 + Z.of_nat 3)); [|discriminate].
      intros [= <-]. cbn [RegionSize]. lia. }
  assert (Hend : forall a, 0x1003 <= a -> VirtualQuery h a = None).
  { intros a Ha. unfold h, one_region_host. cbn [VirtualQuery length].
    destruct (Z.ltb_spec a 0x1000); [lia|].
    destruct (Z.ltb_spec a (0x1000 + Z.of_nat 3)); [lia|reflexivity]. }
  split; [exact Hpos|]. split; [exact Hend|].
  intros s. apply (proj1 (Scan_terminates h Hpos) s 0x1003 4101%nat Hend); lia.
Defined.

(** ** [FallbackScan] *)

(** X14: a fallback returns the result of the first of its scans that finds
    something, without running the scans after it; it returns null when
    every scan returns null, and in particular when it holds no scan. *)
Theorem FallbackScan_first_success (fuel : nat) (h : Host)
  (pre : list PatternScan.t) :
  Forall (fun s => exists tr, PatternScan.Scan fuel s h = Ret (nullptr, tr)) pre ->
  (forall s post r tr,
     PatternScan.Scan fuel s h = Ret (r, tr) -> r <> nullptr ->
     FallbackScan.Scan fuel (FallbackScan.ctor (pre ++ s :: post)) h = Ret r)
  /\ FallbackScan.Scan fuel (FallbackScan.ctor pre) h = Ret nullptr
  /\ FallbackScan.Scan fuel (FallbackScan.ctor []) h = Ret nullptr.
Proof.
  intros Hpre. unfold FallbackScan.Scan, FallbackScan.ctor. cbn [FallbackScan.Scans].
  split; [|split; [|reflexivity]].
  - intros s post r tr Hs Hr. induction Hpre as [|x pre (trx & Hx) _ IH].
    + cbn [app FallbackScan.scan_each]. rewrite Hs. cbn [obind fst].
      destruct (Z.eqb_spec r nullptr); [contradiction|reflexivity].
    + cbn [app FallbackScan.scan_each]. rewrite Hx. cbn [obind fst]. exact IH.
  - induction Hpre as [|x pre (trx & Hx) _ IH]; [reflexivity|].
    cbn [FallbackScan.scan_each]. rewrite Hx. cbn [obind fst]. exact IH.
Qed.

Lemma FallbackScan_first_success_witness :
  let h := one_region_host 0x1000 PAGE_EXECUTE_READ [0x00; 0x1A; 0x2B; 0x00] in
  let miss := PatternScan.mk (pattern_of "3C") (replicate 16 Instruction_default) 0 in
  let hit := PatternScan.mk (pattern_of "1A 2B") (replicate 16 Instruction_default) 0 in
  Forall (fun s => exists tr, PatternScan.Scan 3 s h = Ret (nullptr, tr)) [miss]
  /\ FallbackScan.Scan 3 (FallbackScan.ctor ([miss] ++ hit :: [miss])) h = Ret 0x1001.
Proof.
  intros h miss hit.
  assert (Hmiss : Forall (fun s => exists tr, PatternScan.Scan 3 s h = Ret (nullptr, tr)) [miss]).
  { constructor; [|constructor]. eexists. vm_compute. reflexivity. }
  split; [exact Hmiss|].
  refine (proj1 (FallbackScan_first_success 3 h [miss] Hmiss) hit [miss] 0x1001 _ _ _).
  - vm_compute. reflexivity.
  - discriminate.
Defined.

(** ** [FollowJmpChain] *)

Lemma FollowJmpChain_not_jmp fuel m p :
  is_jmp m p = false -> FollowJmpChain (S fuel) m p = Ret p.
Proof.
  unfold is_jmp. intros H.
  apply orb_false_elim in H as [H H3]. apply orb_false_elim in H as [H1 H2].
  cbn [FollowJmpChain]. rewrite H1, H2, H3. reflexivity.
Qed.

(** X15: where the chain ends, no jump begins: an address [FollowJmpChain]
    returns does not hold a short, near or far jump, so following the chain
    again from it returns it at once; an address that holds no jump is
    returned as it is; and more rounds never change a result. *)
Theorem FollowJmpChain_ends_off_jmp (fuel : nat) (m : Mem) (p q : Z) :
  FollowJmpChain fuel m p = Ret q ->
  is_jmp m q = false
  /\ (forall fuel', FollowJmpChain (S fuel') m q = Ret q)
  /\ (forall fuel', (fuel <= fuel')%nat -> FollowJmpChain fuel' m p = Ret q)
  /\ (is_jmp m p = false -> q = p).
Proof.
  intros Hrun.
  assert (Hq : is_jmp m q = false).
  { revert p Hrun. induction fuel as [|fuel IH]; intros p; [discriminate|].
    cbn [FollowJmpChain]. unfold is_jmp.
    destruct (deref m p 0 =? 0xEB) eqn:H1; [apply IH|].
    destruct (deref m p 0 =? 0xE9) eqn:H2; [apply IH|].
    destruct ((deref m p 0 =? 0xFF) && (deref m p 1 =? 0x25)) eqn:H3; [apply IH|].
    intros [= <-]. rewrite H1, H2, H3. reflexivity. }
  split; [exact Hq|]. split; [|split].
  - intros fuel'. apply FollowJmpChain_not_jmp. exact Hq.
  - revert p Hrun. induction fuel as [|fuel IH]; intros p Hrun fuel' Hle; [discriminate|].
    destruct fuel' as [|fuel']; [lia|].
    cbn [FollowJmpChain] in *.
    destruct (deref m p 0 =? 0xEB); [apply IH; [assumption|lia]|].
    destruct (deref m p 0 =? 0xE9); [apply IH; [assumption|lia]|].
    destruct ((deref m p 0 =? 0xFF) && (deref m p 1 =? 0x25));
      [apply IH; [assumption|lia]|exact Hrun].
  - intros Hp. destruct fuel as [|fuel]; [discriminate|].
    rewrite FollowJmpChain_not_jmp in Hrun by exact Hp. congruence.
Qed.

Lemma FollowJmpChain_ends_off_jmp_witness :
  let m := image_memory 0x1000 [0xEB; 0x02; 0xCC; 0xCC; 0xE9; 0x01; 0x00; 0x00; 0x00;
                                0xCC; 0xC3] in
  FollowJmpChain 3 m 0x1000 = Ret 0x100A
  /\ is_jmp m 0x100A = false
  /\ FollowJmpChain 7 m 0x1000 = Ret 0x100A.
Proof.
  intros m.
  assert (Hrun : FollowJmpChain 3 m 0x1000 = Ret 0x100A) by (vm_compute; reflexivity).
  split; [exact Hrun|].
  destruct (FollowJmpChain_ends_off_jmp 3 m 0x1000 0x100A Hrun) as (Hq & _ & Hmono & _).
  split; [exact Hq|]. apply Hmono. lia.
Defined.

(** X16: a short jump onto itself ([EB FE]) is followed for ever: the chain
    never returns, however many rounds it is given. *)
Theorem FollowJmpChain_self_jump (m : Mem) (p : Z) (fuel : nat) :
  0 <= p < 2 ^ 64 ->
  deref m p 0 = 0xEB -> deref m p 1 = 0xFE ->
  FollowJmpChain fuel m p = OutOfFuel.
Proof.
  intros Hp H0 H1. induction fuel as [|fuel IH]; [reflexivity|].
  cbn [FollowJmpChain]. rewrite H0. change (0xEB =? 0xEB) with true. cbn iota.
  assert (Hd : read_int 8 m (ptr_add p 1) = -2).
  { unfold read_int. change (Z.to_nat (8 / 8)) with 1%nat. cbn [read_le].
    unfold deref in H1. rewrite H1. reflexivity. }
  rewrite Hd. replace (ptr_add p (2 + -2)) with p; [exact IH|].
  unfold ptr_add. rewrite Z.add_0_r, wrap64_small by exact Hp. reflexivity.
Qed.

Lemma FollowJmpChain_self_jump_witness :
  FollowJmpChain 50 (image_memory 0x1000 [0xEB; 0xFE]) 0x1000 = OutOfFuel.
Proof.
  apply FollowJmpChain_self_jump; [lia|reflexivity|reflexivity].
Defined.

(** ** More on [Patch] *)

(** X17: when the protection change of the constructor fails, the patch object
    exists all the same, with no snapshot, and memory is untouched; its
    destructor then does nothing as long as the range still cannot be made
    writable, but in a state where it can, it copies from the null snapshot
    pointer: undefined behaviour. *)
Theorem Patch_without_snapshot (p : Patch.Process) (aTarget : Z) (data : list Z) :
  aTarget <> nullptr -> Patch.strlen data <> 0 ->
  Patch.committed p aTarget (Patch.strlen data) = false ->
  exists this,
    Patch.ctor p aTarget (Some data) = Ok (this, p)
    /\ Patch.OriginalBytes this = None
    /\ (forall q, Patch.committed q aTarget (Patch.strlen data) = false ->
                  Patch.dtor this q = Ret q)
    /\ (forall q, Patch.committed q aTarget (Patch.strlen data) = true ->
                  Patch.dtor this q = Undefined).
Proof.
  intros Ht Hn Hc. eexists. split; [apply ctor_not_applied; assumption|].
  split; [reflexivity|]. split.
  - intros q Hq. unfold Patch.dtor, Patch.VirtualProtect.
    cbn [Patch.Target Patch.Size]. rewrite Hq. reflexivity.
  - intros q Hq. unfold Patch.dtor, Patch.VirtualProtect.
    cbn [Patch.Target Patch.Size Patch.OriginalBytes]. rewrite Hq. reflexivity.
Qed.

Lemma Patch_without_snapshot_witness :
  exists this,
    Patch.ctor (one_page_process [0x55]) 0x3000 (Some [0x90]) = Ok (this, one_page_process [0x55])
    /\ Patch.OriginalBytes this = None.
Proof.
  destruct (Patch_without_snapshot (one_page_process [0x55]) 0x3000 [0x90])
    as (this & Hctor & Hnone & _).
  - discriminate.
  - discriminate.
  - reflexivity.
  - exists this. split; assumption.
Defined.

(** The destructor in a committed state, with the state it leaves. *)
Lemma dtor_applied this original q :
  Patch.OriginalBytes this = Some original ->
  Patch.committed q (Patch.Target this) (Patch.Size this) = true ->
  exists prot,
    Patch.dtor this q
    = Ret (Patch.mkProcess
             (Patch.memcpy_to (Patch.bytes q) (Patch.Target this) original (Patch.Size this))
             prot)
    /\ Patch.committed
         (Patch.mkProcess
            (Patch.memcpy_to (Patch.bytes q) (Patch.Target this) original (Patch.Size this))
            prot)
         (Patch.Target this) (Patch.Size this) = true.
Proof.
  intros Ho Hc. unfold Patch.dtor. unfold Patch.VirtualProtect at 1. rewrite Hc, Ho.
  cbn [Patch.bytes Patch.protection].
  unfold Patch.VirtualProtect. rewrite committed_after by exact Hc.
  eexists. split; [reflexivity|].
  exact (committed_after
           (Patch.mkProcess (Patch.bytes q)
              (fun page => if Patch.in_pages (Patch.Target this) (Patch.Size this) page
                           then Some PAGE_EXECUTE_READWRITE else Patch.protection q page))
           (Patch.Target this) _ _ _
           (committed_after q (Patch.Target this) _ PAGE_EXECUTE_READWRITE (Patch.bytes q) Hc)).
Qed.

(** X18: two patches over the same range: released in reverse order of their
    construction they leave every byte of memory as it was before the
    first; released in the order of their construction they leave the range
    holding the bytes of the first patch, because the second patch's
    snapshot was taken after the first was written. *)
Theorem Patch_release_order (p0 : Patch.Process) (aTarget : Z) (dataA dataB : list Z) :
  aTarget <> nullptr ->
  Patch.strlen dataA <> 0 -> Patch.strlen dataB = Patch.strlen dataA ->
  Patch.committed p0 aTarget (Patch.strlen dataA) = true ->
  exists A p1 B p2,
    Patch.ctor p0 aTarget (Some dataA) = Ok (A, p1)
    /\ Patch.ctor p1 aTarget (Some dataB) = Ok (B, p2)
    /\ (exists p3 p4,
          Patch.dtor B p2 = Ret p3 /\ Patch.dtor A p3 = Ret p4
          /\ forall a, Patch.bytes p4 a = Patch.bytes p0 a)
    /\ (exists p3 p4,
          Patch.dtor A p2 = Ret p3 /\ Patch.dtor B p3 = Ret p4
          /\ (forall a, aTarget <= a < aTarget + Patch.strlen dataA ->
                        Patch.bytes p4 a = default 0 (dataA !! Z.to_nat (a - aTarget)))
          /\ (forall a, ~ (aTarget <= a < aTarget + Patch.strlen dataA) ->
                        Patch.bytes p4 a = Patch.bytes p0 a)).
Proof.
  intros Ht HnA HB Hc0.
  destruct (ctor_applied p0 aTarget dataA Ht HnA Hc0) as (prot1 & HA & Hc1).
  set (n := Patch.strlen dataA) in *.
  set (m1 := Patch.memcpy_to (Patch.bytes p0) aTarget dataA n) in *.
  destruct (ctor_applied (Patch.mkProcess m1 prot1) aTarget dataB Ht
              ltac:(rewrite HB; exact HnA) ltac:(rewrite HB; exact Hc1))
    as (prot2 & HBc & Hc2).
  rewrite HB in HBc, Hc2. cbn [Patch.bytes] in HBc, Hc2.
  set (m2 := Patch.memcpy_to m1 aTarget dataB n) in *.
  set (A := Patch.mk aTarget (Some (Patch.read_bytes (Patch.bytes p0) aTarget n)) n) in *.
  set (B := Patch.mk aTarget (Some (Patch.read_bytes m1 aTarget n)) n) in *.
  exists A, (Patch.mkProcess m1 prot1), B, (Patch.mkProcess m2 prot2).
  split; [exact HA|]. split; [exact HBc|]. split.
  - destruct (dtor_applied B _ (Patch.mkProcess m2 prot2) eq_refl Hc2) as (prot3 & HdB & Hc3).
    destruct (dtor_applied A _ _ eq_refl Hc3) as (prot4 & HdA & _).
    eexists _, _. split; [exact HdB|]. split; [exact HdA|].
    cbn [Patch.bytes Patch.Target Patch.Size A B]. intros a.
    apply memcpy_snapshot. intros x Hx.
    rewrite memcpy_to_out by exact Hx.
    unfold m2, m1. rewrite !memcpy_to_out by exact Hx. reflexivity.
  - destruct (dtor_applied A _ (Patch.mkProcess m2 prot2) eq_refl Hc2) as (prot3 & HdA & Hc3).
    destruct (dtor_applied B _ _ eq_refl Hc3) as (prot4 & HdB & _).
    eexists _, _. split; [exact HdA|]. split; [exact HdB|].
    cbn [Patch.bytes Patch.Target Patch.Size A B]. split.
    + intros a Ha. rewrite memcpy_to_in by exact Ha.
      rewrite read_bytes_lookup by lia.
      replace (aTarget + Z.of_nat (Z.to_nat (a - aTarget))) with a by lia.
      unfold m1. rewrite memcpy_to_in by exact Ha. reflexivity.
    + intros a Ha. rewrite memcpy_to_out by exact Ha.
      rewrite memcpy_to_out by exact Ha.
      unfold m2, m1. rewrite !memcpy_to_out by exact Ha. reflexivity.
Qed.

Lemma Patch_release_order_witness :
  0x1000 <> nullptr /\ Patch.strlen [0x90; 0x90] <> 0
  /\ Patch.committed (one_page_process [0x55; 0x48; 0x89]) 0x1000 (Patch.strlen [0x90; 0x90])
     = true
  /\ exists A p1 B p2,
       Patch.ctor (one_page_process [0x55; 0x48; 0x89]) 0x1000 (Some [0x90; 0x90]) = Ok (A, p1)
       /\ Patch.ctor p1 0x1000 (Some [0xCC; 0xC3]) = Ok (B, p2)
       /\ exists p3 p4,
            Patch.dtor A p2 = Ret p3 /\ Patch.dtor B p3 = Ret p4
            /\ Patch.bytes p4 0x1000 = 0x90.
Proof.
  split; [discriminate|]. split; [discriminate|]. split; [reflexivity|].
  destruct (Patch_release_order (one_page_process [0x55; 0x48; 0x89]) 0x1000
              [0x90; 0x90] [0xCC; 0xC3])
    as (A & p1 & B & p2 & HA & HB & _ & (p3 & p4 & HdA & HdB & Hin & _)).
  - discriminate.
  - discriminate.
  - reflexivity.
  - reflexivity.
  - exists A, p1, B, p2. split; [exact HA|]. split; [exact HB|].
    exists p3, p4. split; [exact HdA|]. split; [exact HdB|].
    exact (Hin 0x1000 ltac:(vm_compute; split; [discriminate|reflexivity])).
Defined.

(** ** Padding and [Follow] *)

Lemma run_instructions_padding exec n :
  (forall st, exec Instruction_default st = Ret st) ->
  forall insts st, instructionsFailed st = 0 ->
    run_instructions exec (insts ++ replicate n Instruction_default) st
    = run_instructions exec insts st.
Proof.
  intros Hexec. induction insts as [|inst l IH]; intros st Hf.
  - cbn [app run_instructions]. apply run_instructions_NONE; assumption.
  - cbn [app run_instructions].
    destruct (exec inst st) as [s1| |]; cbn [obind]; try reflexivity.
    destruct (Z.eqb_spec (instructionsFailed s1) 0) as [H0|]; cbn [negb]; [|reflexivity].
    apply IH. exact H0.
Qed.

(** X19: the default instructions that fill the rest of the array do nothing: a
    [PatternScan] built from at most [MAX_INSTRUCTION_LENGTH] instructions
    runs, at every candidate, exactly those instructions; with more the
    constructor does not compile. *)
Theorem PatternScan_runs_given_instructions (aASM : Pattern) (instrs : list Instruction) :
  (Z.of_nat (length instrs) <= MAX_INSTRUCTION_LENGTH ->
   exists s, PatternScan.ctor aASM instrs = Some s
     /\ length (PatternScan.Instructions s) = Z.to_nat MAX_INSTRUCTION_LENGTH
     /\ PatternScan.Count s = Z.of_nat (length instrs)
     /\ forall m base i,
          PatternScan.attempt s m base i
          = run_instructions (PatternScan.exec aASM m base i) instrs
                             (PatternScan.attempt_init base i))
  /\ (MAX_INSTRUCTION_LENGTH < Z.of_nat (length instrs) -> PatternScan.ctor aASM instrs = None).
Proof.
  unfold PatternScan.ctor. split.
  - intros Hle. destruct (Z.leb_spec (Z.of_nat (length instrs)) MAX_INSTRUCTION_LENGTH); [|lia].
    eexists. split; [reflexivity|]. cbn [PatternScan.Instructions PatternScan.Count].
    split; [|split; [reflexivity|]].
    + rewrite length_app, length_replicate. unfold MAX_INSTRUCTION_LENGTH in *. lia.
    + intros m base i. unfold PatternScan.attempt.
      cbn [PatternScan.Instructions PatternScan.Assembly].
      apply run_instructions_padding; reflexivity.
  - intros Hgt. destruct (Z.leb_spec (Z.of_nat (length instrs)) MAX_INSTRUCTION_LENGTH);
      [lia|reflexivity].
Qed.

Lemma PatternScan_runs_given_instructions_witness :
  Z.of_nat (length [Offset 2; CmpI8 0x4D]) <= MAX_INSTRUCTION_LENGTH
  /\ exists s, PatternScan.ctor (pattern_of "1A 2B") [Offset 2; CmpI8 0x4D] = Some s
       /\ PatternScan.Count s = 2.
Proof.
  split; [vm_compute; discriminate|].
  destruct (proj1 (PatternScan_runs_given_instructions (pattern_of "1A 2B")
                     [Offset 2; CmpI8 0x4D]) ltac:(vm_compute; discriminate))
    as (s & Hs & _ & Hc & _).
  exists s. split; [exact Hs|exact Hc].
Defined.

Lemma le32_digits d :
  d mod 256 + 256 * ((d / 256) mod 256
    + 256 * ((d / 65536) mod 256 + 256 * ((d / 16777216) mod 256 + 256 * 0)))
  = d mod 2 ^ 32.
Proof.
  change (2 ^ 32) with (256 * (256 * (256 * 256))).
  rewrite (Z.rem_mul_r d 256 (256 * (256 * 256))) by lia.
  rewrite (Z.rem_mul_r (d / 256) 256 (256 * 256)) by lia.
  rewrite (Z.rem_mul_r (d / 256 / 256) 256 256) by lia.
  rewrite !Z.div_div by lia. change (256 * 256) with 65536.
  change (65536 * 256) with 16777216. lia.
Qed.

(** X20: [Follow] reads a signed 32-bit little-endian displacement: when the four
    bytes at the cursor [a] are the little-endian digits of [d], the cursor
    becomes [a + d + 4] (modulo the pointer width), backwards for a negative
    [d].  In [PatternScan] the instruction ignores its operand; in [DataScan]
    [follow] with operand [v] is [Offset(v)] followed by [follow] with
    operand 0. *)
Theorem Follow_target (m : Mem) (a d : Z) :
  - 2 ^ 31 <= d < 2 ^ 31 ->
  u8 (m a) = d mod 256 ->
  u8 (m (ptr_add a 1)) = (d / 256) mod 256 ->
  u8 (m (ptr_add (ptr_add a 1) 1)) = (d / 65536) mod 256 ->
  u8 (m (ptr_add (ptr_add (ptr_add a 1) 1) 1)) = (d / 16777216) mod 256 ->
  FollowRelativeAddress m a = wrap64 (a + d + 4)
  /\ (forall P base i v st,
        resultAddr st = a ->
        PatternScan.exec P m base i (Instruction_val follow v) st
        = Ret (set_resultAddr st (wrap64 (a + d + 4))))
  /\ (forall v rest st,
        instructionsFailed st = 0 ->
        run_instructions (DataScan.exec m) (Instruction_val follow v :: rest) st
        = run_instructions (DataScan.exec m) (Offset v :: Instruction_val follow 0 :: rest) st).
Proof.
  intros Hd H0 H1 H2 H3.
  assert (Hf : FollowRelativeAddress m a = wrap64 (a + d + 4)).
  { unfold FollowRelativeAddress, read_int. change (Z.to_nat (32 / 8)) with 4%nat.
    cbn [read_le]. rewrite H0, H1, H2, H3, le32_digits.
    replace (to_signed 32 (d mod 2 ^ 32)) with d; [reflexivity|].
    unfold to_signed. cbn zeta. rewrite Z.mod_mod by lia.
    destruct (Z.lt_ge_cases d 0) as [Hneg|Hpos].
    - rewrite <- (Z.mod_add d 1) by lia. rewrite (Z.mod_small (d + 1 * 2 ^ 32)) by lia.
      destruct (Z.ltb_spec (d + 1 * 2 ^ 32) (2 ^ (32 - 1))); lia.
    - rewrite Z.mod_small by lia.
      destruct (Z.ltb_spec d (2 ^ (32 - 1))); lia. }
  split; [exact Hf|]. split.
  - intros P base i v st Ha. unfold PatternScan.exec.
    cbn [Instruction_val Operation]. rewrite Ha, Hf. reflexivity.
  - intros v rest st Hst. cbn [run_instructions].
    assert (EO : DataScan.exec m (Offset v) st
                 = Ret (set_resultAddr st (ptr_add (resultAddr st) v))) by reflexivity.
    assert (EF : forall x s, DataScan.exec m (Instruction_val follow x) s
                 = Ret (set_resultAddr s
                          (FollowRelativeAddress m (ptr_add (resultAddr s) x))))
      by reflexivity.
    rewrite EO, !EF. cbn [obind instructionsFailed set_resultAddr resultAddr].
    rewrite Hst. cbn [Z.eqb negb]. rewrite EF.
    cbn [obind instructionsFailed set_resultAddr resultAddr].
    rewrite Hst. cbn [Z.eqb negb].
    rewrite ptr_add_add, Z.add_0_r. reflexivity.
Qed.

Lemma Follow_target_witness :
  FollowRelativeAddress (image_memory 0x1000 [0xE8; 0xFB; 0xFF; 0xFF; 0xFF]) 0x1001
  = wrap64 (0x1001 + -5 + 4).
Proof.
  apply (Follow_target (image_memory 0x1000 [0xE8; 0xFB; 0xFF; 0xFF; 0xFF]) 0x1001 (-5)).
  - lia.
  - reflexivity.
  - reflexivity.
  - reflexivity.
  - reflexivity.
Defined.
